(** * chiller~ : spectral freeze / granular resynthesis engine

    A shallow embedding of [chiller~.cpp] and the verification of its
    specification.

    Modelling conventions.
    - [double] (and the [float] samples of a host buffer) are the real
      numbers of the Standard Library: arithmetic is exact, [M_PI] is [PI],
      [cos], [sin] and [sqrt] are the real functions.  Rounding, infinities
      and NaN are outside the model.  Two places of the source turn a
      rounded value into a discrete decision, the cast of [start_frame] and
      the grain trigger of [hop_tick]: there the model decides on the exact
      value, and the theorems that speak of these decisions say so or keep a
      margin.
    - [long] and [size_t] values are integers [Z]; every counter of the
      program stays far below 2^63 (see [engine_ok]), so no wrap-around is
      written out.  Integer division is only applied to non-negative
      operands, where the truncation of C++ is [Z.div].
    - [std::vector<T>] is [list T]; [v[i]] is [vget], [v[i] = a] is [vset].
      An access outside the vector is undefined behaviour in the source; the
      model reads a default and ignores the write, and the theorems are
      stated for the sizes the constructor establishes, where every access is
      in range.
    - The engine struct [t_chiller] is a record threaded through every
      operation; messages printed on the host console are returned with the
      new state.
    - The host (buffer registry, clock, random number generator) is not part
      of the repository: buffers are a [host] record given to each command,
      the clock reading is an argument, and the generator is a section
      variable. *)

From Stdlib Require Import String.
From Stdlib Require Import Reals ZArith List Lia Lra Bool.
Import ListNotations.
Open Scope R_scope.

(** ** Complex numbers ([std::complex<double>]) *)

Definition C : Type := (R * R)%type.

Definition C0 : C := (0, 0).
Definition C1 : C := (1, 0).
Definition Cre (z : C) : R := fst z.
Definition Cim (z : C) : R := snd z.
Definition Cadd (a b : C) : C := (fst a + fst b, snd a + snd b).
Definition Csub (a b : C) : C := (fst a - fst b, snd a - snd b).
Definition Cmul (a b : C) : C :=
  (fst a * fst b - snd a * snd b, fst a * snd b + snd a * fst b).
Definition Cconj (a : C) : C := (fst a, - snd a).
(** [z * r] and [z / r] for a complex [z] and a double [r]. *)
Definition Cscale (a : C) (r : R) : C := (fst a * r, snd a * r).
Definition Cdivr (a : C) (r : R) : C := (fst a / r, snd a / r).
(** [std::abs], [std::arg] and [std::polar]. *)
Definition Cabs (a : C) : R := sqrt (fst a * fst a + snd a * snd a).
Definition atan2 (y x : R) : R :=
  if Rlt_dec 0 x then atan (y / x)
  else if Rlt_dec x 0 then
         (if Rle_dec 0 y then atan (y / x) + PI else atan (y / x) - PI)
       else if Rlt_dec 0 y then PI / 2
            else if Rlt_dec y 0 then - (PI / 2) else 0.
Definition Carg (a : C) : R := atan2 (snd a) (fst a).
Definition Cpolar (m p : R) : C := (m * cos p, m * sin p).

(** ** Vectors and loops *)

Definition vget {A : Type} (d : A) (v : list A) (i : Z) : A :=
  nth (Z.to_nat i) v d.

Fixpoint upd {A : Type} (v : list A) (n : nat) (a : A) : list A :=
  match v, n with
  | [], _ => []
  | _ :: t, O => a :: t
  | h :: t, S n' => h :: upd t n' a
  end.

Definition vset {A : Type} (v : list A) (i : Z) (a : A) : list A :=
  if (i <? 0)%Z then v else upd v (Z.to_nat i) a.

(** [for (long i = lo; i < hi; i += step) body], for [step > 0] and a body
    that does not assign [i]: the body runs ceil((hi - lo) / step) times. *)
Fixpoint for_count {St : Type} (k : nat) (i step : Z) (body : Z -> St -> St)
  (s : St) : St :=
  match k with
  | O => s
  | S k' => for_count k' (i + step)%Z step body (body i s)
  end.

Definition for_loop {St : Type} (lo hi step : Z) (body : Z -> St -> St) (s : St)
  : St :=
  for_count (Z.to_nat ((hi - lo + step - 1) / step)) lo step body s.

(** A loop whose variable is shifted by one bit per iteration: a [long] has
    64 bits, so [long_bits] iterations exhaust it.  The loop stops as soon as
    its condition fails. *)
Fixpoint while_loop {St : Type} (fuel : nat) (cond : St -> bool)
  (body : St -> St) (s : St) : St :=
  match fuel with
  | O => s
  | S f => if cond s then while_loop f cond body (body s) else s
  end.

Definition long_bits : nat := 64.

(** ** Spectral transform *)

(** [for (; j & bit; bit >>= 1) j ^= bit;] on the pair [(j, bit)]. *)
Definition carry_cond (jb : Z * Z) : bool :=
  negb (Z.land (fst jb) (snd jb) =? 0)%Z.
Definition carry_body (jb : Z * Z) : Z * Z :=
  (Z.lxor (fst jb) (snd jb), Z.shiftr (snd jb) 1).

Definition vswap (data : list C) (i j : Z) : list C :=
  let a := vget C0 data i in
  let b := vget C0 data j in
  vset (vset data i b) j a.

(** One iteration of the bit-reverse reordering loop; the state is [(j, data)]. *)
Definition bitrev_step (n i : Z) (st : Z * list C) : Z * list C :=
  let '(j, data) := st in
  let bit := Z.shiftr n 1 in
  let '(j1, bit1) := while_loop long_bits carry_cond carry_body (j, bit) in
  let j2 := Z.lxor j1 bit1 in
  (j2, if (i <? j2)%Z then vswap data i j2 else data).

Definition bit_reverse (n : Z) (data : list C) : list C :=
  snd (for_loop 1 n 1 (bitrev_step n) (0%Z, data)).

(** One butterfly; the state is [(w, data)]. *)
Definition butterfly (wlen : C) (len i j : Z) (st : C * list C)
  : C * list C :=
  let '(w, data) := st in
  let u := vget C0 data (i + j) in
  let v := Cmul (vget C0 data (i + j + len / 2)) w in
  let data := vset data (i + j) (Cadd u v) in
  let data := vset data (i + j + len / 2) (Csub u v) in
  (Cmul w wlen, data).

Definition fft_block (wlen : C) (len i : Z) (data : list C) : list C :=
  snd (for_loop 0 (len / 2) 1 (butterfly wlen len i) (C1, data)).

(** One stage of the computation; the state is [(len, data)]. *)
Definition fft_stage (n : Z) (st : Z * list C) : Z * list C :=
  let '(len, data) := st in
  let ang := 2 * PI / IZR len in
  let wlen : C := (cos ang, sin ang) in
  (Z.shiftl len 1, for_loop 0 n len (fft_block wlen len) data).

Definition stage_cond (n : Z) (st : Z * list C) : bool := (fst st <=? n)%Z.

Definition chiller_fft (data : list C) : list C :=
  let n := Z.of_nat (length data) in
  if (n <=? 1)%Z then data
  else
    let data := bit_reverse n data in
    snd (while_loop long_bits (stage_cond n) (fft_stage n) (2%Z, data)).

Definition chiller_ifft (data : list C) : list C :=
  let data := map Cconj data in
  let data := chiller_fft data in
  map (fun x => Cdivr (Cconj x) (INR (length data))) data.

(** ** Window *)

Definition chiller_generate_window (window : list R) (size : Z) : list R :=
  for_loop 0 size 1
    (fun i w => vset w i (0.5 * (1 - cos (2 * PI * IZR i / IZR (size - 1)))))
    window.

Definition chiller_apply_window (buffer window : list R) : list R :=
  for_loop 0 (Z.min (Z.of_nat (length buffer)) (Z.of_nat (length window))) 1
    (fun i b => vset b i (vget 0 b i * vget 0 window i))
    buffer.

(** ** Host interface *)

Definition t_symbol : Type := string.

(** A host buffer: [buffer_locksamples] (None for a NULL pointer), the
    interleaved samples it yields, [buffer_getframecount] and
    [buffer_getchannelcount]. *)
Record t_buffer_obj : Type := {
  buffer_locksamples : option (list R);
  buffer_getframecount : Z;
  buffer_getchannelcount : Z
}.

(** A buffer reference holds the name it was created for. *)
Record t_buffer_ref : Type := { ref_name : t_symbol }.

(** The buffer registry of the host at the time of a command. *)
Record host : Type := {
  buffer_ref_new : t_symbol -> option t_buffer_ref;
  buffer_ref_getobject : t_buffer_ref -> option t_buffer_obj
}.

Inductive console_msg : Type :=
| object_error (s : string)
| object_post (s : string).

Inductive t_atom : Type :=
| A_LONG (n : Z)
| A_FLOAT (r : R)
| A_SYM (s : t_symbol).

(** Modelled from the spec: the [CLAMP] macro of the host SDK is not in the
    repository; every setter "clamps to its documented range before
    storing". *)
Definition CLAMP (a lo hi : R) : R :=
  if Rgt_dec a lo then (if Rlt_dec a hi then a else hi) else lo.

(** [(long)r] for a double [r]: truncation toward zero. *)
Definition double_to_long (r : R) : Z :=
  if Rlt_dec r 0 then (- Int_part (- r))%Z else Int_part r.

Definition CHILLER_DEFAULT_FFT_SIZE : Z := 2048.

Section Engine.

Set Implicit Arguments.

(** [std::mt19937] with its two [std::uniform_real_distribution]s: a state,
    the state [std::random_device] seeds it with, and a draw from each
    distribution. *)
Variable rng_state : Type.
Variable rng_seed : rng_state.
Variable phase_dist : rng_state -> R * rng_state.
Variable amp_dist : rng_state -> R * rng_state.

Record t_chiller : Type := mk_chiller {
  buffer_ref : option t_buffer_ref;
  buffer_name : t_symbol;
  frozen_spectrum : list C;
  window : list R;
  overlap_buffer_l : list R;
  overlap_buffer_r : list R;
  fft_buffer : list C;
  analysis_buffer : list R;
  fft_size : Z;
  hop_size : Z;
  position : R;
  overlap_amount : R;
  grain_rate : R;
  phase_randomness : R;
  amplitude_variation : R;
  spectrum_captured : bool;
  capturing_spectrum : bool;
  grain_counter : Z;
  hop_counter : Z;
  sample_rate : R;
  last_position_change_time : R;
  rng : rng_state
}.

(** Field assignments [x->f = v]. *)
Definition set_buffer_ref (x : t_chiller) v :=
  let (_, a2, a3, a4, a5, a6, a7, a8, a9, a10, a11, a12, a13, a14, a15, a16,
       a17, a18, a19, a20, a21, a22) := x in
  mk_chiller v a2 a3 a4 a5 a6 a7 a8 a9 a10 a11 a12 a13 a14 a15 a16 a17 a18
    a19 a20 a21 a22.
Definition set_buffer_name (x : t_chiller) v :=
  let (a1, _, a3, a4, a5, a6, a7, a8, a9, a10, a11, a12, a13, a14, a15, a16,
       a17, a18, a19, a20, a21, a22) := x in
  mk_chiller a1 v a3 a4 a5 a6 a7 a8 a9 a10 a11 a12 a13 a14 a15 a16 a17 a18
    a19 a20 a21 a22.
Definition set_frozen_spectrum (x : t_chiller) v :=
  let (a1, a2, _, a4, a5, a6, a7, a8, a9, a10, a11, a12, a13, a14, a15, a16,
       a17, a18, a19, a20, a21, a22) := x in
  mk_chiller a1 a2 v a4 a5 a6 a7 a8 a9 a10 a11 a12 a13 a14 a15 a16 a17 a18
    a19 a20 a21 a22.
Definition set_window (x : t_chiller) v :=
  let (a1, a2, a3, _, a5, a6, a7, a8, a9, a10, a11, a12, a13, a14, a15, a16,
       a17, a18, a19, a20, a21, a22) := x in
  mk_chiller a1 a2 a3 v a5 a6 a7 a8 a9 a10 a11 a12 a13 a14 a15 a16 a17 a18
    a19 a20 a21 a22.
Definition set_overlap_buffer_l (x : t_chiller) v :=
  let (a1, a2, a3, a4, _, a6, a7, a8, a9, a10, a11, a12, a13, a14, a15, a16,
       a17, a18, a19, a20, a21, a22) := x in
  mk_chiller a1 a2 a3 a4 v a6 a7 a8 a9 a10 a11 a12 a13 a14 a15 a16 a17 a18
    a19 a20 a21 a22.
Definition set_overlap_buffer_r (x : t_chiller) v :=
  let (a1, a2, a3, a4, a5, _, a7, a8, a9, a10, a11, a12, a13, a14, a15, a16,
       a17, a18, a19, a20, a21, a22) := x in
  mk_chiller a1 a2 a3 a4 a5 v a7 a8 a9 a10 a11 a12 a13 a14 a15 a16 a17 a18
    a19 a20 a21 a22.
Definition set_fft_buffer (x : t_chiller) v :=
  let (a1, a2, a3, a4, a5, a6, _, a8, a9, a10, a11, a12, a13, a14, a15, a16,
       a17, a18, a19, a20, a21, a22) := x in
  mk_chiller a1 a2 a3 a4 a5 a6 v a8 a9 a10 a11 a12 a13 a14 a15 a16 a17 a18
    a19 a20 a21 a22.
Definition set_analysis_buffer (x : t_chiller) v :=
  let (a1, a2, a3, a4, a5, a6, a7, _, a9, a10, a11, a12, a13, a14, a15, a16,
       a17, a18, a19, a20, a21, a22) := x in
  mk_chiller a1 a2 a3 a4 a5 a6 a7 v a9 a10 a11 a12 a13 a14 a15 a16 a17 a18
    a19 a20 a21 a22.
Definition set_fft_size (x : t_chiller) v :=
  let (a1, a2, a3, a4, a5, a6, a7, a8, _, a10, a11, a12, a13, a14, a15, a16,
       a17, a18, a19, a20, a21, a22) := x in
  mk_chiller a1 a2 a3 a4 a5 a6 a7 a8 v a10 a11 a12 a13 a14 a15 a16 a17 a18
    a19 a20 a21 a22.
Definition set_hop_size (x : t_chiller) v :=
  let (a1, a2, a3, a4, a5, a6, a7, a8, a9, _, a11, a12, a13, a14, a15, a16,
       a17, a18, a19, a20, a21, a22) := x in
  mk_chiller a1 a2 a3 a4 a5 a6 a7 a8 a9 v a11 a12 a13 a14 a15 a16 a17 a18
    a19 a20 a21 a22.
Definition set_position (x : t_chiller) v :=
  let (a1, a2, a3, a4, a5, a6, a7, a8, a9, a10, _, a12, a13, a14, a15, a16,
       a17, a18, a19, a20, a21, a22) := x in
  mk_chiller a1 a2 a3 a4 a5 a6 a7 a8 a9 a10 v a12 a13 a14 a15 a16 a17 a18
    a19 a20 a21 a22.
Definition set_overlap_amount (x : t_chiller) v :=
  let (a1, a2, a3, a4, a5, a6, a7, a8, a9, a10, a11, _, a13, a14, a15, a16,
       a17, a18, a19, a20, a21, a22) := x in
  mk_chiller a1 a2 a3 a4 a5 a6 a7 a8 a9 a10 a11 v a13 a14 a15 a16 a17 a18
    a19 a20 a21 a22.
Definition set_grain_rate (x : t_chiller) v :=
  let (a1, a2, a3, a4, a5, a6, a7, a8, a9, a10, a11, a12, _, a14, a15, a16,
       a17, a18, a19, a20, a21, a22) := x in
  mk_chiller a1 a2 a3 a4 a5 a6 a7 a8 a9 a10 a11 a12 v a14 a15 a16 a17 a18
    a19 a20 a21 a22.
Definition set_phase_randomness (x : t_chiller) v :=
  let (a1, a2, a3, a4, a5, a6, a7, a8, a9, a10, a11, a12, a13, _, a15, a16,
       a17, a18, a19, a20, a21, a22) := x in
  mk_chiller a1 a2 a3 a4 a5 a6 a7 a8 a9 a10 a11 a12 a13 v a15 a16 a17 a18
    a19 a20 a21 a22.
Definition set_amplitude_variation (x : t_chiller) v :=
  let (a1, a2, a3, a4, a5, a6, a7, a8, a9, a10, a11, a12, a13, a14, _, a16,
       a17, a18, a19, a20, a21, a22) := x in
  mk_chiller a1 a2 a3 a4 a5 a6 a7 a8 a9 a10 a11 a12 a13 a14 v a16 a17 a18
    a19 a20 a21 a22.
Definition set_spectrum_captured (x : t_chiller) v :=
  let (a1, a2, a3, a4, a5, a6, a7, a8, a9, a10, a11, a12, a13, a14, a15, _,
       a17, a18, a19, a20, a21, a22) := x in
  mk_chiller a1 a2 a3 a4 a5 a6 a7 a8 a9 a10 a11 a12 a13 a14 a15 v a17 a18
    a19 a20 a21 a22.
Definition set_capturing_spectrum (x : t_chiller) v :=
  let (a1, a2, a3, a4, a5, a6, a7, a8, a9, a10, a11, a12, a13, a14, a15, a16,
       _, a18, a19, a20, a21, a22) := x in
  mk_chiller a1 a2 a3 a4 a5 a6 a7 a8 a9 a10 a11 a12 a13 a14 a15 a16 v a18
    a19 a20 a21 a22.
Definition set_hop_counter (x : t_chiller) v :=
  let (a1, a2, a3, a4, a5, a6, a7, a8, a9, a10, a11, a12, a13, a14, a15, a16,
       a17, a18, _, a20, a21, a22) := x in
  mk_chiller a1 a2 a3 a4 a5 a6 a7 a8 a9 a10 a11 a12 a13 a14 a15 a16 a17 a18
    v a20 a21 a22.
Definition set_sample_rate (x : t_chiller) v :=
  let (a1, a2, a3, a4, a5, a6, a7, a8, a9, a10, a11, a12, a13, a14, a15, a16,
       a17, a18, a19, _, a21, a22) := x in
  mk_chiller a1 a2 a3 a4 a5 a6 a7 a8 a9 a10 a11 a12 a13 a14 a15 a16 a17 a18
    a19 v a21 a22.
Definition set_last_position_change_time (x : t_chiller) v :=
  let (a1, a2, a3, a4, a5, a6, a7, a8, a9, a10, a11, a12, a13, a14, a15, a16,
       a17, a18, a19, a20, _, a22) := x in
  mk_chiller a1 a2 a3 a4 a5 a6 a7 a8 a9 a10 a11 a12 a13 a14 a15 a16 a17 a18
    a19 a20 v a22.
Definition set_rng (x : t_chiller) v :=
  let (a1, a2, a3, a4, a5, a6, a7, a8, a9, a10, a11, a12, a13, a14, a15, a16,
       a17, a18, a19, a20, a21, _) := x in
  mk_chiller a1 a2 a3 a4 a5 a6 a7 a8 a9 a10 a11 a12 a13 a14 a15 a16 a17 a18
    a19 a20 a21 v.

Definition vsize {A : Type} (v : list A) : Z := Z.of_nat (length v).

Definition is_null {A : Type} (p : option A) : bool :=
  match p with None => true | Some _ => false end.

(** ** Spectrum capture pipeline *)

(** [(long)(x->position * (buffer_frames - x->fft_size))].  The product is
    the exact one; the source casts the product rounded to binary64, which
    is the next integer when the exact product lies within rounding distance
    below it. *)
Definition start_frame (x : t_chiller) (buffer_frames : Z) : Z :=
  double_to_long (position x * IZR (buffer_frames - fft_size x)).

(** Body of the copy loop: one frame into [analysis_buffer[i]].  The sum of
    the two channels is the exact one; the source forms it in [float]. *)
Definition copy_sample (buffer_samples : list R) (buffer_channels start : Z)
  (i : Z) (ab : list R) : list R :=
  if (buffer_channels =? 1)%Z
  then vset ab i (vget 0 buffer_samples (start + i))
  else vset ab i ((vget 0 buffer_samples ((start + i) * 2)
                   + vget 0 buffer_samples ((start + i) * 2 + 1)) * 0.5).

Definition copy_segment (x : t_chiller) (buffer_samples : list R)
  (buffer_channels start : Z) : list R :=
  for_loop 0 (fft_size x) 1 (copy_sample buffer_samples buffer_channels start)
    (analysis_buffer x).

(** [fft_buffer[i] = complex(analysis_buffer[i], 0.0)] for every [i]. *)
Definition to_complex (ab : list R) (fb : list C) : list C :=
  for_loop 0 (vsize ab) 1 (fun i fb => vset fb i (vget 0 ab i, 0)) fb.

Definition spectrum_energy (fb : list C) : R :=
  for_loop 0 (vsize fb) 1
    (fun i e => let magnitude := Cabs (vget C0 fb i) in
                e + magnitude * magnitude)
    0.

Definition target_energy (n : Z) : R := IZR n * 0.1.

Definition normalize_spectrum (n : Z) (fb : list C) : list C :=
  let energy := spectrum_energy fb in
  if Rgt_dec energy 1e-10 then
    let normalization_factor := sqrt (target_energy n / energy) in
    for_loop 0 (vsize fb) 1
      (fun i fb => vset fb i (Cscale (vget C0 fb i) normalization_factor)) fb
  else fb.

(** [std::fill(v.begin(), v.end(), 0.0)]. *)
Definition fill_zero (v : list R) : list R := map (fun _ => 0) v.

(** The part of a capture that runs once the four checks have passed. *)
Definition capture_from (x : t_chiller) (buffer_samples : list R)
  (buffer_frames buffer_channels : Z) : t_chiller * list console_msg :=
  let start := start_frame x buffer_frames in
  let x := set_analysis_buffer x
             (copy_segment x buffer_samples buffer_channels start) in
  let x := set_analysis_buffer x
             (chiller_apply_window (analysis_buffer x) (window x)) in
  let x := set_fft_buffer x (to_complex (analysis_buffer x) (fft_buffer x)) in
  let x := set_fft_buffer x (chiller_fft (fft_buffer x)) in
  let x := set_fft_buffer x (normalize_spectrum (fft_size x) (fft_buffer x)) in
  let x := set_frozen_spectrum x (fft_buffer x) in
  let x := set_overlap_buffer_l x (fill_zero (overlap_buffer_l x)) in
  let x := set_overlap_buffer_r x (fill_zero (overlap_buffer_r x)) in
  let x := set_hop_counter x 0%Z in
  let x := set_spectrum_captured x true in
  let x := set_capturing_spectrum x false in
  (x, [object_post "Spectrum captured at position %.3f"]).

Definition chiller_capture_spectrum (h : host) (x : t_chiller)
  : t_chiller * list console_msg :=
  match buffer_ref x with
  | None => (x, [object_error "No buffer set"])
  | Some ref =>
    let x := set_capturing_spectrum x true in
    match buffer_ref_getobject h ref with
    | None =>
      (set_capturing_spectrum x false, [object_error "Buffer not found"])
    | Some buffer =>
      match buffer_locksamples buffer with
      | None =>
        (set_capturing_spectrum x false,
         [object_error "Could not access buffer data"])
      | Some buffer_samples =>
        let buffer_frames := buffer_getframecount buffer in
        let buffer_channels := buffer_getchannelcount buffer in
        if (buffer_frames <? fft_size x)%Z then
          (set_capturing_spectrum x false,
           [object_error "Buffer too small (need at least %ld samples)"])
        else capture_from x buffer_samples buffer_frames buffer_channels
      end
    end
  end.

(** ** Message handlers *)

Definition chiller_set_buffer (h : host) (x : t_chiller) (s : t_symbol)
  : t_chiller * list console_msg :=
  let x := set_buffer_name x s in
  let x := set_buffer_ref x (buffer_ref_new h s) in
  (set_spectrum_captured x false, []).

(** [current_time] is the reading of [systimer_gettime()]. *)
Definition chiller_set_position (h : host) (x : t_chiller)
  (current_time pos : R) : t_chiller * list console_msg :=
  let min_interval := 500 in
  if Rlt_dec (current_time - last_position_change_time x) min_interval
  then (x, [])
  else
    let x := set_position x (CLAMP pos 0 1) in
    let x := set_last_position_change_time x current_time in
    if negb (capturing_spectrum x)
    then chiller_capture_spectrum h (set_spectrum_captured x false)
    else (x, []).

Definition chiller_set_overlap (x : t_chiller) (overlap : R)
  : t_chiller * list console_msg :=
  (set_overlap_amount x (CLAMP overlap 1 8), []).

Definition chiller_set_rate (x : t_chiller) (rate : R)
  : t_chiller * list console_msg :=
  (set_grain_rate x (CLAMP rate 0.1 4), []).

Definition chiller_set_phase_rand (x : t_chiller) (rand_amount : R)
  : t_chiller * list console_msg :=
  (set_phase_randomness x (CLAMP rand_amount 0 1), []).

Definition chiller_set_amp_var (x : t_chiller) (var_amount : R)
  : t_chiller * list console_msg :=
  (set_amplitude_variation x (CLAMP var_amount 0 0.5), []).

Definition chiller_freeze (h : host) (x : t_chiller)
  : t_chiller * list console_msg :=
  chiller_capture_spectrum h x.

Definition chiller_notify (x : t_chiller) (msg : t_symbol) : t_chiller :=
  if String.eqb msg "globalsymbol_binding"
  then set_spectrum_captured x false
  else x.

Definition chiller_dsp64 (x : t_chiller) (samplerate : R) : t_chiller :=
  set_sample_rate x samplerate.

(** Diagnostic dump: it prints the engine state and assigns no field; the
    text it prints is not modelled. *)
Definition chiller_debug (x : t_chiller) : t_chiller := x.

(** ** Grain resynthesis and the audio callback *)

(** One bin of a grain; the state is [(rng, fft_buffer)]. *)
Definition grain_bin (x : t_chiller) (j : Z) (st : rng_state * list C)
  : rng_state * list C :=
  let '(g, fb) := st in
  let magnitude := Cabs (vget C0 (frozen_spectrum x) j) in
  let phase := Carg (vget C0 (frozen_spectrum x) j) in
  let '(p, g) := phase_dist g in
  let phase := phase + p * phase_randomness x in
  let '(a, g) := amp_dist g in
  let magnitude := magnitude * (1 + a * amplitude_variation x) in
  (g, vset fb j (Cpolar magnitude phase)).

(** Windowed overlap-add of sample [j]; the state is the two accumulators. *)
Definition overlap_add (fb : list C) (w : list R) (j : Z)
  (lr : list R * list R) : list R * list R :=
  let '(l, r) := lr in
  let sample := Cre (vget C0 fb j) * vget 0 w j in
  (vset l j (vget 0 l j + sample * 0.8), vset r j (vget 0 r j + sample * 1)).

Definition generate_grain (x : t_chiller) : t_chiller :=
  let '(g, fb) := for_loop 0 (vsize (frozen_spectrum x)) 1 (grain_bin x)
                    (rng x, fft_buffer x) in
  let x := set_rng (set_fft_buffer x fb) g in
  let x := set_fft_buffer x (chiller_ifft (fft_buffer x)) in
  let '(l, r) := for_loop 0 (vsize (fft_buffer x)) 1
                   (overlap_add (fft_buffer x) (window x))
                   (overlap_buffer_l x, overlap_buffer_r x) in
  set_overlap_buffer_r (set_overlap_buffer_l x l) r.

(** [hop_counter++] and the grain trigger.  The counter is compared with
    the exact quotient; the source compares it with the quotient rounded to
    binary64, which differs from it by less than one for the sizes and rates
    of [engine_ok]. *)
Definition hop_tick (x : t_chiller) : t_chiller :=
  let x := set_hop_counter x (hop_counter x + 1)%Z in
  if Rge_dec (IZR (hop_counter x)) (IZR (hop_size x) / grain_rate x)
  then generate_grain (set_hop_counter x 0%Z)
  else x.

(** The shift of both accumulators by one sample. *)
Definition shift_step (j : Z) (lr : list R * list R) : list R * list R :=
  let '(l, r) := lr in
  (vset l j (vget 0 l (j + 1)), vset r j (vget 0 r (j + 1))).

Definition shift_overlap (x : t_chiller) : t_chiller :=
  let '(l, r) := for_loop 0 (vsize (overlap_buffer_l x) - 1) 1 shift_step
                   (overlap_buffer_l x, overlap_buffer_r x) in
  let l := vset l (vsize l - 1) 0 in
  let r := vset r (vsize r - 1) 0 in
  set_overlap_buffer_r (set_overlap_buffer_l x l) r.

(** Output of sample [i] and the shift that follows it. *)
Definition emit_and_shift (i : Z) (st : t_chiller * (list R * list R))
  : t_chiller * (list R * list R) :=
  let '(x, (out_l, out_r)) := st in
  let out_l := vset out_l i (vget 0 (overlap_buffer_l x) 0 * 0.1) in
  let out_r := vset out_r i (vget 0 (overlap_buffer_r x) 0 * 0.1) in
  (shift_overlap x, (out_l, out_r)).

(** Body of the per-sample loop of the callback. *)
Definition sample_step (i : Z) (st : t_chiller * (list R * list R))
  : t_chiller * (list R * list R) :=
  let '(x, outs) := st in
  emit_and_shift i (hop_tick x, outs).

Definition silence_step (i : Z) (outs : list R * list R)
  : list R * list R :=
  let '(out_l, out_r) := outs in (vset out_l i 0, vset out_r i 0).

(** [outs] are the two output vectors of the host, with whatever they held
    before the call. *)
Definition chiller_perform64 (x : t_chiller) (outs : list R * list R)
  (sampleframes : Z) : t_chiller * (list R * list R) :=
  if negb (spectrum_captured x) || is_null (buffer_ref x)
  then (x, for_loop 0 sampleframes 1 silence_step outs)
  else for_loop 0 sampleframes 1 sample_step (x, outs).

(** ** Construction *)

Definition valid_fft_size (requested_size : Z) : bool :=
  (512 <=? requested_size)%Z && (requested_size <=? 8192)%Z
  && (Z.land requested_size (requested_size - 1) =? 0)%Z.

Definition parse_fft_size (argv : list t_atom) : Z * list console_msg :=
  match argv with
  | A_LONG requested_size :: _ =>
    if valid_fft_size requested_size then (requested_size, [])
    else (CHILLER_DEFAULT_FFT_SIZE,
          [object_error
             "FFT size must be power of 2 between 512 and 8192, using default %ld"])
  | _ => (CHILLER_DEFAULT_FFT_SIZE, [])
  end.

Definition vector {A : Type} (n : Z) (a : A) : list A := repeat a (Z.to_nat n).

Definition chiller_new (h : host) (argv : list t_atom)
  : t_chiller * list console_msg :=
  let '(n, msgs) := parse_fft_size argv in
  let x :=
    {| buffer_ref := None; buffer_name := ""%string;
       frozen_spectrum := vector n C0;
       window := chiller_generate_window (vector n 0) n;
       overlap_buffer_l := vector n 0; overlap_buffer_r := vector n 0;
       fft_buffer := vector n C0; analysis_buffer := vector n 0;
       fft_size := n; hop_size := (n / 4)%Z;
       position := 0.5; overlap_amount := 4; grain_rate := 1;
       phase_randomness := 0.1; amplitude_variation := 0.1;
       spectrum_captured := false; capturing_spectrum := false;
       grain_counter := 0%Z; hop_counter := 0%Z; sample_rate := 44100;
       last_position_change_time := 0; rng := rng_seed |} in
  let x :=
    match argv with
    | _ :: A_SYM s :: _ => fst (chiller_set_buffer h x s)
    | A_SYM s :: _ => fst (chiller_set_buffer h x s)
    | _ => x
    end in
  (x, msgs ++ [object_post "chiller~ initialized with FFT size %ld"]).

(** ** Commands *)

Inductive command : Type :=
| cmd_set (s : t_symbol)
| cmd_position (current_time pos : R)
| cmd_overlap (overlap : R)
| cmd_rate (rate : R)
| cmd_phaserand (rand_amount : R)
| cmd_ampvar (var_amount : R)
| cmd_freeze
| cmd_bang
| cmd_notify (msg : t_symbol)
| cmd_dsp64 (samplerate : R).

(** Dispatch of one message, as registered in [ext_main]. *)
Definition dispatch (h : host) (x : t_chiller) (c : command) : t_chiller :=
  match c with
  | cmd_set s => fst (chiller_set_buffer h x s)
  | cmd_position t pos => fst (chiller_set_position h x t pos)
  | cmd_overlap v => fst (chiller_set_overlap x v)
  | cmd_rate v => fst (chiller_set_rate x v)
  | cmd_phaserand v => fst (chiller_set_phase_rand x v)
  | cmd_ampvar v => fst (chiller_set_amp_var x v)
  | cmd_freeze => fst (chiller_freeze h x)
  | cmd_bang => chiller_debug x
  | cmd_notify msg => chiller_notify x msg
  | cmd_dsp64 sr => chiller_dsp64 x sr
  end.

End Engine.

Unset Implicit Arguments.

(** ** Vocabulary of the specification *)

(** Sums of [n] terms [f 0 + ... + f (n - 1)]. *)
Fixpoint Rsum (n : nat) (f : Z -> R) : R :=
  match n with
  | O => 0
  | S k => Rsum k f + f (Z.of_nat k)
  end.

Fixpoint Csum (n : nat) (f : Z -> C) : C :=
  match n with
  | O => C0
  | S k => Cadd (Csum k f) (f (Z.of_nat k))
  end.

(** The point of the unit circle at angle [t], and powers of a complex. *)
Definition cis (t : R) : C := (cos t, sin t).

Fixpoint Cpow (z : C) (k : nat) : C :=
  match k with
  | O => C1
  | S k' => Cmul (Cpow z k') z
  end.

(** The [p]-bit number [m] with its bits in the opposite order. *)
Fixpoint bitrev (p : nat) (m : Z) : Z :=
  match p with
  | O => 0%Z
  | S q => ((m mod 2) * 2 ^ Z.of_nat q + bitrev q (m / 2))%Z
  end.

(** The discrete Fourier transform with kernel exp (+ 2 PI i m k / n), the
    sign [chiller_fft] uses, and the one with the conjugate kernel. *)
Definition dft (x : list C) (k : Z) : C :=
  Csum (length x)
    (fun m => Cmul (vget C0 x m) (cis (2 * PI * IZR (m * k) / INR (length x)))).

Definition dft_conj (x : list C) (k : Z) : C :=
  Csum (length x)
    (fun m =>
       Cmul (vget C0 x m) (Cconj (cis (2 * PI * IZR (m * k) / INR (length x))))).

Definition Copp (z : C) : C := (- fst z, - snd z).

(** The transform of length [2 ^ s] that block [b] holds after [s] stages:
    it reads the reordered input [a0] inside the block, in reversed order. *)
Definition sub_dft (a0 : list C) (s : nat) (b k : Z) : C :=
  Csum (2 ^ s)
    (fun m =>
       Cmul (vget C0 a0 (b * 2 ^ Z.of_nat s + bitrev s m))
            (cis (2 * PI * IZR (m * k) / IZR (2 ^ Z.of_nat s)))).

(** What the transform workspace holds after [s] stages on the reordered
    input [a0]: every block of [2 ^ s] entries is a transform of that
    length. *)
Definition stage_inv (a0 : list C) (s : nat) (cur : list C) : Prop :=
  length cur = length a0 /\
  forall b k, (0 <= b)%Z -> (0 <= k < 2 ^ Z.of_nat s)%Z ->
              ((b + 1) * 2 ^ Z.of_nat s <= vsize a0)%Z ->
              vget C0 cur (b * 2 ^ Z.of_nat s + k) = sub_dft a0 s b k.

(** Squared magnitude of a bin. *)
Definition Cnorm2 (z : C) : R := fst z * fst z + snd z * snd z.

Section Vocabulary.

Variable rng_state : Type.
Variable phase_dist : rng_state -> R * rng_state.
Variable amp_dist : rng_state -> R * rng_state.

(** The four ways a capture request fails. *)
Inductive capture_failure (h : host) (x : t_chiller rng_state) : Prop :=
| no_source_bound :
    buffer_ref x = None -> capture_failure h x
| source_not_resolvable ref :
    buffer_ref x = Some ref -> buffer_ref_getobject h ref = None ->
    capture_failure h x
| samples_inaccessible ref buffer :
    buffer_ref x = Some ref -> buffer_ref_getobject h ref = Some buffer ->
    buffer_locksamples buffer = None -> capture_failure h x
| source_too_small ref buffer buffer_samples :
    buffer_ref x = Some ref -> buffer_ref_getobject h ref = Some buffer ->
    buffer_locksamples buffer = Some buffer_samples ->
    (buffer_getframecount buffer < fft_size x)%Z -> capture_failure h x.

(** A capture request passes its four checks. *)
Definition capture_succeeds (h : host) (x : t_chiller rng_state) : bool :=
  match buffer_ref x with
  | None => false
  | Some ref =>
    match buffer_ref_getobject h ref with
    | None => false
    | Some buffer =>
      match buffer_locksamples buffer with
      | None => false
      | Some _ => negb (buffer_getframecount buffer <? fft_size x)%Z
      end
    end
  end.

(** The message [c], received in state [x], runs a capture. *)
Definition requests_capture (x : t_chiller rng_state) (c : command) : bool :=
  match c with
  | cmd_freeze => true
  | cmd_position t _ =>
    (if Rlt_dec (t - last_position_change_time x) 500 then false else true)
    && negb (capturing_spectrum x)
  | _ => false
  end.

(** What happens to an engine: a message, with the buffers of the host at
    that time, or an audio block. *)
Inductive event : Type :=
| ev_message (h : host) (c : command)
| ev_audio (outs : list R * list R) (sampleframes : Z).

Definition step (x : t_chiller rng_state) (e : event) : t_chiller rng_state :=
  match e with
  | ev_message h c => dispatch h x c
  | ev_audio outs n => fst (chiller_perform64 phase_dist amp_dist x outs n)
  end.

Definition run (x : t_chiller rng_state) (tr : list event)
  : t_chiller rng_state :=
  fold_left step tr x.

(** No event of the trace, run from [x], is a capture that succeeds. *)
Fixpoint no_successful_capture (x : t_chiller rng_state) (tr : list event)
  : Prop :=
  match tr with
  | [] => True
  | e :: tr' =>
    match e with
    | ev_message h c => requests_capture x c && capture_succeeds h x = false
    | ev_audio _ _ => True
    end /\ no_successful_capture (step x e) tr'
  end.

(** The source a capture reads, when its four checks pass: the locked
    samples, the frame count and the channel count. *)
Definition capture_source (h : host) (x : t_chiller rng_state)
  : option (list R * Z * Z) :=
  match buffer_ref x with
  | None => None
  | Some ref =>
    match buffer_ref_getobject h ref with
    | None => None
    | Some buffer =>
      match buffer_locksamples buffer with
      | None => None
      | Some buffer_samples =>
        if (buffer_getframecount buffer <? fft_size x)%Z then None
        else Some (buffer_samples, buffer_getframecount buffer,
                   buffer_getchannelcount buffer)
      end
    end
  end.

(** The segment copied by a capture, and its spectrum as [chiller_fft]
    leaves it, before normalization. *)
Definition captured_segment (x : t_chiller rng_state) (samples : list R)
  (frames channels : Z) : list R :=
  copy_segment x samples channels (start_frame x frames).

Definition analysis_spectrum (x : t_chiller rng_state) (samples : list R)
  (frames channels : Z) : list C :=
  chiller_fft
    (to_complex
       (chiller_apply_window (captured_segment x samples frames channels)
          (window x))
       (fft_buffer x)).

(** Every field but the four synthesis parameters agrees. *)
Definition same_engine_state (x y : t_chiller rng_state) : Prop :=
  buffer_ref y = buffer_ref x /\ buffer_name y = buffer_name x /\
  frozen_spectrum y = frozen_spectrum x /\ window y = window x /\
  overlap_buffer_l y = overlap_buffer_l x /\
  overlap_buffer_r y = overlap_buffer_r x /\
  fft_buffer y = fft_buffer x /\ analysis_buffer y = analysis_buffer x /\
  fft_size y = fft_size x /\ hop_size y = hop_size x /\
  position y = position x /\
  spectrum_captured y = spectrum_captured x /\
  capturing_spectrum y = capturing_spectrum x /\
  grain_counter y = grain_counter x /\ hop_counter y = hop_counter x /\
  sample_rate y = sample_rate x /\
  last_position_change_time y = last_position_change_time x /\
  rng y = rng x.

(** What the constructor establishes and every message and audio block
    keeps: a power-of-two FFT size in range, all vectors of that size,
    parameters inside their ranges, a bounded hop counter, and no capture
    in progress between two events. *)
Definition engine_ok (x : t_chiller rng_state) : Prop :=
  (exists p : nat, (9 <= p <= 13)%nat /\ fft_size x = (2 ^ Z.of_nat p)%Z) /\
  hop_size x = (fft_size x / 4)%Z /\
  (vsize (frozen_spectrum x) = fft_size x /\ vsize (window x) = fft_size x /\
   vsize (overlap_buffer_l x) = fft_size x /\
   vsize (overlap_buffer_r x) = fft_size x /\
   vsize (fft_buffer x) = fft_size x /\
   vsize (analysis_buffer x) = fft_size x) /\
  (0 <= position x <= 1 /\ 1 <= overlap_amount x <= 8 /\
   0.1 <= grain_rate x <= 4 /\ 0 <= phase_randomness x <= 1 /\
   0 <= amplitude_variation x <= 0.5) /\
  (0 <= hop_counter x <= 20480)%Z /\
  capturing_spectrum x = false.

(** What is fixed when the engine is created. *)
Definition configuration (x : t_chiller rng_state) : Z * Z * list R * Z :=
  (fft_size x, hop_size x, window x, grain_counter x).

(** The fields the audio callback has no business writing: binding, frozen
    spectrum, window, analysis buffer, sizes, parameters, flags, timestamp. *)
Definition control_view (x : t_chiller rng_state) :=
  (buffer_ref x, buffer_name x, frozen_spectrum x, window x,
   analysis_buffer x, fft_size x, hop_size x, position x, overlap_amount x,
   grain_rate x, phase_randomness x, amplitude_variation x,
   spectrum_captured x, capturing_spectrum x, grain_counter x, sample_rate x,
   last_position_change_time x).

(** An engine that holds nothing to play: the frozen spectrum and both
    accumulators are zero. *)
Definition holds_silence (x : t_chiller rng_state) : Prop :=
  frozen_spectrum x = repeat C0 (Z.to_nat (fft_size x)) /\
  fill_zero (overlap_buffer_l x) = overlap_buffer_l x /\
  fill_zero (overlap_buffer_r x) = overlap_buffer_r x.

(** What a capture reads of the engine besides the source, together with the
    fields it passes on untouched. *)
Definition capture_view (x : t_chiller rng_state) :=
  (buffer_ref x, buffer_name x, window x, fft_size x, hop_size x, position x,
   overlap_amount x, grain_rate x, phase_randomness x, amplitude_variation x,
   grain_counter x, sample_rate x, last_position_change_time x, rng x).

(** The fields the audio callback reads or writes. *)
Definition audio_view (x : t_chiller rng_state) :=
  (frozen_spectrum x, window x, overlap_buffer_l x, overlap_buffer_r x,
   fft_buffer x, hop_size x, grain_rate x, phase_randomness x,
   amplitude_variation x, spectrum_captured x, is_null (buffer_ref x),
   hop_counter x, rng x).

End Vocabulary.

Arguments capture_source {rng_state}.
Arguments captured_segment {rng_state}.
Arguments analysis_spectrum {rng_state}.
Arguments capture_failure {rng_state}.
Arguments capture_succeeds {rng_state}.
Arguments requests_capture {rng_state}.
Arguments step {rng_state}.
Arguments run {rng_state}.
Arguments no_successful_capture {rng_state}.
Arguments same_engine_state {rng_state}.
Arguments engine_ok {rng_state}.
Arguments configuration {rng_state}.
Arguments audio_view {rng_state}.
Arguments control_view {rng_state}.
Arguments capture_view {rng_state}.
Arguments holds_silence {rng_state}.

(** ** A concrete scenario

    A host with one mono buffer ["loop"] of 1024 frames, and a generator
    that always draws 0. *)

Definition demo_buffer : t_buffer_obj :=
  {| buffer_locksamples := Some (repeat 0.5 1024);
     buffer_getframecount := 1024;
     buffer_getchannelcount := 1 |}.

Definition demo_host : host :=
  {| buffer_ref_new := fun s => Some {| ref_name := s |};
     buffer_ref_getobject := fun r =>
       if String.eqb (ref_name r) "loop"%string then Some demo_buffer else None |}.

Definition demo_draw (g : unit) : R * unit := (0, g).

(** The engine right after [chiller~ 512] was created. *)
Definition demo_engine : t_chiller unit :=
  fst (chiller_new tt demo_host [A_LONG 512]).

(** The same engine once the message [set loop] was received. *)
Definition demo_bound : t_chiller unit :=
  fst (chiller_set_buffer demo_host demo_engine "loop"%string).

(** ... and once [freeze] captured a spectrum from it. *)
Definition demo_frozen : t_chiller unit :=
  fst (chiller_freeze demo_host demo_bound).

(** The frozen engine in the middle of playback: the accumulators hold what
    is left of a grain. *)
Definition demo_playing : t_chiller unit :=
  set_overlap_buffer_r
    (set_overlap_buffer_l demo_frozen (3 :: 5 :: 7 :: repeat 0 509))
    (2 :: 4 :: 6 :: repeat 0 509).

(** The engine bound to a name the host does not know. *)
Definition demo_unresolved : t_chiller unit :=
  fst (chiller_set_buffer demo_host demo_engine "nowhere"%string).

(** A host whose buffer ["quiet"] holds 1024 frames of two channels, all
    0, and an engine bound to it. *)
Definition quiet_host : host :=
  {| buffer_ref_new := fun s => Some {| ref_name := s |};
     buffer_ref_getobject := fun r =>
       if String.eqb (ref_name r) "quiet"%string
       then Some {| buffer_locksamples := Some (repeat 0 2048);
                    buffer_getframecount := 1024;
                    buffer_getchannelcount := 2 |}
       else None |}.

Definition quiet_bound : t_chiller unit :=
  fst (chiller_set_buffer quiet_host
         (fst (chiller_new tt quiet_host [A_LONG 512])) "quiet"%string).

(** ... once [freeze] captured its silence. *)
Definition quiet_frozen : t_chiller unit :=
  fst (chiller_freeze quiet_host quiet_bound).

(** The frozen engine after the host announced a change of its buffer. *)
Definition demo_notified : t_chiller unit :=
  chiller_notify demo_frozen "globalsymbol_binding"%string.

(** A freeze that cannot succeed, an audio block, a parameter change. *)
Definition demo_trace : list event :=
  [ev_message demo_host cmd_freeze;
   ev_audio ([1; 1], [1; 1]) 2;
   ev_message demo_host (cmd_overlap 3)].

(** * Verification *)

(** ** Vectors *)

Lemma upd_length {A : Type} (v : list A) (n : nat) (a : A) :
  length (upd v n a) = length v.
Proof.
  revert n; induction v as [|h t IH]; intros [|n]; simpl; auto.
Qed.

Lemma nth_upd_same {A : Type} (v : list A) (n : nat) (a d : A) :
  (n < length v)%nat -> nth n (upd v n a) d = a.
Proof.
  revert n; induction v as [|h t IH]; intros [|n] Hn; simpl in *;
    try lia; auto.
  apply IH; lia.
Qed.

Lemma nth_upd_other {A : Type} (v : list A) (n m : nat) (a d : A) :
  n <> m -> nth m (upd v n a) d = nth m v d.
Proof.
  revert n m; induction v as [|h t IH]; intros [|n] [|m] Hnm; simpl;
    try congruence; auto.
Qed.

Lemma vset_length {A : Type} (v : list A) (i : Z) (a : A) :
  length (vset v i a) = length v.
Proof.
  unfold vset; destruct (i <? 0)%Z; auto using upd_length.
Qed.

Lemma vsize_vset {A : Type} (v : list A) (i : Z) (a : A) :
  vsize (vset v i a) = vsize v.
Proof. unfold vsize; now rewrite vset_length. Qed.

Lemma vget_vset_same {A : Type} (v : list A) (i : Z) (a d : A) :
  (0 <= i < vsize v)%Z -> vget d (vset v i a) i = a.
Proof.
  unfold vget, vset, vsize; intros Hi.
  destruct (Z.ltb_spec i 0); [lia|].
  apply nth_upd_same; lia.
Qed.

Lemma vget_vset_other {A : Type} (v : list A) (i j : Z) (a d : A) :
  (0 <= j)%Z -> i <> j -> vget d (vset v i a) j = vget d v j.
Proof.
  unfold vget, vset; intros Hj Hij.
  destruct (Z.ltb_spec i 0); [reflexivity|].
  apply nth_upd_other; lia.
Qed.

Lemma vget_vset {A : Type} (v : list A) (i j : Z) (a d : A) :
  (0 <= i < vsize v)%Z -> (0 <= j)%Z ->
  vget d (vset v i a) j = if (i =? j)%Z then a else vget d v j.
Proof.
  intros Hi Hj; destruct (Z.eqb_spec i j) as [->|Hne].
  - now apply vget_vset_same.
  - now apply vget_vset_other.
Qed.

(** Two vectors of the same size with the same entries are equal. *)
Lemma vget_ext {A : Type} (d : A) (u v : list A) :
  length u = length v ->
  (forall i, (0 <= i < vsize u)%Z -> vget d u i = vget d v i) -> u = v.
Proof.
  intros Hlen H; apply (nth_ext u v d d Hlen).
  intros n Hn; specialize (H (Z.of_nat n)).
  unfold vget, vsize in H; rewrite Nat2Z.id in H; apply H; lia.
Qed.

(** ** Loops *)

Lemma for_count_ind {St : Type} (body : Z -> St -> St) (step : Z) (k : nat) :
  forall (P : nat -> St -> Prop) (lo : Z) (s : St),
    P 0%nat s ->
    (forall j t, (j < k)%nat -> P j t ->
                 P (S j) (body (lo + Z.of_nat j * step)%Z t)) ->
    P k (for_count k lo step body s).
Proof.
  induction k as [|k IH]; intros P lo s H0 Hstep; simpl; [exact H0|].
  apply (IH (fun j t => P (S j) t) (lo + step)%Z (body lo s)).
  - replace lo with (lo + Z.of_nat 0 * step)%Z at 1 by (simpl; lia).
    apply Hstep; [lia | exact H0].
  - intros j t Hj Hp.
    replace (lo + step + Z.of_nat j * step)%Z
      with (lo + Z.of_nat (S j) * step)%Z by lia.
    apply Hstep; [lia | exact Hp].
Qed.

(** Invariant rule for [for (i = lo; i < hi; i++)]. *)
Lemma for_loop_ind {St : Type} (P : Z -> St -> Prop) (body : Z -> St -> St)
  (lo hi : Z) (s : St) :
  (lo <= hi)%Z ->
  P lo s ->
  (forall i t, (lo <= i < hi)%Z -> P i t -> P (i + 1)%Z (body i t)) ->
  P hi (for_loop lo hi 1 body s).
Proof.
  intros Hle H0 Hstep; unfold for_loop.
  replace ((hi - lo + 1 - 1) / 1)%Z with (hi - lo)%Z
    by (rewrite Z.div_1_r; lia).
  replace hi with (lo + Z.of_nat (Z.to_nat (hi - lo)))%Z at 1 by lia.
  apply for_count_ind with (P := fun j t => P (lo + Z.of_nat j)%Z t).
  - now replace (lo + Z.of_nat 0)%Z with lo by (simpl; lia).
  - intros j t Hj Hp.
    replace (lo + Z.of_nat (S j))%Z with (lo + Z.of_nat j + 1)%Z by lia.
    replace (lo + Z.of_nat j * 1)%Z with (lo + Z.of_nat j)%Z by lia.
    apply Hstep; [lia | exact Hp].
Qed.

Lemma for_loop_empty {St : Type} (body : Z -> St -> St) (lo hi : Z) (s : St) :
  (hi <= lo)%Z -> for_loop lo hi 1 body s = s.
Proof.
  intros Hle; unfold for_loop.
  replace ((hi - lo + 1 - 1) / 1)%Z with (hi - lo)%Z
    by (rewrite Z.div_1_r; lia).
  now replace (Z.to_nat (hi - lo)) with 0%nat by lia.
Qed.

(** Invariant rule for [for (i = 0; i < m * len; i += len)], on the block
    number. *)
Lemma for_loop_blocks_ind {St : Type} (P : Z -> St -> Prop)
  (body : Z -> St -> St) (m len : Z) (s : St) :
  (0 <= m)%Z -> (0 < len)%Z ->
  P 0%Z s ->
  (forall b t, (0 <= b < m)%Z -> P b t -> P (b + 1)%Z (body (b * len)%Z t)) ->
  P m (for_loop 0 (m * len) len body s).
Proof.
  intros Hm Hlen H0 Hstep; unfold for_loop.
  replace ((m * len - 0 + len - 1) / len)%Z with m.
  2:{ replace (m * len - 0 + len - 1)%Z with ((len - 1) + m * len)%Z by lia.
      rewrite Z.div_add by lia. rewrite Z.div_small; lia. }
  replace m with (Z.of_nat (Z.to_nat m)) at 1 by lia.
  apply for_count_ind with (P := fun j t => P (Z.of_nat j) t).
  - exact H0.
  - intros j t Hj Hp.
    replace (Z.of_nat (S j)) with (Z.of_nat j + 1)%Z by lia.
    replace (0 + Z.of_nat j * len)%Z with (Z.of_nat j * len)%Z by lia.
    apply Hstep; [lia | exact Hp].
Qed.

(** ** Parameter clamping *)

Lemma CLAMP_range (a lo hi : R) : lo <= hi -> lo <= CLAMP a lo hi <= hi.
Proof.
  intros Hle; unfold CLAMP.
  destruct (Rgt_dec a lo); [destruct (Rlt_dec a hi)|]; lra.
Qed.

Lemma CLAMP_inside (a lo hi : R) : lo <= a <= hi -> CLAMP a lo hi = a.
Proof.
  intros [H1 H2]; unfold CLAMP.
  destruct (Rgt_dec a lo); [destruct (Rlt_dec a hi)|]; lra.
Qed.

Section EngineFacts.

Context {rng_state : Type}.

Implicit Types x y : t_chiller rng_state.

(** Assigning a flag back to the value it had gives the engine back. *)
Lemma capturing_restore x :
  capturing_spectrum x = false ->
  set_capturing_spectrum (set_capturing_spectrum x true) false = x.
Proof. destruct x; simpl; intros ->; reflexivity. Qed.

(** ** The audio callback without a captured spectrum *)

Lemma silence_loop (out_l out_r : list R) (n : Z) :
  forall l r, for_loop 0 n 1 silence_step (out_l, out_r) = (l, r) ->
  length l = length out_l /\ length r = length out_r /\
  (forall i, (0 <= i)%Z ->
     vget 0 l i = (if (i <? n)%Z then 0 else vget 0 out_l i) /\
     vget 0 r i = (if (i <? n)%Z then 0 else vget 0 out_r i)).
Proof.
  destruct (Z.le_gt_cases n 0) as [Hn|Hn].
  - rewrite for_loop_empty by lia. intros l r [= <- <-].
    repeat split; auto; destruct (Z.ltb_spec i n); auto; lia.
  - set (P := fun (k : Z) (st : list R * list R) =>
        length (fst st) = length out_l /\ length (snd st) = length out_r /\
        forall i, (0 <= i)%Z ->
          vget 0 (fst st) i = (if (i <? k)%Z then 0 else vget 0 out_l i) /\
          vget 0 (snd st) i = (if (i <? k)%Z then 0 else vget 0 out_r i)).
    assert (HP : P n (for_loop 0 n 1 silence_step (out_l, out_r))).
    { apply for_loop_ind; [lia| |].
      - unfold P; simpl; repeat split; auto;
          destruct (Z.ltb_spec i 0); auto; lia.
      - intros k [l r] Hk HP; unfold P in HP |- *; simpl in HP |- *.
        destruct HP as (Hl & Hr & Hget).
        rewrite !vset_length; repeat split; auto.
        + destruct (Z.eq_dec k i) as [->|Hne].
          * destruct (Z.ltb_spec i (i + 1)); [|lia].
            destruct (Z_lt_dec i (vsize l)).
            -- apply vget_vset_same; lia.
            -- unfold vget, vsize in *.
               rewrite nth_overflow; [reflexivity|rewrite vset_length; lia].
          * rewrite vget_vset_other by auto.
            destruct (Hget i H) as [-> _].
            destruct (Z.ltb_spec i k), (Z.ltb_spec i (k + 1)); auto; lia.
        + destruct (Z.eq_dec k i) as [->|Hne].
          * destruct (Z.ltb_spec i (i + 1)); [|lia].
            destruct (Z_lt_dec i (vsize r)).
            -- apply vget_vset_same; lia.
            -- unfold vget, vsize in *.
               rewrite nth_overflow; [reflexivity|rewrite vset_length; lia].
          * rewrite vget_vset_other by auto.
            destruct (Hget i H) as [_ ->].
            destruct (Z.ltb_spec i k), (Z.ltb_spec i (k + 1)); auto; lia. }
    intros l r E; rewrite E in HP; exact HP.
Qed.

Section Idle.

Variable phase_dist : rng_state -> R * rng_state.
Variable amp_dist : rng_state -> R * rng_state.

Lemma perform64_idle x (out_l out_r : list R) (sampleframes : Z) :
  spectrum_captured x = false \/ buffer_ref x = None ->
  exists l r,
    chiller_perform64 phase_dist amp_dist x (out_l, out_r) sampleframes
      = (x, (l, r)) /\
    length l = length out_l /\ length r = length out_r /\
    (forall i, (0 <= i < sampleframes)%Z ->
       vget 0 l i = 0 /\ vget 0 r i = 0) /\
    (forall i, (0 <= i)%Z -> (sampleframes <= i)%Z ->
       vget 0 l i = vget 0 out_l i /\ vget 0 r i = vget 0 out_r i).
Proof.
  intros Hsilent.
  assert (Hguard : negb (spectrum_captured x) || is_null (buffer_ref x) = true).
  { destruct Hsilent as [-> | ->]; simpl; auto using orb_true_r. }
  unfold chiller_perform64; rewrite Hguard.
  destruct (for_loop 0 sampleframes 1 silence_step (out_l, out_r))
    as [l r] eqn:E.
  destruct (silence_loop _ _ _ _ _ E) as (Hl & Hr & Hget).
  exists l, r; repeat split; auto.
  - destruct (Hget i) as [-> _]; [lia|].
    destruct (Z.ltb_spec i sampleframes); auto; lia.
  - destruct (Hget i) as [_ ->]; [lia|].
    destruct (Z.ltb_spec i sampleframes); auto; lia.
  - destruct (Hget i) as [-> _]; [lia|].
    destruct (Z.ltb_spec i sampleframes); auto; lia.
  - destruct (Hget i) as [_ ->]; [lia|].
    destruct (Z.ltb_spec i sampleframes); auto; lia.
Qed.

(** C3. When the audio callback runs while no spectrum is captured or no
    sample source is bound, the engine is returned as it was (accumulators,
    hop counter and every other field), and for any block size the first
    [sampleframes] entries of both outputs are exactly 0; the output vectors
    keep their size and their entries past the block. *)
Theorem perform64_silence x (out_l out_r : list R) (sampleframes : Z) :
  spectrum_captured x = false \/ buffer_ref x = None ->
  exists l r,
    chiller_perform64 phase_dist amp_dist x (out_l, out_r) sampleframes
      = (x, (l, r)) /\
    length l = length out_l /\ length r = length out_r /\
    (forall i, (0 <= i < sampleframes)%Z ->
       vget 0 l i = 0 /\ vget 0 r i = 0) /\
    (forall i, (0 <= i)%Z -> (sampleframes <= i)%Z ->
       vget 0 l i = vget 0 out_l i /\ vget 0 r i = vget 0 out_r i).
Proof. exact (perform64_idle x out_l out_r sampleframes). Qed.

End Idle.

(** ** Failed captures *)

(** C4. A capture request that fails for any of the four reasons (no source
    bound, source not resolvable, sample data inaccessible, fewer frames
    than the FFT size), in an engine that is not capturing, returns the
    engine exactly as it was: frozen spectrum, captured flag, accumulators,
    hop counter, position and parameters, and [capturing] false again.  It
    reports one error. *)
Theorem failed_capture_leaves_engine (h : host) x :
  capture_failure h x ->
  capturing_spectrum x = false ->
  fst (chiller_capture_spectrum h x) = x /\
  capturing_spectrum (fst (chiller_capture_spectrum h x)) = false /\
  exists e, snd (chiller_capture_spectrum h x) = [object_error e].
Proof.
  intros Hfail Hidle; unfold chiller_capture_spectrum.
  inversion Hfail as [E1 | ref E1 E2 | ref b E1 E2 E3 | ref b s E1 E2 E3 Hlt].
  - rewrite E1; simpl; eauto.
  - rewrite E1, E2; simpl; rewrite capturing_restore by assumption; eauto.
  - rewrite E1, E2, E3; simpl; rewrite capturing_restore by assumption; eauto.
  - rewrite E1, E2, E3.
    replace (fft_size (set_capturing_spectrum x true)) with (fft_size x)
      by (destruct x; reflexivity).
    destruct (Z.ltb_spec (buffer_getframecount b) (fft_size x)); [|lia].
    simpl; rewrite capturing_restore by assumption; eauto.
Qed.

(** ** What a capture never writes *)

Lemma capture_from_frame x (samples : list R) (frames channels : Z) :
  let y := fst (capture_from x samples frames channels) in
  position y = position x /\
  last_position_change_time y = last_position_change_time x /\
  overlap_amount y = overlap_amount x /\ grain_rate y = grain_rate x /\
  phase_randomness y = phase_randomness x /\
  amplitude_variation y = amplitude_variation x /\
  buffer_ref y = buffer_ref x /\ fft_size y = fft_size x /\
  spectrum_captured y = true /\ capturing_spectrum y = false.
Proof. destruct x; repeat split; reflexivity. Qed.

Lemma capture_frame (h : host) x :
  let y := fst (chiller_capture_spectrum h x) in
  position y = position x /\
  last_position_change_time y = last_position_change_time x /\
  overlap_amount y = overlap_amount x /\ grain_rate y = grain_rate x /\
  phase_randomness y = phase_randomness x /\
  amplitude_variation y = amplitude_variation x /\
  buffer_ref y = buffer_ref x /\ fft_size y = fft_size x.
Proof.
  unfold chiller_capture_spectrum.
  destruct (buffer_ref x) as [ref|] eqn:Eref; [|simpl; tauto].
  destruct (buffer_ref_getobject h ref) as [b|];
    [|destruct x; simpl in *; subst; tauto].
  destruct (buffer_locksamples b) as [s|];
    [|destruct x; simpl in *; subst; tauto].
  destruct (_ <? _)%Z; [destruct x; simpl in *; subst; tauto|].
  pose proof (capture_from_frame (set_capturing_spectrum x true) s
                (buffer_getframecount b) (buffer_getchannelcount b)) as H.
  cbv zeta in H.
  destruct H as (H1 & H2 & H3 & H4 & H5 & H6 & H7 & H8 & _).
  rewrite H1, H2, H3, H4, H5, H6, H7, H8.
  destruct x; simpl in *; subst; tauto.
Qed.

(** A capture that does not pass its checks leaves [captured] as it was. *)
Lemma capture_keeps_captured (h : host) x :
  capture_succeeds h x = false ->
  spectrum_captured (fst (chiller_capture_spectrum h x)) = spectrum_captured x.
Proof.
  unfold capture_succeeds, chiller_capture_spectrum.
  destruct (buffer_ref x) as [ref|]; [|reflexivity].
  destruct (buffer_ref_getobject h ref) as [b|];
    [|destruct x; reflexivity].
  destruct (buffer_locksamples b) as [s|]; [|destruct x; reflexivity].
  replace (fft_size (set_capturing_spectrum x true)) with (fft_size x)
    by (destruct x; reflexivity).
  destruct (_ <? _)%Z; [destruct x; reflexivity | discriminate].
Qed.

(** ** Position changes *)

(** C5. A position request that arrives less than 500 ms after the last
    accepted change is dropped: the engine (position and timestamp included)
    is returned as it was, nothing is printed and no capture runs.  A request
    that arrives 500 ms or more after it is accepted: the clamped position is
    stored and the timestamp becomes the arrival time.  So of two requests
    less than 500 ms apart, the first being accepted, the second changes
    nothing. *)
Theorem position_debounce (h h' : host) x (t pos t' pos' : R) :
  (t - last_position_change_time x < 500 ->
   chiller_set_position h x t pos = (x, [])) /\
  (500 <= t - last_position_change_time x ->
   let y := fst (chiller_set_position h x t pos) in
   position y = CLAMP pos 0 1 /\ 0 <= position y <= 1 /\
   last_position_change_time y = t /\
   (t' - t < 500 -> chiller_set_position h' y t' pos' = (y, []))).
Proof.
  split.
  - intros Hsoon; unfold chiller_set_position.
    destruct (Rlt_dec _ _); [reflexivity | contradiction].
  - intros Hlate.
    assert (Hy : position (fst (chiller_set_position h x t pos))
                 = CLAMP pos 0 1 /\
                 last_position_change_time
                   (fst (chiller_set_position h x t pos)) = t).
    { unfold chiller_set_position.
      destruct (Rlt_dec _ _) as [Hlt|_]; [lra|].
      destruct (negb _).
      - destruct (capture_frame h
          (set_spectrum_captured
             (set_last_position_change_time
                (set_position x (CLAMP pos 0 1)) t) false))
          as (-> & -> & _).
        destruct x; split; reflexivity.
      - destruct x; split; reflexivity. }
    destruct Hy as [Hpos Htime]; cbv zeta.
    rewrite Hpos; repeat split; try apply CLAMP_range; try lra; auto.
    intros Hsoon; unfold chiller_set_position at 1.
    rewrite Htime; destruct (Rlt_dec _ _); [reflexivity | contradiction].
Qed.

(** ** Parameter setters *)

(** C10. The overlap, rate, phase-randomness and amplitude-variation setters
    store the clamped value in their own field and change nothing else:
    frozen spectrum, both flags, hop counter, accumulators, position and
    timestamp are as before, the other three parameters too, and nothing is
    printed, so no capture ran. *)
Theorem parameter_setters_frame x (v : R) :
  (let y := fst (chiller_set_overlap x v) in
   same_engine_state x y /\ overlap_amount y = CLAMP v 1 8 /\
   1 <= overlap_amount y <= 8 /\ grain_rate y = grain_rate x /\
   phase_randomness y = phase_randomness x /\
   amplitude_variation y = amplitude_variation x /\
   snd (chiller_set_overlap x v) = []) /\
  (let y := fst (chiller_set_rate x v) in
   same_engine_state x y /\ grain_rate y = CLAMP v 0.1 4 /\
   0.1 <= grain_rate y <= 4 /\ overlap_amount y = overlap_amount x /\
   phase_randomness y = phase_randomness x /\
   amplitude_variation y = amplitude_variation x /\
   snd (chiller_set_rate x v) = []) /\
  (let y := fst (chiller_set_phase_rand x v) in
   same_engine_state x y /\ phase_randomness y = CLAMP v 0 1 /\
   0 <= phase_randomness y <= 1 /\ overlap_amount y = overlap_amount x /\
   grain_rate y = grain_rate x /\
   amplitude_variation y = amplitude_variation x /\
   snd (chiller_set_phase_rand x v) = []) /\
  (let y := fst (chiller_set_amp_var x v) in
   same_engine_state x y /\ amplitude_variation y = CLAMP v 0 0.5 /\
   0 <= amplitude_variation y <= 0.5 /\ overlap_amount y = overlap_amount x /\
   grain_rate y = grain_rate x /\
   phase_randomness y = phase_randomness x /\
   snd (chiller_set_amp_var x v) = []).
Proof.
  destruct x; unfold same_engine_state; cbn.
  repeat match goal with
         | |- _ /\ _ => split
         | |- _ <= CLAMP _ _ _ => apply CLAMP_range; lra
         | |- CLAMP _ _ _ <= _ => apply CLAMP_range; lra
         | |- _ = _ => reflexivity
         end.
Qed.

(** ** Binding a sample source *)

Lemma capture_succeeds_frame (h : host) x y :
  buffer_ref y = buffer_ref x -> fft_size y = fft_size x ->
  capture_succeeds h y = capture_succeeds h x.
Proof. unfold capture_succeeds; intros -> ->; reflexivity. Qed.

(** A message that is not a successful capture cannot set [captured]. *)
Lemma dispatch_keeps_uncaptured (h : host) x (c : command) :
  spectrum_captured x = false ->
  requests_capture x c && capture_succeeds h x = false ->
  spectrum_captured (dispatch h x c) = false.
Proof.
  intros Hunc Hno; destruct c; simpl in *;
    try (destruct x; simpl in *; assumption || reflexivity).
  - (* position *)
    unfold chiller_set_position.
    destruct (Rlt_dec _ _); [assumption|].
    replace (capturing_spectrum
               (set_last_position_change_time
                  (set_position x (CLAMP pos 0 1)) current_time))
      with (capturing_spectrum x) by (destruct x; reflexivity).
    destruct (capturing_spectrum x); simpl in *.
    + destruct x; simpl in *; assumption.
    + rewrite capture_keeps_captured; [destruct x; reflexivity|].
      rewrite <- Hno; apply capture_succeeds_frame; destruct x; reflexivity.
  - (* freeze *)
    unfold chiller_freeze; rewrite capture_keeps_captured; assumption.
  - (* notify *)
    unfold chiller_notify; destruct (String.eqb _ _);
      [destruct x; reflexivity | assumption].
Qed.

Section Binding.

Variable phase_dist : rng_state -> R * rng_state.
Variable amp_dist : rng_state -> R * rng_state.

Lemma step_keeps_uncaptured x (e : event) :
  spectrum_captured x = false ->
  match e with
  | ev_message h c => requests_capture x c && capture_succeeds h x = false
  | ev_audio _ _ => True
  end ->
  spectrum_captured (step phase_dist amp_dist x e) = false.
Proof.
  intros Hunc Hno; destruct e as [h c | [out_l out_r] n]; simpl.
  - now apply dispatch_keeps_uncaptured.
  - destruct (perform64_idle phase_dist amp_dist x out_l out_r n
                (or_introl Hunc))
      as (l & r & -> & _); exact Hunc.
Qed.

Lemma run_keeps_uncaptured (tr : list event) :
  forall x, spectrum_captured x = false ->
            no_successful_capture phase_dist amp_dist x tr ->
            spectrum_captured (run phase_dist amp_dist x tr) = false.
Proof.
  induction tr as [|e tr IH]; intros x Hunc Hno; simpl in *; [exact Hunc|].
  destruct Hno as [He Htr].
  apply IH; [apply step_keeps_uncaptured|]; assumption.
Qed.

(** C9. The set-buffer command always clears [captured], whatever the name
    (bound before, or not resolvable on the host) and stores the new
    reference; position, the four parameters, both accumulators, the hop
    counter and the frozen spectrum are not written.  From then on, through
    any messages and audio blocks among which no capture succeeds, every
    audio block is silent and leaves the engine as it is: it writes 0 to the
    first [sampleframes] entries of both outputs, which keep their size and
    their entries past the block. *)
Theorem set_buffer_silences (h : host) x (s : t_symbol) :
  let y := fst (chiller_set_buffer h x s) in
  spectrum_captured y = false /\
  buffer_name y = s /\ buffer_ref y = buffer_ref_new h s /\
  position y = position x /\ overlap_amount y = overlap_amount x /\
  grain_rate y = grain_rate x /\ phase_randomness y = phase_randomness x /\
  amplitude_variation y = amplitude_variation x /\
  overlap_buffer_l y = overlap_buffer_l x /\
  overlap_buffer_r y = overlap_buffer_r x /\
  hop_counter y = hop_counter x /\ frozen_spectrum y = frozen_spectrum x /\
  forall tr : list event,
    no_successful_capture phase_dist amp_dist y tr ->
    forall (out_l out_r : list R) (sampleframes : Z),
    exists l r,
      chiller_perform64 phase_dist amp_dist (run phase_dist amp_dist y tr)
        (out_l, out_r) sampleframes
      = (run phase_dist amp_dist y tr, (l, r)) /\
      length l = length out_l /\ length r = length out_r /\
      (forall i, (0 <= i < sampleframes)%Z ->
         vget 0 l i = 0 /\ vget 0 r i = 0) /\
      (forall i, (0 <= i)%Z -> (sampleframes <= i)%Z ->
         vget 0 l i = vget 0 out_l i /\ vget 0 r i = vget 0 out_r i).
Proof.
  cbv zeta.
  assert (Hunc : spectrum_captured (fst (chiller_set_buffer h x s)) = false)
    by (destruct x; reflexivity).
  repeat match goal with
         | |- _ /\ _ => split
         | |- _ = _ => solve [destruct x; reflexivity]
         end.
  intros tr Hno out_l out_r n.
  pose proof (run_keeps_uncaptured tr _ Hunc Hno) as Hrun.
  exact (perform64_idle phase_dist amp_dist _ out_l out_r n
           (or_introl Hrun)).
Qed.

End Binding.

End EngineFacts.

(** ** Loops that rewrite a vector entry by entry *)

Lemma map_loop {A : Type} (d : A) (g : Z -> A -> A) (body : Z -> list A -> list A)
  (n : Z) (v : list A) :
  (forall i w, body i w = vset w i (g i (vget d w i))) ->
  (n <= vsize v)%Z ->
  length (for_loop 0 n 1 body v) = length v /\
  forall i, (0 <= i)%Z ->
    vget d (for_loop 0 n 1 body v) i
    = if (i <? n)%Z then g i (vget d v i) else vget d v i.
Proof.
  intros Hbody Hn.
  destruct (Z.le_gt_cases n 0) as [Hn0|Hn0].
  - rewrite for_loop_empty by lia; split; [reflexivity|].
    intros i Hi; destruct (Z.ltb_spec i n); [lia | reflexivity].
  - apply (for_loop_ind
             (fun k w => length w = length v /\
                forall i, (0 <= i)%Z ->
                  vget d w i
                  = if (i <? k)%Z then g i (vget d v i) else vget d v i));
      [lia | |].
    + split; [reflexivity|].
      intros i Hi; destruct (Z.ltb_spec i 0); [lia | reflexivity].
    + intros k w Hk [Hlen Hget]; rewrite Hbody, vset_length.
      split; [exact Hlen|]; intros i Hi.
      rewrite vget_vset by (unfold vsize in *; lia).
      rewrite (Hget k) by lia.
      destruct (Z.ltb_spec k k); [lia|].
      destruct (Z.eqb_spec k i) as [->|Hne].
      * destruct (Z.ltb_spec i (i + 1)); [reflexivity | lia].
      * rewrite Hget by assumption.
        destruct (Z.ltb_spec i k), (Z.ltb_spec i (k + 1)); auto; lia.
Qed.

(** Such a loop over the whole vector is a [map] on its entries. *)
Lemma map_loop_whole (g : C -> C) (body : Z -> list C -> list C) (v : list C) :
  (forall i w, body i w = vset w i (g (vget C0 w i))) ->
  for_loop 0 (vsize v) 1 body v = map g v.
Proof.
  intros Hbody.
  destruct (map_loop C0 (fun _ => g) body (vsize v) v Hbody (Z.le_refl _))
    as [Hlen Hget].
  apply (vget_ext C0); [now rewrite length_map|].
  intros i Hi.
  assert (Hi' : (0 <= i < vsize v)%Z) by (unfold vsize in *; lia).
  rewrite Hget by lia.
  destruct (Z.ltb_spec i (vsize v)); [|lia].
  unfold vget, vsize in *.
  rewrite (nth_indep (map g v) C0 (g C0)) by (rewrite length_map; lia).
  now rewrite map_nth.
Qed.

(** ** Window generation *)

(** C8. For [size >= 2] and a window vector of at least [size] entries,
    [chiller_generate_window] writes the Hann coefficient
    0.5 * (1 - cos (2 PI i / (size - 1))) at every index [i] of [0, size),
    touches nothing else (the vector keeps its size and its entries from
    [size] on), and the first and the last coefficient are exactly 0. *)
Theorem generate_window_hann (window : list R) (size : Z) :
  (2 <= size)%Z -> (size <= vsize window)%Z ->
  let w := chiller_generate_window window size in
  length w = length window /\
  (forall i, (0 <= i < size)%Z ->
     vget 0 w i = 0.5 * (1 - cos (2 * PI * IZR i / IZR (size - 1)))) /\
  (forall i, (size <= i)%Z -> vget 0 w i = vget 0 window i) /\
  vget 0 w 0 = 0 /\ vget 0 w (size - 1) = 0.
Proof.
  intros Hsize Hfit; cbv zeta; unfold chiller_generate_window.
  destruct (map_loop 0
              (fun i _ => 0.5 * (1 - cos (2 * PI * IZR i / IZR (size - 1))))
              (fun i w =>
                 vset w i (0.5 * (1 - cos (2 * PI * IZR i / IZR (size - 1)))))
              size window (fun _ _ => eq_refl) Hfit) as [Hlen Hget].
  assert (Hin : forall i, (0 <= i < size)%Z ->
            vget 0 (for_loop 0 size 1
                      (fun i w => vset w i
                         (0.5 * (1 - cos (2 * PI * IZR i / IZR (size - 1)))))
                      window) i
            = 0.5 * (1 - cos (2 * PI * IZR i / IZR (size - 1)))).
  { intros i Hi; rewrite Hget by lia.
    destruct (Z.ltb_spec i size); [reflexivity | lia]. }
  repeat split.
  - exact Hlen.
  - exact Hin.
  - intros i Hi; rewrite Hget by lia.
    destruct (Z.ltb_spec i size); [lia | reflexivity].
  - rewrite Hin by lia.
    replace (2 * PI * 0 / IZR (size - 1)) with 0 by (unfold Rdiv; ring).
    rewrite cos_0; ring.
  - rewrite Hin by lia.
    assert (Hnz : IZR (size - 1) <> 0) by (apply not_0_IZR; lia).
    replace (2 * PI * IZR (size - 1) / IZR (size - 1)) with (2 * PI)
      by (field; exact Hnz).
    rewrite cos_2PI; ring.
Qed.

(** ** Sums *)

Lemma Rsum_ext (n : nat) (f g : Z -> R) :
  (forall i, (0 <= i < Z.of_nat n)%Z -> f i = g i) -> Rsum n f = Rsum n g.
Proof.
  induction n as [|n IH]; intros Hfg; simpl; [reflexivity|].
  rewrite IH, (Hfg (Z.of_nat n)); try reflexivity; try lia.
  intros i Hi; apply Hfg; lia.
Qed.

Lemma Rsum_scal (n : nat) (c : R) (f : Z -> R) :
  Rsum n (fun i => c * f i) = c * Rsum n f.
Proof. induction n as [|n IH]; simpl; [|rewrite IH]; ring. Qed.

Lemma Cabs_square (z : C) : Cabs z * Cabs z = Cnorm2 z.
Proof. unfold Cabs, Cnorm2; apply sqrt_sqrt; nra. Qed.


Lemma spectrum_energy_sum (fb : list C) :
  spectrum_energy fb = Rsum (length fb) (fun i => Cnorm2 (vget C0 fb i)).
Proof.
  unfold spectrum_energy.
  replace (length fb) with (Z.to_nat (vsize fb)) by (unfold vsize; lia).
  apply (for_loop_ind
           (fun k e => e = Rsum (Z.to_nat k) (fun i => Cnorm2 (vget C0 fb i))));
    [unfold vsize; lia | reflexivity |].
  intros k e Hk ->; cbv zeta.
  replace (Z.to_nat (k + 1)) with (S (Z.to_nat k)) by lia; simpl.
  now rewrite Cabs_square, Z2Nat.id by lia.
Qed.

Lemma vget_map (g : C -> C) (v : list C) (i : Z) :
  (0 <= i < vsize v)%Z -> vget C0 (map g v) i = g (vget C0 v i).
Proof.
  intros Hi; unfold vget, vsize in *.
  rewrite (nth_indep (map g v) C0 (g C0)) by (rewrite length_map; lia).
  apply map_nth.
Qed.

(** ** The capture pipeline *)

Lemma double_to_long_floor (r : R) :
  0 <= r -> IZR (double_to_long r) <= r < IZR (double_to_long r) + 1.
Proof.
  intros Hr; unfold double_to_long.
  destruct (Rlt_dec r 0); [lra|].
  destruct (base_Int_part r); lra.
Qed.


Section CaptureFacts.

Context {rng_state : Type}.
Implicit Types x y : t_chiller rng_state.

Lemma capture_source_some (h : host) x (samples : list R) (frames channels : Z) :
  capture_source h x = Some (samples, frames, channels) ->
  (fft_size x <= frames)%Z /\
  chiller_capture_spectrum h x
  = capture_from (set_capturing_spectrum x true) samples frames channels.
Proof.
  unfold capture_source, chiller_capture_spectrum.
  destruct (buffer_ref x) as [ref|]; [|discriminate].
  destruct (buffer_ref_getobject h ref) as [b|]; [|discriminate].
  destruct (buffer_locksamples b) as [s|]; [|discriminate].
  replace (fft_size (set_capturing_spectrum x true)) with (fft_size x)
    by (destruct x; reflexivity).
  destruct (Z.ltb_spec (buffer_getframecount b) (fft_size x)); [discriminate|].
  intros [= <- <- <-]; split; [lia | reflexivity].
Qed.

Lemma capture_from_buffers x (samples : list R) (frames channels : Z) :
  let y := fst (capture_from (set_capturing_spectrum x true)
                  samples frames channels) in
  analysis_buffer y
  = chiller_apply_window (captured_segment x samples frames channels)
      (window x) /\
  frozen_spectrum y
  = normalize_spectrum (fft_size x)
      (analysis_spectrum x samples frames channels) /\
  spectrum_captured y = true.
Proof. destruct x; repeat split; reflexivity. Qed.



End CaptureFacts.

(** ** The output scheduler *)

Lemma pair_loop_lengths (body : Z -> list R * list R -> list R * list R)
  (lo hi : Z) (l r : list R) :
  (forall j st, length (fst (body j st)) = length (fst st) /\
                length (snd (body j st)) = length (snd st)) ->
  length (fst (for_loop lo hi 1 body (l, r))) = length l /\
  length (snd (for_loop lo hi 1 body (l, r))) = length r.
Proof.
  intros Hbody; unfold for_loop.
  apply (for_count_ind body 1 _
           (fun _ st => length (fst st) = length l /\
                        length (snd st) = length r)).
  - split; reflexivity.
  - intros j st _ [Hl Hr]; destruct (Hbody (lo + Z.of_nat j * 1)%Z st).
    split; congruence.
Qed.

Lemma nth_shifted (l : list R) (j : nat) :
  nth j (tl l ++ [0]) 0 = nth (S j) l 0.
Proof.
  destruct l as [|a l]; simpl; [destruct j as [|[|j]]; reflexivity|].
  destruct (Nat.lt_ge_cases j (length l)) as [Hlt|Hge].
  - now rewrite app_nth1.
  - rewrite app_nth2, (nth_overflow l) by assumption.
    destruct (j - length l)%nat as [|[|k]]; reflexivity.
Qed.

Lemma shift_loop (l r : list R) (n : Z) :
  vsize l = n -> vsize r = n ->
  forall l' r', for_loop 0 (n - 1) 1 shift_step (l, r) = (l', r') ->
  length l' = length l /\ length r' = length r /\
  forall j, (0 <= j)%Z ->
    vget 0 l' j = (if (j <? n - 1)%Z then vget 0 l (j + 1) else vget 0 l j) /\
    vget 0 r' j = (if (j <? n - 1)%Z then vget 0 r (j + 1) else vget 0 r j).
Proof.
  intros Hl Hr.
  destruct (Z.le_gt_cases (n - 1) 0) as [Hn|Hn].
  - rewrite for_loop_empty by lia; intros l' r' [= <- <-].
    repeat split; auto; destruct (Z.ltb_spec j (n - 1)); auto; lia.
  - intros l' r' E.
    enough (HP :
      (fun k (st : list R * list R) =>
         length (fst st) = length l /\ length (snd st) = length r /\
         forall j, (0 <= j)%Z ->
           vget 0 (fst st) j
           = (if (j <? k)%Z then vget 0 l (j + 1) else vget 0 l j) /\
           vget 0 (snd st) j
           = (if (j <? k)%Z then vget 0 r (j + 1) else vget 0 r j))
        (n - 1)%Z (for_loop 0 (n - 1) 1 shift_step (l, r)))
      by (rewrite E in HP; exact HP).
    apply for_loop_ind; [lia| |].
    + simpl; repeat split; auto; destruct (Z.ltb_spec j 0); auto; lia.
    + intros k [a b] Hk (Ha & Hb & Hget); simpl in *.
      rewrite !vset_length; repeat split; auto.
      * rewrite vget_vset by (unfold vsize in *; lia).
        destruct (Hget (k + 1)%Z) as [-> _]; [lia|].
        destruct (Z.ltb_spec (k + 1) k); [lia|].
        destruct (Z.eqb_spec k j) as [->|Hne].
        -- destruct (Z.ltb_spec j (j + 1)); [reflexivity | lia].
        -- destruct (Hget j H) as [-> _].
           destruct (Z.ltb_spec j k), (Z.ltb_spec j (k + 1)); auto; lia.
      * rewrite vget_vset by (unfold vsize in *; lia).
        destruct (Hget (k + 1)%Z) as [_ ->]; [lia|].
        destruct (Z.ltb_spec (k + 1) k); [lia|].
        destruct (Z.eqb_spec k j) as [->|Hne].
        -- destruct (Z.ltb_spec j (j + 1)); [reflexivity | lia].
        -- destruct (Hget j H) as [_ ->].
           destruct (Z.ltb_spec j k), (Z.ltb_spec j (k + 1)); auto; lia.
Qed.

(** After the shift and the final assignment, a vector is its tail with a
    zero appended. *)
Lemma shifted_vector (l l' : list R) :
  (1 <= vsize l)%Z -> length l' = length l ->
  (forall j, (0 <= j)%Z ->
     vget 0 l' j
     = if (j <? vsize l - 1)%Z then vget 0 l (j + 1) else vget 0 l j) ->
  vset l' (vsize l' - 1) 0 = tl l ++ [0].
Proof.
  intros Hn Hlen Hget.
  assert (Hsz : vsize l' = vsize l) by (unfold vsize; lia).
  apply (vget_ext 0).
  - rewrite vset_length, length_app, Hlen; simpl.
    destruct l; simpl in *; [unfold vsize in Hn; simpl in Hn; lia | lia].
  - intros j Hj; rewrite vsize_vset in Hj.
    rewrite vget_vset by lia.
    unfold vget at 2; rewrite nth_shifted.
    replace (S (Z.to_nat j)) with (Z.to_nat (j + 1)) by lia.
    fold (vget 0 l (j + 1)).
    destruct (Z.eqb_spec (vsize l' - 1) j) as [E|Hne].
    + unfold vget, vsize in *; rewrite nth_overflow; [reflexivity | lia].
    + rewrite Hget by lia.
      destruct (Z.ltb_spec j (vsize l - 1)); [reflexivity | lia].
Qed.

Section Scheduler.

Context {rng_state : Type}.
Variable phase_dist : rng_state -> R * rng_state.
Variable amp_dist : rng_state -> R * rng_state.

Implicit Types x y : t_chiller rng_state.

Lemma overlap_add_lengths (fb : list C) (w : list R) (j : Z)
  (st : list R * list R) :
  length (fst (overlap_add fb w j st)) = length (fst st) /\
  length (snd (overlap_add fb w j st)) = length (snd st).
Proof. destruct st; simpl; now rewrite !vset_length. Qed.

Lemma generate_grain_sizes x :
  length (overlap_buffer_l (generate_grain phase_dist amp_dist x))
  = length (overlap_buffer_l x) /\
  length (overlap_buffer_r (generate_grain phase_dist amp_dist x))
  = length (overlap_buffer_r x).
Proof.
  unfold generate_grain.
  destruct (for_loop 0 (vsize (frozen_spectrum x)) 1 _ _) as [g fb].
  match goal with
  | |- context [for_loop 0 ?n 1 (overlap_add ?b ?w) (?l, ?r)] =>
    pose proof (pair_loop_lengths (overlap_add b w) 0 n l r
                  (overlap_add_lengths b w)) as [Hl Hr];
    destruct (for_loop 0 n 1 (overlap_add b w) (l, r)) as [l' r']
  end.
  simpl in Hl, Hr; destruct x; simpl in *; split; assumption.
Qed.

Lemma hop_tick_sizes x :
  length (overlap_buffer_l (hop_tick phase_dist amp_dist x))
  = length (overlap_buffer_l x) /\
  length (overlap_buffer_r (hop_tick phase_dist amp_dist x))
  = length (overlap_buffer_r x).
Proof.
  unfold hop_tick; destruct (Rge_dec _ _).
  - destruct (generate_grain_sizes
                (set_hop_counter (set_hop_counter x (hop_counter x + 1)) 0))
      as [-> ->].
    destruct x; split; reflexivity.
  - destruct x; split; reflexivity.
Qed.

(** Between grains the hop tick only counts. *)
Lemma hop_tick_idle x :
  IZR (hop_counter x + 1) < IZR (hop_size x) / grain_rate x ->
  hop_tick phase_dist amp_dist x = set_hop_counter x (hop_counter x + 1).
Proof.
  intros Hlt; unfold hop_tick.
  replace (hop_counter (set_hop_counter x (hop_counter x + 1)))
    with (hop_counter x + 1)%Z by (destruct x; reflexivity).
  replace (hop_size (set_hop_counter x (hop_counter x + 1)))
    with (hop_size x) by (destruct x; reflexivity).
  replace (grain_rate (set_hop_counter x (hop_counter x + 1)))
    with (grain_rate x) by (destruct x; reflexivity).
  destruct (Rge_dec _ _); [lra | reflexivity].
Qed.

Lemma shift_overlap_tail x :
  (1 <= vsize (overlap_buffer_l x))%Z ->
  vsize (overlap_buffer_r x) = vsize (overlap_buffer_l x) ->
  overlap_buffer_l (shift_overlap x) = tl (overlap_buffer_l x) ++ [0] /\
  overlap_buffer_r (shift_overlap x) = tl (overlap_buffer_r x) ++ [0].
Proof.
  intros Hn Hr; unfold shift_overlap.
  destruct (for_loop 0 (vsize (overlap_buffer_l x) - 1) 1 shift_step _)
    as [l r] eqn:E.
  destruct (shift_loop _ _ _ eq_refl Hr _ _ E) as (Hl' & Hr' & Hget).
  replace (overlap_buffer_l
             (set_overlap_buffer_r
                (set_overlap_buffer_l x (vset l (vsize l - 1) 0))
                (vset r (vsize r - 1) 0)))
    with (vset l (vsize l - 1) 0) by (destruct x; reflexivity).
  replace (overlap_buffer_r
             (set_overlap_buffer_r
                (set_overlap_buffer_l x (vset l (vsize l - 1) 0))
                (vset r (vsize r - 1) 0)))
    with (vset r (vsize r - 1) 0) by (destruct x; reflexivity).
  split; apply shifted_vector; auto; try lia.
  - intros j Hj; apply (Hget j Hj).
  - intros j Hj; rewrite Hr; apply (Hget j Hj).
Qed.

(** C6. In a block processed with a captured spectrum the callback runs
    [sample_step] for each sample.  Let [y] be the engine after the hop tick
    of that step, whether or not the tick added a grain.  The step writes
    [accumulator[0] * 0.1] of [y] to the left and to the right output, and
    the accumulators it leaves are those of [y] shifted left by one: entry
    [j] is the old entry [j + 1] for [j < N - 1], and the last entry is 0. *)
Theorem sample_step_emits_and_shifts x (out_l out_r : list R) (i : Z)
  (ref : t_buffer_ref) :
  spectrum_captured x = true -> buffer_ref x = Some ref ->
  (1 <= vsize (overlap_buffer_l x))%Z ->
  vsize (overlap_buffer_r x) = vsize (overlap_buffer_l x) ->
  (0 <= i < vsize out_l)%Z -> (i < vsize out_r)%Z ->
  let n := vsize (overlap_buffer_l x) in
  let y := hop_tick phase_dist amp_dist x in
  let z := fst (sample_step phase_dist amp_dist i (x, (out_l, out_r))) in
  let outs := snd (sample_step phase_dist amp_dist i (x, (out_l, out_r))) in
  chiller_perform64 phase_dist amp_dist x (out_l, out_r) 1
  = sample_step phase_dist amp_dist 0 (x, (out_l, out_r)) /\
  vget 0 (fst outs) i = vget 0 (overlap_buffer_l y) 0 * 0.1 /\
  vget 0 (snd outs) i = vget 0 (overlap_buffer_r y) 0 * 0.1 /\
  vsize (overlap_buffer_l y) = n /\ vsize (overlap_buffer_r y) = n /\
  overlap_buffer_l z = tl (overlap_buffer_l y) ++ [0] /\
  overlap_buffer_r z = tl (overlap_buffer_r y) ++ [0] /\
  (forall j, (0 <= j < n - 1)%Z ->
     vget 0 (overlap_buffer_l z) j = vget 0 (overlap_buffer_l y) (j + 1) /\
     vget 0 (overlap_buffer_r z) j = vget 0 (overlap_buffer_r y) (j + 1)) /\
  vget 0 (overlap_buffer_l z) (n - 1) = 0 /\
  vget 0 (overlap_buffer_r z) (n - 1) = 0.
Proof.
  intros Hcap Href Hn Hlr Hi Hi'; cbv zeta.
  destruct (hop_tick_sizes x) as [Hyl Hyr].
  assert (Hyl' : vsize (overlap_buffer_l (hop_tick phase_dist amp_dist x))
                 = vsize (overlap_buffer_l x)) by (unfold vsize; lia).
  assert (Hyr' : vsize (overlap_buffer_r (hop_tick phase_dist amp_dist x))
                 = vsize (overlap_buffer_l x)) by (unfold vsize in *; lia).
  destruct (shift_overlap_tail (hop_tick phase_dist amp_dist x))
    as [Htl Htr]; [lia | lia |].
  assert (Hshift : forall (l : list R) j, (0 <= j)%Z ->
            vget 0 (tl l ++ [0]) j = vget 0 l (j + 1)).
  { intros l j Hj; unfold vget; rewrite nth_shifted; f_equal; lia. }
  unfold sample_step, emit_and_shift; simpl fst; simpl snd.
  rewrite Htl, Htr.
  repeat split.
  - unfold chiller_perform64; rewrite Hcap, Href; reflexivity.
  - apply vget_vset_same; lia.
  - apply vget_vset_same; lia.
  - exact Hyl'.
  - exact Hyr'.
  - apply Hshift; lia.
  - apply Hshift; lia.
  - rewrite Hshift by lia; unfold vget, vsize in *.
    apply nth_overflow; lia.
  - rewrite Hshift by lia; unfold vget, vsize in *.
    apply nth_overflow; lia.
Qed.

End Scheduler.

(** ** Bit reversal *)

Lemma pow2_S (q : nat) : (2 ^ Z.of_nat (S q) = 2 * 2 ^ Z.of_nat q)%Z.
Proof. rewrite Nat2Z.inj_succ, Z.pow_succ_r; lia. Qed.

Lemma pow2_pos (q : nat) : (0 < 2 ^ Z.of_nat q)%Z.
Proof. apply Z.pow_pos_nonneg; lia. Qed.

Lemma bitrev_range (p : nat) : forall m, (0 <= bitrev p m < 2 ^ Z.of_nat p)%Z.
Proof.
  induction p as [|q IH]; intros m; [simpl; lia|].
  change (bitrev (S q) m)
    with ((m mod 2) * 2 ^ Z.of_nat q + bitrev q (m / 2))%Z.
  rewrite pow2_S; specialize (IH (m / 2)%Z).
  pose proof (Z.mod_pos_bound m 2 ltac:(lia)); nia.
Qed.

Lemma bitrev_0 (p : nat) : bitrev p 0 = 0%Z.
Proof.
  induction p as [|q IH]; [reflexivity|].
  change (bitrev (S q) 0)
    with ((0 mod 2) * 2 ^ Z.of_nat q + bitrev q (0 / 2))%Z.
  rewrite Z.mod_0_l, Z.div_0_l, IH by lia; reflexivity.
Qed.

(** Reversal moves the top bit to the bottom. *)
Lemma bitrev_top (q : nat) :
  forall b r, (0 <= b < 2)%Z -> (0 <= r < 2 ^ Z.of_nat q)%Z ->
              bitrev (S q) (b * 2 ^ Z.of_nat q + r) = (2 * bitrev q r + b)%Z.
Proof.
  induction q as [|q IH]; intros b r Hb Hr.
  - simpl in *; assert (r = 0%Z) by lia; subst r.
    rewrite Z.mul_1_r, Z.add_0_r, Z.mod_small; lia.
  - change (bitrev (S (S q)) (b * 2 ^ Z.of_nat (S q) + r))
      with (((b * 2 ^ Z.of_nat (S q) + r) mod 2) * 2 ^ Z.of_nat (S q)
            + bitrev (S q) ((b * 2 ^ Z.of_nat (S q) + r) / 2))%Z.
    change (bitrev (S q) r)
      with ((r mod 2) * 2 ^ Z.of_nat q + bitrev q (r / 2))%Z.
    rewrite pow2_S in *.
    replace (b * (2 * 2 ^ Z.of_nat q) + r)%Z
      with (r + (b * 2 ^ Z.of_nat q) * 2)%Z by lia.
    rewrite Z.mod_add, Z.div_add by lia.
    replace (r / 2 + b * 2 ^ Z.of_nat q)%Z
      with (b * 2 ^ Z.of_nat q + r / 2)%Z by lia.
    rewrite IH; [lia | lia |].
    pose proof (Z.div_mod r 2 ltac:(lia)).
    pose proof (Z.mod_pos_bound r 2 ltac:(lia)); lia.
Qed.

Lemma bitrev_involutive (p : nat) :
  forall m, (0 <= m < 2 ^ Z.of_nat p)%Z -> bitrev p (bitrev p m) = m.
Proof.
  induction p as [|q IH]; intros m Hm; [simpl in *; lia|].
  change (bitrev (S q) m)
    with ((m mod 2) * 2 ^ Z.of_nat q + bitrev q (m / 2))%Z.
  rewrite pow2_S in Hm.
  pose proof (Z.div_mod m 2 ltac:(lia)).
  pose proof (Z.mod_pos_bound m 2 ltac:(lia)).
  rewrite bitrev_top; [|lia|apply bitrev_range].
  rewrite IH; lia.
Qed.

Lemma bitrev_even_odd (q : nat) (m e : Z) :
  (0 <= e < 2)%Z ->
  bitrev (S q) (2 * m + e) = (e * 2 ^ Z.of_nat q + bitrev q m)%Z.
Proof.
  intros He.
  change (bitrev (S q) (2 * m + e))
    with (((2 * m + e) mod 2) * 2 ^ Z.of_nat q
          + bitrev q ((2 * m + e) / 2))%Z.
  replace (2 * m + e)%Z with (e + m * 2)%Z by lia.
  rewrite Z.mod_add, Z.div_add, Z.mod_small, Z.div_small by lia.
  reflexivity.
Qed.

(** Bits of [j] against the single bit [2 ^ q]. *)
Lemma land_pow2_low (q : nat) (a : Z) :
  (0 <= a < 2 ^ Z.of_nat q)%Z -> Z.land a (2 ^ Z.of_nat q) = 0%Z.
Proof.
  intros Ha; apply Z.bits_inj'; intros n Hn.
  rewrite Z.land_spec, Z.bits_0, Z.pow2_bits_eqb by lia.
  destruct (Z.eqb_spec (Z.of_nat q) n) as [<-|]; [|apply andb_false_r].
  rewrite andb_true_r; apply Z.testbit_false; [lia|].
  rewrite Z.div_small by lia; reflexivity.
Qed.

Lemma lxor_pow2_low (q : nat) (a : Z) :
  (0 <= a < 2 ^ Z.of_nat q)%Z ->
  Z.lxor a (2 ^ Z.of_nat q) = (2 ^ Z.of_nat q + a)%Z.
Proof.
  intros Ha; rewrite Z.add_comm.
  symmetry; apply Z.add_nocarry_lxor, land_pow2_low, Ha.
Qed.

Lemma lxor_pow2_high (q : nat) (a : Z) :
  (0 <= a < 2 ^ Z.of_nat q)%Z ->
  Z.lxor (2 ^ Z.of_nat q + a) (2 ^ Z.of_nat q) = a.
Proof.
  intros Ha; rewrite <- lxor_pow2_low by assumption.
  now rewrite Z.lxor_assoc, Z.lxor_nilpotent, Z.lxor_0_r.
Qed.

Lemma land_pow2_high (q : nat) (a : Z) :
  (0 <= a < 2 ^ Z.of_nat q)%Z ->
  Z.land (2 ^ Z.of_nat q + a) (2 ^ Z.of_nat q) = (2 ^ Z.of_nat q)%Z.
Proof.
  intros Ha; rewrite <- lxor_pow2_low by assumption.
  apply Z.bits_inj'; intros n Hn.
  rewrite Z.land_spec, Z.lxor_spec, Z.pow2_bits_eqb by lia.
  destruct (Z.eqb_spec (Z.of_nat q) n) as [<-|]; [|apply andb_false_r].
  rewrite andb_true_r, xorb_true_r.
  apply negb_true_iff, Z.testbit_false; [lia|].
  rewrite Z.div_small by lia; reflexivity.
Qed.

Lemma carry_body_eq (j bit : Z) :
  carry_body (j, bit) = (Z.lxor j bit, Z.shiftr bit 1).
Proof. reflexivity. Qed.

Lemma carry_cond_eq (j bit : Z) :
  carry_cond (j, bit) = negb (Z.land j bit =? 0)%Z.
Proof. reflexivity. Qed.

(** The carry loop turns the reversal of [i] into the reversal of [i + 1]. *)
Lemma carry_loop_next (q : nat) :
  forall (fuel : nat) (i : Z),
    (q < fuel)%nat -> (0 <= i)%Z -> (i + 1 < 2 ^ Z.of_nat (S q))%Z ->
    forall j1 bit1,
      while_loop fuel carry_cond carry_body (bitrev (S q) i, 2 ^ Z.of_nat q)%Z
      = (j1, bit1) ->
      Z.lxor j1 bit1 = bitrev (S q) (i + 1) /\ carry_cond (j1, bit1) = false.
Proof.
  induction q as [|q IH]; intros [|fuel] i Hfuel Hi Hlt j1 bit1;
    try lia; rewrite pow2_S in Hlt;
    pose proof (Z.div_mod i 2 ltac:(lia)) as Hdm;
    pose proof (Z.mod_pos_bound i 2 ltac:(lia)) as Hmod.
  - (* one bit: i = 0 *)
    simpl in Hlt; assert (i = 0%Z) by lia; subst i.
    simpl; intros [= <- <-]; split; reflexivity.
  - change (bitrev (S (S q)) i)
      with ((i mod 2) * 2 ^ Z.of_nat (S q) + bitrev (S q) (i / 2))%Z.
    pose proof (bitrev_range (S q) (i / 2)) as Hr'.
    assert (Hcases : (i mod 2 = 0 \/ i mod 2 = 1)%Z) by lia.
    destruct Hcases as [E|E]; rewrite E.
    + (* low bit clear: the top bit of the reversal is set and the loop
         stops at once *)
      rewrite Z.mul_0_l, Z.add_0_l.
      cbn [while_loop]; rewrite carry_cond_eq.
      rewrite land_pow2_low by lia; cbn [Z.eqb negb].
      intros Hloop; apply pair_equal_spec in Hloop.
      destruct Hloop as [<- <-]; split.
      * rewrite lxor_pow2_low by lia.
        replace (i + 1)%Z with (2 * (i / 2) + 1)%Z by lia.
        rewrite bitrev_even_odd; lia.
      * rewrite carry_cond_eq.
        now rewrite land_pow2_low by lia.
    + (* low bit set: the carry ripples into the next bit *)
      rewrite Z.mul_1_l.
      cbn [while_loop]; rewrite carry_cond_eq.
      rewrite land_pow2_high by lia.
      destruct (Z.eqb_spec (2 ^ Z.of_nat (S q)) 0) as [E0|_];
        [pose proof (pow2_pos (S q)); lia|].
      cbn [negb]; rewrite carry_body_eq.
      rewrite lxor_pow2_high by lia.
      replace (Z.shiftr (2 ^ Z.of_nat (S q)) 1) with (2 ^ Z.of_nat q)%Z.
      2:{ rewrite Z.shiftr_div_pow2, pow2_S by lia.
          change (2 ^ 1)%Z with 2%Z.
          rewrite Z.mul_comm, Z.div_mul; lia. }
      intros Hloop.
      destruct (IH fuel (i / 2)%Z) with (j1 := j1) (bit1 := bit1)
        as [Hx Hc]; try lia; try assumption.
      split; [|exact Hc].
      rewrite Hx.
      replace (i + 1)%Z with (2 * (i / 2 + 1) + 0)%Z by lia.
      rewrite bitrev_even_odd; lia.
Qed.

Lemma vget_vswap (data : list C) (i j k : Z) :
  (0 <= i < vsize data)%Z -> (0 <= j < vsize data)%Z -> (0 <= k)%Z ->
  vget C0 (vswap data i j) k
  = if (k =? j)%Z then vget C0 data i
    else if (k =? i)%Z then vget C0 data j else vget C0 data k.
Proof.
  intros Hi Hj Hk; unfold vswap.
  rewrite vget_vset by (rewrite ?vsize_vset; lia).
  rewrite Z.eqb_sym; destruct (k =? j)%Z; [reflexivity|].
  rewrite vget_vset by lia.
  rewrite Z.eqb_sym; reflexivity.
Qed.

Lemma vswap_length (data : list C) (i j : Z) :
  length (vswap data i j) = length data.
Proof. unfold vswap; now rewrite !vset_length. Qed.

(** The reordering loop leaves entry [k] holding the entry the input had at
    the reversal of [k]. *)
Lemma bit_reverse_spec (q : nat) (data : list C) :
  (q < long_bits)%nat ->
  vsize data = (2 ^ Z.of_nat (S q))%Z ->
  length (bit_reverse (vsize data) data) = length data /\
  forall k, (0 <= k < vsize data)%Z ->
    vget C0 (bit_reverse (vsize data) data) k
    = vget C0 data (bitrev (S q) k).
Proof.
  intros Hq Hn; unfold bit_reverse.
  set (n := vsize data) in *.
  set (r := bitrev (S q)).
  assert (Hn2 : (2 <= n)%Z) by (rewrite Hn, pow2_S; pose proof (pow2_pos q); lia).
  assert (Hinj : forall k i, (0 <= k < n)%Z -> (0 <= i < n)%Z ->
                             (r k = i <-> k = r i)).
  { intros k i Hk Hi; rewrite Hn in Hk, Hi; split.
    - intros <-; symmetry; now apply bitrev_involutive.
    - intros ->; now apply bitrev_involutive. }
  assert (Hrange : forall k, (0 <= r k < n)%Z)
    by (intros k; rewrite Hn; apply bitrev_range).
  pose (P := fun i (st : Z * list C) =>
       fst st = r (i - 1)%Z /\ length (snd st) = length data /\
       forall k, (0 <= k < n)%Z ->
         vget C0 (snd st) k
         = if (Z.min k (r k) <? i)%Z then vget C0 data (r k)
           else vget C0 data k).
  enough (HP : P n (for_loop 1 n 1 (bitrev_step n) (0%Z, data))).
  { destruct HP as (_ & Hlen & Hget); split; [exact Hlen|].
    intros k Hk; rewrite Hget by assumption.
    destruct (Z.ltb_spec (Z.min k (r k)) n); [reflexivity | lia]. }
  apply (for_loop_ind P); [lia| |]; unfold P.
  - cbn [fst snd]; repeat split.
    + unfold r; now rewrite bitrev_0.
    + intros k Hk; destruct (Z.ltb_spec (Z.min k (r k)) 1); [|reflexivity].
      assert (Hr0 : r 0%Z = 0%Z) by (unfold r; apply bitrev_0).
      destruct (Z.eq_dec k 0) as [->|Hk0]; [now rewrite Hr0|].
      assert (r k = 0%Z) by (pose proof (Hrange k); lia).
      assert (k = r 0%Z) by (apply Hinj; auto; lia).
      lia.
  - intros i [j cur] Hi (Hj & Hlen & Hget); cbn [fst snd] in Hj, Hlen, Hget.
    unfold bitrev_step.
    replace (Z.shiftr n 1) with (2 ^ Z.of_nat q)%Z.
    2:{ rewrite Z.shiftr_div_pow2, Hn, pow2_S by lia.
        change (2 ^ 1)%Z with 2%Z; rewrite Z.mul_comm, Z.div_mul; lia. }
    destruct (while_loop long_bits carry_cond carry_body
                (j, (2 ^ Z.of_nat q)%Z)) as [j1 bit1] eqn:E.
    rewrite Hj in E.
    destruct (carry_loop_next q long_bits (i - 1)%Z Hq ltac:(lia)
                ltac:(lia) j1 bit1 E) as [Hx _].
    replace (i - 1 + 1)%Z with i in Hx by lia; fold r in Hx.
    rewrite Hx; cbn [fst snd].
    replace (i + 1 - 1)%Z with i by lia.
    assert (Hsize : vsize cur = n)
      by (unfold n, vsize; rewrite Hlen; reflexivity).
    pose proof (Hrange i) as Hri.
    split; [reflexivity|].
    destruct (Z.ltb_spec i (r i)) as [Hswap|Hkeep].
    + split; [now rewrite vswap_length|].
      intros k Hk; rewrite vget_vswap by lia.
      rewrite (Hget i), (Hget (r i)), (Hget k) by lia.
      pose proof (Hrange k) as Hrk.
      pose proof (Hinj k i Hk ltac:(lia)) as Hki.
      pose proof (Hinj i i ltac:(lia) ltac:(lia)) as Hii.
      pose proof (Hinj (r i) i ltac:(lia) ltac:(lia)) as Hrii.
      destruct (Z.eq_dec (r k) i) as [E1|E1];
        destruct (Z.eq_dec k (r i)) as [E2|E2]; try tauto;
        destruct (Z.eq_dec (r (r i)) i) as [E3|E3]; try tauto;
        destruct (Z.eqb_spec k (r i)); try lia;
        destruct (Z.eqb_spec k i); try lia;
        repeat match goal with
               | |- context [(?a <? ?b)%Z] => destruct (Z.ltb_spec a b)
               end;
        try lia; try (f_equal; lia); try congruence.
    + split; [exact Hlen|].
      intros k Hk; rewrite (Hget k) by lia.
      pose proof (Hrange k) as Hrk.
      pose proof (Hinj k i Hk ltac:(lia)) as Hki.
      destruct (Z.eq_dec k i) as [E0|E0].
      { subst k.
        destruct (Z.ltb_spec (Z.min i (r i)) i),
                 (Z.ltb_spec (Z.min i (r i)) (i + 1));
          try lia; try reflexivity; f_equal; lia. }
      destruct (Z.eq_dec (r k) i) as [E1|E1];
        destruct (Z.eq_dec k (r i)) as [E2|E2]; try tauto;
        repeat match goal with
               | |- context [(?a <? ?b)%Z] => destruct (Z.ltb_spec a b)
               end;
        try lia; try (f_equal; lia); try congruence.
Qed.

(** ** Butterflies *)

Ltac split_ltb :=
  repeat match goal with
         | |- context [(?a <? ?b)%Z] => destruct (Z.ltb_spec a b)
         end.

(** One block of a stage: the butterflies of the block starting at [i],
    with half-length [h]. *)
Lemma fft_block_spec (wlen : C) (h i : Z) (data : list C) :
  (1 <= h)%Z -> (0 <= i)%Z -> (i + 2 * h <= vsize data)%Z ->
  length (fft_block wlen (2 * h) i data) = length data /\
  forall idx, (0 <= idx)%Z ->
    vget C0 (fft_block wlen (2 * h) i data) idx
    = if (idx <? i)%Z then vget C0 data idx
      else if (idx <? i + h)%Z then
        Cadd (vget C0 data idx)
             (Cmul (vget C0 data (idx + h)) (Cpow wlen (Z.to_nat (idx - i))))
      else if (idx <? i + 2 * h)%Z then
        Csub (vget C0 data (idx - h))
             (Cmul (vget C0 data idx) (Cpow wlen (Z.to_nat (idx - i - h))))
      else vget C0 data idx.
Proof.
  intros Hh Hi Hfit; unfold fft_block.
  replace (2 * h / 2)%Z with h by (rewrite Z.mul_comm, Z.div_mul; lia).
  pose (P := fun j (st : C * list C) =>
    fst st = Cpow wlen (Z.to_nat j) /\ length (snd st) = length data /\
    forall idx, (0 <= idx)%Z ->
      vget C0 (snd st) idx
      = if (idx <? i)%Z then vget C0 data idx
        else if (idx <? i + j)%Z then
          Cadd (vget C0 data idx)
               (Cmul (vget C0 data (idx + h)) (Cpow wlen (Z.to_nat (idx - i))))
        else if (idx <? i + h)%Z then vget C0 data idx
        else if (idx <? i + h + j)%Z then
          Csub (vget C0 data (idx - h))
               (Cmul (vget C0 data idx) (Cpow wlen (Z.to_nat (idx - i - h))))
        else vget C0 data idx).
  enough (HP : P h (for_loop 0 h 1 (butterfly wlen (2 * h) i) (C1, data))).
  { destruct HP as (_ & Hlen & Hget); split; [exact Hlen|].
    intros idx Hidx; rewrite Hget by assumption.
    split_ltb; try lia; reflexivity. }
  apply (for_loop_ind P); [lia| |]; unfold P.
  - cbn [fst snd]; repeat split.
    intros idx Hidx; split_ltb; try lia; reflexivity.
  - intros j [w cur] Hj (Hw & Hlen & Hget); cbn [fst snd] in Hw, Hlen, Hget.
    unfold butterfly.
    replace (2 * h / 2)%Z with h by (rewrite Z.mul_comm, Z.div_mul; lia).
    cbn [fst snd]; rewrite !vset_length.
    assert (Hsize : vsize cur = vsize data) by (unfold vsize; lia).
    split; [|split; [exact Hlen|]].
    + replace (Z.to_nat (j + 1)) with (S (Z.to_nat j)) by lia.
      now rewrite Hw.
    + intros idx Hidx.
      rewrite vget_vset by (rewrite ?vsize_vset; lia).
      rewrite vget_vset by lia.
      rewrite (Hget (i + j)%Z), (Hget (i + j + h)%Z), (Hget idx) by lia.
      rewrite Hw.
      destruct (Z.eqb_spec (i + j + h) idx) as [E1|E1];
        destruct (Z.eqb_spec (i + j) idx) as [E2|E2];
        split_ltb; try lia; try reflexivity.
      * subst idx.
        replace (i + j + h - h)%Z with (i + j)%Z by lia.
        replace (i + j + h - i - h)%Z with j by lia; reflexivity.
      * subst idx.
        replace (i + j - i)%Z with j by lia; reflexivity.
Qed.

(** One stage: every block of [2 h] entries is combined from its two halves. *)
Lemma fft_stage_blocks (wlen : C) (h m : Z) (data : list C) :
  (1 <= h)%Z -> (0 <= m)%Z -> vsize data = (m * (2 * h))%Z ->
  length (for_loop 0 (vsize data) (2 * h) (fft_block wlen (2 * h)) data)
  = length data /\
  forall b k, (0 <= b < m)%Z -> (0 <= k < h)%Z ->
    let out := for_loop 0 (vsize data) (2 * h) (fft_block wlen (2 * h)) data in
    let u := vget C0 data (b * (2 * h) + k) in
    let v := Cmul (vget C0 data (b * (2 * h) + k + h)) (Cpow wlen (Z.to_nat k)) in
    vget C0 out (b * (2 * h) + k) = Cadd u v /\
    vget C0 out (b * (2 * h) + k + h) = Csub u v.
Proof.
  intros Hh Hm Hsize; cbv zeta; rewrite Hsize.
  pose (P := fun c (cur : list C) =>
    length cur = length data /\
    forall b k, (0 <= b < m)%Z -> (0 <= k < h)%Z ->
      vget C0 cur (b * (2 * h) + k)
      = (if (b <? c)%Z
         then Cadd (vget C0 data (b * (2 * h) + k))
                (Cmul (vget C0 data (b * (2 * h) + k + h))
                   (Cpow wlen (Z.to_nat k)))
         else vget C0 data (b * (2 * h) + k)) /\
      vget C0 cur (b * (2 * h) + k + h)
      = (if (b <? c)%Z
         then Csub (vget C0 data (b * (2 * h) + k))
                (Cmul (vget C0 data (b * (2 * h) + k + h))
                   (Cpow wlen (Z.to_nat k)))
         else vget C0 data (b * (2 * h) + k + h))).
  enough (HP : P m (for_loop 0 (m * (2 * h)) (2 * h)
                      (fft_block wlen (2 * h)) data)).
  { destruct HP as [Hlen Hget]; split; [exact Hlen|].
    intros b k Hb Hk; destruct (Hget b k Hb Hk) as [H1 H2].
    destruct (Z.ltb_spec b m); [split; assumption | lia]. }
  apply (for_loop_blocks_ind P); [lia | lia | |]; unfold P.
  - split; [reflexivity|].
    intros b k Hb Hk; destruct (Z.ltb_spec b 0); [lia | split; reflexivity].
  - intros c cur Hc [Hlen Hget].
    assert (Hcur : vsize cur = (m * (2 * h))%Z) by (unfold vsize in *; lia).
    assert (Hfit : (c * (2 * h) + 2 * h <= vsize cur)%Z) by nia.
    destruct (fft_block_spec wlen h (c * (2 * h)) cur Hh ltac:(nia) Hfit)
      as [Hlen' Hblock].
    split; [congruence|].
    intros b k Hb Hk.
    rewrite !Hblock by nia.
    destruct (Hget b k Hb Hk) as [Hlo Hhi].
    destruct (Hget c k Hc Hk) as [Hclo Hchi].
    destruct (Z.ltb_spec c c); [lia|].
    destruct (Z.lt_trichotomy b c) as [Hlt|[Heq|Hgt]].
    + (* a block already done *)
      assert ((b * (2 * h) + 2 * h <= c * (2 * h))%Z) by nia.
      rewrite Hlo, Hhi.
      destruct (Z.ltb_spec b c), (Z.ltb_spec b (c + 1)); try lia.
      split_ltb; try lia; split; reflexivity.
    + (* the block of this iteration *)
      subst b.
      destruct (Z.ltb_spec c (c + 1)); [|lia].
      split_ltb; try lia.
      replace (c * (2 * h) + k + h - h)%Z with (c * (2 * h) + k)%Z by lia.
      replace (c * (2 * h) + k - c * (2 * h))%Z with k by lia.
      replace (c * (2 * h) + k + h - c * (2 * h) - h)%Z with k by lia.
      rewrite Hclo, Hchi; split; reflexivity.
    + (* a block still to do *)
      assert ((c * (2 * h) + 2 * h <= b * (2 * h))%Z) by nia.
      rewrite Hlo, Hhi.
      destruct (Z.ltb_spec b c), (Z.ltb_spec b (c + 1)); try lia.
      split_ltb; try lia; split; reflexivity.
Qed.

(** ** Complex sums and roots of unity *)

Ltac cring :=
  apply injective_projections;
  unfold Cadd, Csub, Cmul, Copp, Cconj, Cscale, Cdivr, C0, C1;
  cbn [fst snd]; ring.

Lemma Csum_ext (n : nat) (f g : Z -> C) :
  (forall i, (0 <= i < Z.of_nat n)%Z -> f i = g i) -> Csum n f = Csum n g.
Proof.
  induction n as [|n IH]; intros Hfg; [reflexivity|].
  cbn [Csum]; rewrite IH, (Hfg (Z.of_nat n)); try reflexivity; try lia.
  intros i Hi; apply Hfg; lia.
Qed.

Lemma Csum_add (n : nat) (f g : Z -> C) :
  Csum n (fun i => Cadd (f i) (g i)) = Cadd (Csum n f) (Csum n g).
Proof.
  induction n as [|n IH]; cbn [Csum]; [cring | rewrite IH; cring].
Qed.

Lemma Csum_mul_r (n : nat) (f : Z -> C) (c : C) :
  Csum n (fun i => Cmul (f i) c) = Cmul (Csum n f) c.
Proof.
  induction n as [|n IH]; cbn [Csum]; [cring | rewrite IH; cring].
Qed.

Lemma Csum_opp (n : nat) (f : Z -> C) :
  Csum n (fun i => Copp (f i)) = Copp (Csum n f).
Proof.
  induction n as [|n IH]; cbn [Csum]; [cring | rewrite IH; cring].
Qed.

Lemma Csum_conj (n : nat) (f : Z -> C) :
  Csum n (fun i => Cconj (f i)) = Cconj (Csum n f).
Proof.
  induction n as [|n IH]; cbn [Csum]; [cring | rewrite IH; cring].
Qed.

Lemma Csum_even_odd (n : nat) (f : Z -> C) :
  Csum (2 * n) f
  = Cadd (Csum n (fun m => f (2 * m)%Z)) (Csum n (fun m => f (2 * m + 1)%Z)).
Proof.
  induction n as [|n IH]; [simpl; cring|].
  replace (2 * S n)%nat with (S (S (2 * n))) by lia.
  cbn [Csum]; rewrite IH.
  replace (Z.of_nat (2 * n)) with (2 * Z.of_nat n)%Z by lia.
  replace (Z.of_nat (S (2 * n))) with (2 * Z.of_nat n + 1)%Z by lia.
  cring.
Qed.

Lemma cis_0 : cis 0 = C1.
Proof. unfold cis, C1; now rewrite cos_0, sin_0. Qed.

Lemma cis_plus (a b : R) : cis (a + b) = Cmul (cis a) (cis b).
Proof.
  unfold cis, Cmul; cbn [fst snd]; rewrite cos_plus, sin_plus.
  f_equal; ring.
Qed.

Lemma cis_turns (t : R) (m : Z) :
  (0 <= m)%Z -> cis (t + 2 * PI * IZR m) = cis t.
Proof.
  intros Hm; unfold cis.
  replace (t + 2 * PI * IZR m) with (t + 2 * INR (Z.to_nat m) * PI)
    by (rewrite INR_IZR_INZ, Z2Nat.id by lia; ring).
  now rewrite cos_period, sin_period.
Qed.

Lemma cis_half_turn (t : R) : cis (t + PI) = Copp (cis t).
Proof. unfold cis, Copp; cbn [fst snd]; now rewrite neg_cos, neg_sin. Qed.

Lemma Cpow_cis (a : R) (k : nat) : Cpow (cis a) k = cis (INR k * a).
Proof.
  induction k as [|k IH].
  - cbn [Cpow INR]; rewrite Rmult_0_l; symmetry; apply cis_0.
  - cbn [Cpow]; rewrite IH, <- cis_plus, S_INR; f_equal; ring.
Qed.

Lemma pow2_nat (s : nat) : Z.of_nat (2 ^ s) = (2 ^ Z.of_nat s)%Z.
Proof. rewrite Nat2Z.inj_pow; reflexivity. Qed.

Lemma IZR_pow2_pos (s : nat) : 0 < IZR (2 ^ Z.of_nat s).
Proof. apply IZR_lt, pow2_pos. Qed.

(** ** Stages compute transforms of doubling length *)

(** A transform of length [2 ^ (s + 1)] from the transforms of its entries
    of even and of odd rank. *)
Lemma sub_dft_split (a0 : list C) (s : nat) (b k : Z) :
  let w := cis (2 * PI * IZR k / IZR (2 ^ Z.of_nat (S s))) in
  let even := sub_dft a0 s (2 * b) k in
  let odd := sub_dft a0 s (2 * b + 1) k in
  sub_dft a0 (S s) b k = Cadd even (Cmul odd w) /\
  sub_dft a0 (S s) b (k + 2 ^ Z.of_nat s) = Csub even (Cmul odd w).
Proof.
  cbv zeta; unfold sub_dft.
  change (2 ^ S s)%nat with (2 * 2 ^ s)%nat.
  rewrite !Csum_even_odd, pow2_S.
  pose proof (IZR_pow2_pos s) as HH.
  set (h := (2 ^ Z.of_nat s)%Z) in *.
  assert (Heven : forall m, bitrev (S s) (2 * m) = bitrev s m).
  { intros m; replace (2 * m)%Z with (2 * m + 0)%Z by lia.
    rewrite bitrev_even_odd by lia; lia. }
  assert (Hodd : forall m, bitrev (S s) (2 * m + 1) = (h + bitrev s m)%Z).
  { intros m; rewrite bitrev_even_odd by lia; unfold h; lia. }
  split.
  - f_equal.
    + apply Csum_ext; intros m Hm; rewrite Heven; f_equal.
      * f_equal; lia.
      * f_equal; rewrite !mult_IZR; field; lra.
    + rewrite <- Csum_mul_r; apply Csum_ext; intros m Hm.
      rewrite Hodd.
      replace (b * (2 * h) + (h + bitrev s m))%Z
        with ((2 * b + 1) * h + bitrev s m)%Z by lia.
      replace (2 * PI * IZR ((2 * m + 1) * k) / IZR (2 * h))
        with (2 * PI * IZR (m * k) / IZR h + 2 * PI * IZR k / IZR (2 * h))
        by (rewrite !mult_IZR, plus_IZR, !mult_IZR; field; lra).
      rewrite cis_plus; cring.
  - transitivity
      (Cadd
         (Csum (2 ^ s)
            (fun m => Cmul (vget C0 a0 (2 * b * h + bitrev s m))
                        (cis (2 * PI * IZR (m * k) / IZR h))))
         (Csum (2 ^ s)
            (fun m =>
               Copp (Cmul
                       (Cmul (vget C0 a0 ((2 * b + 1) * h + bitrev s m))
                          (cis (2 * PI * IZR (m * k) / IZR h)))
                       (cis (2 * PI * IZR k / IZR (2 * h))))))).
    + f_equal; apply Csum_ext; intros m Hm.
      * rewrite Heven; f_equal; [f_equal; lia|].
        replace (2 * PI * IZR (2 * m * (k + h)) / IZR (2 * h))
          with (2 * PI * IZR (m * k) / IZR h + 2 * PI * IZR m)
          by (rewrite !mult_IZR, plus_IZR; field; lra).
        apply cis_turns; lia.
      * rewrite Hodd.
        replace (b * (2 * h) + (h + bitrev s m))%Z
          with ((2 * b + 1) * h + bitrev s m)%Z by lia.
        replace (2 * PI * IZR ((2 * m + 1) * (k + h)) / IZR (2 * h))
          with (2 * PI * IZR (m * k) / IZR h + 2 * PI * IZR k / IZR (2 * h)
                + 2 * PI * IZR m + PI)
          by (rewrite !mult_IZR, !plus_IZR, !mult_IZR; field; lra).
        rewrite cis_half_turn, cis_turns, cis_plus by lia; cring.
    + rewrite Csum_opp, Csum_mul_r; cring.
Qed.

Lemma stage_inv_start (a0 : list C) : stage_inv a0 0 a0.
Proof.
  split; [reflexivity|].
  intros b k Hb Hk _; unfold sub_dft.
  change (2 ^ Z.of_nat 0)%Z with 1%Z in *.
  assert (k = 0%Z) by lia; subst k.
  cbn [Nat.pow Csum bitrev Z.of_nat].
  replace (2 * PI * IZR (0 * 0) / 1) with 0 by (simpl; field).
  rewrite cis_0; replace (b * 1 + 0)%Z with b by lia; cring.
Qed.

Lemma stage_inv_step (a0 : list C) (s d : nat) (cur : list C) :
  vsize a0 = (2 ^ Z.of_nat (S s + d))%Z ->
  stage_inv a0 s cur ->
  fft_stage (vsize a0) ((2 ^ Z.of_nat (S s))%Z, cur)
  = ((2 ^ Z.of_nat (S (S s)))%Z,
     snd (fft_stage (vsize a0) ((2 ^ Z.of_nat (S s))%Z, cur))) /\
  stage_inv a0 (S s) (snd (fft_stage (vsize a0) ((2 ^ Z.of_nat (S s))%Z, cur))).
Proof.
  intros Hn [Hlen Hcur].
  pose proof (pow2_pos s) as Hh; pose proof (pow2_pos d) as Hd.
  assert (Hn' : vsize a0 = (2 ^ Z.of_nat d * (2 * 2 ^ Z.of_nat s))%Z).
  { rewrite Hn, Nat2Z.inj_add, Z.pow_add_r, pow2_S by lia; lia. }
  assert (Hsz : vsize cur = vsize a0) by (unfold vsize; lia).
  unfold fft_stage; cbn [fst snd]; split.
  { f_equal; rewrite Z.shiftl_mul_pow2, (pow2_S (S s)) by lia.
    change (2 ^ 1)%Z with 2%Z; lia. }
  rewrite pow2_S, <- Hsz.
  set (wlen := (cos (2 * PI / IZR (2 * 2 ^ Z.of_nat s)),
                sin (2 * PI / IZR (2 * 2 ^ Z.of_nat s)))).
  destruct (fft_stage_blocks wlen (2 ^ Z.of_nat s) (2 ^ Z.of_nat d) cur)
    as [Hlen' Hout]; [lia | lia | lia |].
  split; [congruence|].
  intros b k Hb Hk Hfit; rewrite pow2_S in Hk, Hfit |- *.
  assert (Hbm : (b < 2 ^ Z.of_nat d)%Z) by nia.
  assert (Hw : forall j, (0 <= j)%Z ->
            Cpow wlen (Z.to_nat j)
            = cis (2 * PI * IZR j / IZR (2 * 2 ^ Z.of_nat s))).
  { intros j Hj; unfold wlen; fold (cis (2 * PI / IZR (2 * 2 ^ Z.of_nat s))).
    rewrite Cpow_cis, INR_IZR_INZ, Z2Nat.id by lia.
    f_equal; field.
    pose proof (IZR_pow2_pos s); rewrite mult_IZR; lra. }
  destruct (Z.lt_ge_cases k (2 ^ Z.of_nat s)) as [Hlow|Hhigh].
  - destruct (Hout b k) as [Hu _]; [lia | lia |]; cbv zeta in Hu.
    destruct (sub_dft_split a0 s b k) as [Hsplit _].
    rewrite pow2_S in Hsplit; rewrite Hsplit, Hu, Hw by lia.
    replace (b * (2 * 2 ^ Z.of_nat s) + k + 2 ^ Z.of_nat s)%Z
      with ((2 * b + 1) * 2 ^ Z.of_nat s + k)%Z by lia.
    replace (b * (2 * 2 ^ Z.of_nat s) + k)%Z
      with (2 * b * 2 ^ Z.of_nat s + k)%Z by lia.
    rewrite !Hcur by nia; reflexivity.
  - destruct (Hout b (k - 2 ^ Z.of_nat s)%Z) as [_ Hv]; [lia | lia |].
    cbv zeta in Hv.
    destruct (sub_dft_split a0 s b (k - 2 ^ Z.of_nat s)) as [_ Hsplit].
    replace (k - 2 ^ Z.of_nat s + 2 ^ Z.of_nat s)%Z with k in Hsplit by lia.
    rewrite pow2_S in Hsplit; rewrite Hsplit.
    replace (b * (2 * 2 ^ Z.of_nat s) + k)%Z
      with (b * (2 * 2 ^ Z.of_nat s) + (k - 2 ^ Z.of_nat s) + 2 ^ Z.of_nat s)%Z
      by lia.
    rewrite Hv, Hw by lia.
    replace (b * (2 * 2 ^ Z.of_nat s) + (k - 2 ^ Z.of_nat s) + 2 ^ Z.of_nat s)%Z
      with ((2 * b + 1) * 2 ^ Z.of_nat s + (k - 2 ^ Z.of_nat s))%Z by lia.
    replace (b * (2 * 2 ^ Z.of_nat s) + (k - 2 ^ Z.of_nat s))%Z
      with (2 * b * 2 ^ Z.of_nat s + (k - 2 ^ Z.of_nat s))%Z by lia.
    rewrite !Hcur by nia; reflexivity.
Qed.

(** The stage loop runs the remaining [d] stages and then stops, provided
    the fuel covers them. *)
Lemma stages_loop (a0 : list C) (d : nat) :
  forall (s fuel : nat) (cur : list C),
    vsize a0 = (2 ^ Z.of_nat (s + d))%Z -> (d <= fuel)%nat ->
    stage_inv a0 s cur ->
    let final := while_loop fuel (stage_cond (vsize a0)) (fft_stage (vsize a0))
                   ((2 ^ Z.of_nat (S s))%Z, cur) in
    stage_inv a0 (s + d) (snd final) /\ stage_cond (vsize a0) final = false.
Proof.
  induction d as [|d IH]; intros s fuel cur Hn Hfuel Hinv; cbv zeta.
  - (* all stages done: the condition fails *)
    rewrite Nat.add_0_r in *.
    assert (Hstop : stage_cond (vsize a0) ((2 ^ Z.of_nat (S s))%Z, cur) = false).
    { unfold stage_cond; cbn [fst]; rewrite Hn, pow2_S.
      pose proof (pow2_pos s); apply Z.leb_gt; lia. }
    destruct fuel; cbn [while_loop]; rewrite ?Hstop; auto.
  - destruct fuel as [|fuel]; [lia|].
    replace (s + S d)%nat with (S s + d)%nat in * by lia.
    assert (Hgo : stage_cond (vsize a0) ((2 ^ Z.of_nat (S s))%Z, cur) = true).
    { unfold stage_cond; cbn [fst]; rewrite Hn.
      apply Z.leb_le, Z.pow_le_mono_r; lia. }
    cbn [while_loop]; rewrite Hgo.
    destruct (stage_inv_step a0 s d cur Hn Hinv) as [-> Hnext].
    apply IH; [exact Hn | lia | exact Hnext].
Qed.

Lemma length_pow2 (p : nat) (data : list C) :
  length data = (2 ^ p)%nat -> vsize data = (2 ^ Z.of_nat p)%Z.
Proof. intros H; unfold vsize; now rewrite H, pow2_nat. Qed.

(** [chiller_fft] computes the discrete Fourier transform. *)
Lemma chiller_fft_dft (p : nat) (data : list C) :
  (p <= long_bits)%nat -> length data = (2 ^ p)%nat ->
  length (chiller_fft data) = length data /\
  forall k, (0 <= k < vsize data)%Z ->
            vget C0 (chiller_fft data) k = dft data k.
Proof.
  intros Hp Hlen; pose proof (length_pow2 p data Hlen) as Hn.
  unfold chiller_fft; fold (vsize data).
  destruct p as [|q].
  - (* a single entry is returned as it is *)
    change (2 ^ Z.of_nat 0)%Z with 1%Z in Hn; rewrite Hn.
    cbn [Z.leb Z.compare Pos.compare Pos.compare_cont].
    split; [reflexivity|].
    intros k Hk; assert (k = 0%Z) by lia; subst k.
    unfold dft; rewrite Hlen; cbn [Nat.pow Csum Z.of_nat INR].
    replace (2 * PI * IZR (0 * 0) / 1) with 0 by (simpl; field).
    rewrite cis_0; cring.
  - pose proof (pow2_pos q) as Hq.
    destruct (Z.leb_spec (vsize data) 1) as [Hsmall|_];
      [rewrite Hn, pow2_S in Hsmall; lia|].
    destruct (bit_reverse_spec q data ltac:(unfold long_bits in *; lia) Hn)
      as [Hrlen Hrev].
    set (a0 := bit_reverse (vsize data) data) in *.
    assert (Ha0 : vsize a0 = vsize data) by (unfold vsize; lia).
    rewrite <- Ha0.
    destruct (stages_loop a0 (S q) 0 long_bits a0) as [[Hflen Hfinal] _].
    { rewrite Ha0, Hn; reflexivity. }
    { exact Hp. }
    { apply stage_inv_start. }
    change (2 ^ Z.of_nat 1)%Z with 2%Z in *.
    split; [congruence|].
    intros k Hk; cbn [Nat.add] in Hfinal.
    specialize (Hfinal 0%Z k).
    replace (0 * 2 ^ Z.of_nat (S q) + k)%Z with k in Hfinal by lia.
    rewrite Hfinal by lia.
    unfold sub_dft, dft; rewrite Hlen.
    apply Csum_ext; intros m Hm; rewrite pow2_nat in Hm.
    rewrite Z.mul_0_l, Z.add_0_l, Hrev
      by (pose proof (bitrev_range (S q) m); lia).
    rewrite bitrev_involutive by lia.
    now rewrite INR_IZR_INZ, pow2_nat.
Qed.

(** ** Orthogonality of the roots of unity *)

Lemma Csum_mul_l (n : nat) (f : Z -> C) (c : C) :
  Csum n (fun i => Cmul c (f i)) = Cmul c (Csum n f).
Proof.
  induction n as [|n IH]; cbn [Csum]; [cring | rewrite IH; cring].
Qed.

Lemma Csum_swap (n m : nat) (f : Z -> Z -> C) :
  Csum n (fun i => Csum m (fun j => f i j))
  = Csum m (fun j => Csum n (fun i => f i j)).
Proof.
  induction n as [|n IH]; cbn [Csum].
  - induction m as [|m IHm]; cbn [Csum]; [reflexivity | rewrite <- IHm; cring].
  - now rewrite IH, <- Csum_add.
Qed.

(** A sum whose terms vanish except at rank [j]. *)
Lemma Csum_single (n : nat) (j : Z) (x : Z -> C) (c : C) :
  (0 <= j < Z.of_nat n)%Z ->
  Csum n (fun m => Cmul (x m) (if (m =? j)%Z then c else C0)) = Cmul (x j) c.
Proof.
  intros Hj.
  enough (H : forall k : nat,
             Csum k (fun m => Cmul (x m) (if (m =? j)%Z then c else C0))
             = if (j <? Z.of_nat k)%Z then Cmul (x j) c else C0).
  { rewrite H; destruct (Z.ltb_spec j (Z.of_nat n)); [reflexivity | lia]. }
  induction k as [|k IH]; cbn [Csum].
  - destruct (Z.ltb_spec j (Z.of_nat 0)); [lia | reflexivity].
  - rewrite IH.
    destruct (Z.eqb_spec (Z.of_nat k) j) as [E|E];
      destruct (Z.ltb_spec j (Z.of_nat k));
      destruct (Z.ltb_spec j (Z.of_nat (S k))); try lia;
      try (rewrite E); cring.
Qed.

Lemma Csum_const_1 (n : nat) : Csum n (fun _ => C1) = (INR n, 0).
Proof.
  induction n as [|n IH]; [reflexivity|].
  cbn [Csum]; rewrite IH, S_INR; cring.
Qed.

Lemma Cconj_cis (t : R) : Cconj (cis t) = cis (- t).
Proof. unfold Cconj, cis; cbn [fst snd]; now rewrite cos_neg, sin_neg. Qed.

Lemma cis_not_1 (t : R) : 0 < t < 2 * PI -> cis t <> C1.
Proof.
  intros Ht Hc; apply pair_equal_spec in Hc; destruct Hc as [Hcos Hsin].
  destruct (sin_eq_O_2PI_0 t) as [E|[E|E]]; try lra.
  rewrite E, cos_PI in Hcos; lra.
Qed.

Lemma cis_whole_turns (d : Z) : cis (2 * PI * IZR d) = C1.
Proof.
  destruct (Z.le_gt_cases 0 d) as [Hd|Hd].
  - replace (2 * PI * IZR d) with (0 + 2 * PI * IZR d) by ring.
    rewrite cis_turns by assumption; apply cis_0.
  - replace (2 * PI * IZR d) with (- (0 + 2 * PI * IZR (- d)))
      by (rewrite opp_IZR; ring).
    rewrite <- Cconj_cis, cis_turns, cis_0 by lia; cring.
Qed.

(** A complex product vanishes only when a factor does. *)
Lemma Cmul_cancel (a b : C) : Cmul a b = C0 -> a <> C0 -> b = C0.
Proof.
  destruct a as [a1 a2], b as [b1 b2]; unfold Cmul, C0; cbn [fst snd].
  intros H Ha; apply pair_equal_spec in H; destruct H as [H1 H2].
  assert (Hn : a1 * a1 + a2 * a2 <> 0).
  { intros Hz; apply Ha; f_equal; nra. }
  assert (Hb1 : (a1 * a1 + a2 * a2) * b1 = 0).
  { replace ((a1 * a1 + a2 * a2) * b1)
      with (a1 * (a1 * b1 - a2 * b2) + a2 * (a1 * b2 + a2 * b1)) by ring.
    rewrite H1, H2; ring. }
  assert (Hb2 : (a1 * a1 + a2 * a2) * b2 = 0).
  { replace ((a1 * a1 + a2 * a2) * b2)
      with (a1 * (a1 * b2 + a2 * b1) - a2 * (a1 * b1 - a2 * b2)) by ring.
    rewrite H1, H2; ring. }
  apply Rmult_integral in Hb1, Hb2.
  f_equal; tauto.
Qed.

Lemma geometric_sum (z : C) (n : nat) :
  Cmul (Csub z C1) (Csum n (fun k => Cpow z (Z.to_nat k)))
  = Csub (Cpow z n) C1.
Proof.
  induction n as [|n IH]; cbn [Csum Cpow]; [cring|].
  rewrite Nat2Z.id.
  transitivity
    (Cadd (Cmul (Csub z C1) (Csum n (fun k => Cpow z (Z.to_nat k))))
          (Cmul (Csub z C1) (Cpow z n))); [cring|].
  rewrite IH; cring.
Qed.

(** The kernels of two different ranks are orthogonal over a full period. *)
Lemma roots_orthogonal (n : nat) (m j : Z) :
  (0 < n)%nat -> (0 <= m < Z.of_nat n)%Z -> (0 <= j < Z.of_nat n)%Z ->
  Csum n (fun k => Cmul (cis (2 * PI * IZR (m * k) / INR n))
                        (Cconj (cis (2 * PI * IZR (k * j) / INR n))))
  = if (m =? j)%Z then (INR n, 0) else C0.
Proof.
  intros Hn Hm Hj.
  assert (HN : 0 < INR n) by (apply lt_0_INR; lia).
  set (z := cis (2 * PI * IZR (m - j) / INR n)).
  rewrite (Csum_ext _ _ (fun k => Cpow z (Z.to_nat k))).
  2:{ intros k Hk; unfold z.
      rewrite Cconj_cis, <- cis_plus, Cpow_cis.
      rewrite (INR_IZR_INZ (Z.to_nat k)), Z2Nat.id by lia.
      f_equal; rewrite !mult_IZR, minus_IZR; field; lra. }
  destruct (Z.eqb_spec m j) as [->|Hne].
  - unfold z; rewrite Z.sub_diag.
    replace (2 * PI * 0 / INR n) with 0 by (field; lra).
    rewrite cis_0, (Csum_ext _ _ (fun _ => C1)); [apply Csum_const_1|].
    intros k _; induction (Z.to_nat k) as [|i IH]; cbn [Cpow];
      [reflexivity | rewrite IH; cring].
  - apply (Cmul_cancel (Csub z C1)).
    + rewrite geometric_sum; unfold z.
      rewrite Cpow_cis.
      replace (INR n * (2 * PI * IZR (m - j) / INR n))
        with (2 * PI * IZR (m - j)) by (field; lra).
      rewrite cis_whole_turns; cring.
    + intros Hz.
      assert (Hz1 : z = C1).
      { destruct z as [z1 z2]; unfold Csub, C1, C0 in *; cbn [fst snd] in Hz.
        apply pair_equal_spec in Hz; destruct Hz; f_equal; lra. }
      assert (Hd : IZR (- Z.of_nat n) < IZR (m - j) < IZR (Z.of_nat n))
        by (split; apply IZR_lt; lia).
      rewrite opp_IZR, <- INR_IZR_INZ in Hd.
      assert (Hd0 : IZR (m - j) <> 0) by (apply not_0_IZR; lia).
      pose proof PI_RGT_0 as Hpi.
      destruct (Rlt_dec 0 (IZR (m - j))) as [Hpos|Hneg].
      * apply (cis_not_1 (2 * PI * IZR (m - j) / INR n)); [|exact Hz1].
        split.
        -- apply Rdiv_lt_0_compat; nra.
        -- apply Rmult_lt_reg_r with (INR n); [lra|].
           unfold Rdiv; rewrite Rmult_assoc, Rinv_l by lra; nra.
      * apply (cis_not_1 (- (2 * PI * IZR (m - j) / INR n))).
        -- split.
           ++ apply Ropp_0_gt_lt_contravar.
              unfold Rdiv; apply Rmult_lt_reg_r with (INR n); [lra|].
              rewrite Rmult_assoc, Rinv_l by lra; nra.
           ++ apply Rmult_lt_reg_r with (INR n); [lra|].
              unfold Rdiv.
              rewrite Ropp_mult_distr_l, Rmult_assoc, Rinv_l by lra; nra.
        -- rewrite <- Cconj_cis; fold z; rewrite Hz1; cring.
Qed.

(** ** The inverse transform *)

Lemma Cconj_mul (a b : C) : Cconj (Cmul a b) = Cmul (Cconj a) (Cconj b).
Proof. cring. Qed.

Lemma Cconj_involutive (a : C) : Cconj (Cconj a) = a.
Proof. destruct a; cring. Qed.

(** The inverse as the source composes it: conjugate, forward transform,
    conjugate and divide by the size. *)
Lemma chiller_ifft_composition (p : nat) (data : list C) :
  (p <= long_bits)%nat -> length data = (2 ^ p)%nat ->
  chiller_ifft data
  = map (fun z => Cdivr (Cconj z) (INR (length data)))
        (chiller_fft (map Cconj data)).
Proof.
  intros Hp Hlen; unfold chiller_ifft.
  destruct (chiller_fft_dft p (map Cconj data) Hp) as [-> _];
    [now rewrite length_map|].
  now rewrite length_map.
Qed.

(** [chiller_ifft] computes the transform with the conjugate kernel, divided
    by the size. *)
Lemma chiller_ifft_dft (p : nat) (data : list C) :
  (p <= long_bits)%nat -> length data = (2 ^ p)%nat ->
  length (chiller_ifft data) = length data /\
  forall k, (0 <= k < vsize data)%Z ->
    vget C0 (chiller_ifft data) k
    = Cdivr (dft_conj data k) (INR (length data)).
Proof.
  intros Hp Hlen; rewrite (chiller_ifft_composition p) by assumption.
  destruct (chiller_fft_dft p (map Cconj data) Hp) as [Hflen Hfft];
    [now rewrite length_map|].
  rewrite length_map in Hflen.
  split; [now rewrite length_map|].
  intros k Hk.
  rewrite vget_map by (unfold vsize in *; lia).
  rewrite Hfft by (unfold vsize in *; rewrite length_map; lia).
  f_equal; unfold dft, dft_conj; rewrite length_map, <- Csum_conj.
  apply Csum_ext; intros m Hm.
  rewrite vget_map by (unfold vsize; lia).
  now rewrite Cconj_mul, Cconj_involutive.
Qed.

Lemma ifft_fft_entry (p : nat) (x : list C) (j : Z) :
  (p <= long_bits)%nat -> length x = (2 ^ p)%nat ->
  (0 <= j < vsize x)%Z ->
  vget C0 (chiller_ifft (chiller_fft x)) j = vget C0 x j.
Proof.
  intros Hp Hlen Hj.
  destruct (chiller_fft_dft p x Hp Hlen) as [Hflen Hfft].
  destruct (chiller_ifft_dft p (chiller_fft x) Hp) as [_ Hifft];
    [congruence|].
  assert (Hpos : (0 < length x)%nat).
  { rewrite Hlen; apply Nat.neq_0_lt_0, Nat.pow_nonzero; lia. }
  assert (HN : 0 < INR (length x)) by (apply lt_0_INR; exact Hpos).
  rewrite Hifft by (unfold vsize in *; lia).
  unfold dft_conj; rewrite Hflen.
  rewrite (Csum_ext _ _
    (fun k => Csum (length x)
       (fun m => Cmul (vget C0 x m)
          (Cmul (cis (2 * PI * IZR (m * k) / INR (length x)))
                (Cconj (cis (2 * PI * IZR (k * j) / INR (length x)))))))).
  2:{ intros k Hk; rewrite Hfft by (unfold vsize; lia).
      unfold dft; rewrite <- Csum_mul_r.
      apply Csum_ext; intros m Hm; cring. }
  rewrite Csum_swap.
  rewrite (Csum_ext _ _
    (fun m => Cmul (vget C0 x m)
                (if (m =? j)%Z then (INR (length x), 0) else C0))).
  2:{ intros m Hm; rewrite Csum_mul_l, roots_orthogonal;
        [reflexivity | exact Hpos | lia | unfold vsize in Hj; lia]. }
  rewrite Csum_single by (unfold vsize in Hj; lia).
  apply injective_projections; unfold Cdivr, Cmul; cbn [fst snd]; field; lra.
Qed.

(** X26. In exact arithmetic, for a complex sequence of power-of-two length
    (the sizes 512 to 8192 of the engine among them), [chiller_ifft] is:
    conjugate every entry, apply [chiller_fft], conjugate every entry and
    divide it by N; and [chiller_ifft (chiller_fft x)] gives [x] back.  The
    rounding error of the binary64 round trip is not bounded here. *)
Theorem ifft_inverts_fft (p : nat) (x : list C) :
  (p <= long_bits)%nat -> length x = (2 ^ p)%nat ->
  chiller_ifft x
  = map (fun z => Cdivr (Cconj z) (INR (length x)))
        (chiller_fft (map Cconj x)) /\
  chiller_ifft (chiller_fft x) = x.
Proof.
  intros Hp Hlen; split; [now apply (chiller_ifft_composition p)|].
  destruct (chiller_fft_dft p x Hp Hlen) as [Hflen _].
  destruct (chiller_ifft_dft p (chiller_fft x) Hp) as [Hilen _];
    [congruence|].
  apply (vget_ext C0); [congruence|].
  intros j Hj; apply (ifft_fft_entry p); try assumption.
  unfold vsize in *; lia.
Qed.

(** ** The engine invariant *)

Lemma valid_fft_size_pow2 (n : Z) :
  valid_fft_size n = true ->
  exists p : nat, (9 <= p <= 13)%nat /\ n = (2 ^ Z.of_nat p)%Z.
Proof.
  intros Hv.
  assert (Hrange : (512 <= n <= 8192)%Z).
  { unfold valid_fft_size in Hv.
    apply andb_true_iff in Hv; destruct Hv as [Hv _].
    apply andb_true_iff in Hv; destruct Hv as [H1 H2].
    apply Z.leb_le in H1, H2; lia. }
  assert (Hall :
    forallb (fun k : nat =>
               implb (valid_fft_size (512 + Z.of_nat k))
                     (existsb (fun p : nat =>
                                 (512 + Z.of_nat k =? 2 ^ Z.of_nat p)%Z)
                              [9; 10; 11; 12; 13]%nat))
            (seq 0 (Z.to_nat 7681)) = true) by (vm_compute; reflexivity).
  rewrite forallb_forall in Hall.
  specialize (Hall (Z.to_nat (n - 512))).
  replace (512 + Z.of_nat (Z.to_nat (n - 512)))%Z with n in Hall by lia.
  rewrite Hv in Hall; cbn [implb] in Hall.
  destruct (proj1 (existsb_exists _ _) (Hall ltac:(apply in_seq; lia)))
    as (p & Hin & Hp).
  exists p; split; [|now apply Z.eqb_eq].
  cbn [In] in Hin; lia.
Qed.

Lemma vsize_vector {A : Type} (n : Z) (a : A) :
  (0 <= n)%Z -> vsize (vector n a) = n.
Proof. intros Hn; unfold vsize, vector; rewrite repeat_length; lia. Qed.

Lemma generate_window_size (w : list R) (size : Z) :
  (size <= vsize w)%Z -> vsize (chiller_generate_window w size) = vsize w.
Proof.
  intros Hfit; unfold chiller_generate_window, vsize at 1.
  destruct (map_loop 0
              (fun i _ => 0.5 * (1 - cos (2 * PI * IZR i / IZR (size - 1))))
              (fun i w =>
                 vset w i (0.5 * (1 - cos (2 * PI * IZR i / IZR (size - 1)))))
              size w (fun _ _ => eq_refl) Hfit) as [-> _].
  reflexivity.
Qed.

Lemma apply_window_size (buffer w : list R) :
  vsize (chiller_apply_window buffer w) = vsize buffer.
Proof.
  unfold chiller_apply_window.
  destruct (map_loop 0 (fun i a => a * vget 0 w i)
              (fun i b => vset b i (vget 0 b i * vget 0 w i))
              (Z.min (Z.of_nat (length buffer)) (Z.of_nat (length w))) buffer
              (fun _ _ => eq_refl) ltac:(unfold vsize; lia)) as [H _].
  unfold vsize; now rewrite H.
Qed.

Lemma to_complex_size (ab : list R) (fb : list C) :
  (vsize ab <= vsize fb)%Z -> vsize (to_complex ab fb) = vsize fb.
Proof.
  intros Hfit; unfold to_complex.
  destruct (map_loop C0 (fun i (_ : C) => (vget 0 ab i, 0))
              (fun i fb => vset fb i (vget 0 ab i, 0))
              (vsize ab) fb (fun _ _ => eq_refl) Hfit) as [H _].
  unfold vsize; f_equal; exact H.
Qed.

Lemma normalize_spectrum_size (n : Z) (fb : list C) :
  vsize (normalize_spectrum n fb) = vsize fb.
Proof.
  unfold normalize_spectrum; destruct (Rgt_dec _ _); [|reflexivity].
  rewrite (map_loop_whole
             (fun z => Cscale z (sqrt (target_energy n / spectrum_energy fb))))
    by reflexivity.
  unfold vsize; now rewrite length_map.
Qed.

Lemma chiller_fft_size (p : nat) (data : list C) :
  (p <= long_bits)%nat -> vsize data = (2 ^ Z.of_nat p)%Z ->
  vsize (chiller_fft data) = vsize data.
Proof.
  intros Hp Hn; unfold vsize at 1.
  destruct (chiller_fft_dft p data Hp) as [-> _]; [|reflexivity].
  apply Nat2Z.inj; rewrite pow2_nat; exact Hn.
Qed.

Lemma chiller_ifft_size (p : nat) (data : list C) :
  (p <= long_bits)%nat -> vsize data = (2 ^ Z.of_nat p)%Z ->
  vsize (chiller_ifft data) = vsize data.
Proof.
  intros Hp Hn; unfold vsize at 1.
  destruct (chiller_ifft_dft p data Hp) as [-> _]; [|reflexivity].
  apply Nat2Z.inj; rewrite pow2_nat; exact Hn.
Qed.

Lemma fill_zero_size (v : list R) : vsize (fill_zero v) = vsize v.
Proof. unfold vsize, fill_zero; now rewrite length_map. Qed.

Ltac fields :=
  cbn [buffer_ref buffer_name frozen_spectrum window overlap_buffer_l
       overlap_buffer_r fft_buffer analysis_buffer fft_size hop_size position
       overlap_amount grain_rate phase_randomness amplitude_variation
       spectrum_captured capturing_spectrum grain_counter hop_counter
       sample_rate last_position_change_time rng
       set_buffer_ref set_buffer_name set_frozen_spectrum set_window
       set_overlap_buffer_l set_overlap_buffer_r set_fft_buffer
       set_analysis_buffer set_fft_size set_hop_size set_position
       set_overlap_amount set_grain_rate set_phase_randomness
       set_amplitude_variation set_spectrum_captured set_capturing_spectrum
       set_hop_counter set_sample_rate set_last_position_change_time set_rng
       fst snd] in *.

Section Invariant.

Context {rng_state : Type}.
Implicit Types x y : t_chiller rng_state.

(** The invariant reads these fields only. *)
Lemma engine_ok_frame x y :
  fft_size y = fft_size x -> hop_size y = hop_size x ->
  frozen_spectrum y = frozen_spectrum x -> window y = window x ->
  overlap_buffer_l y = overlap_buffer_l x ->
  overlap_buffer_r y = overlap_buffer_r x ->
  fft_buffer y = fft_buffer x -> analysis_buffer y = analysis_buffer x ->
  position y = position x -> overlap_amount y = overlap_amount x ->
  grain_rate y = grain_rate x -> phase_randomness y = phase_randomness x ->
  amplitude_variation y = amplitude_variation x ->
  hop_counter y = hop_counter x ->
  capturing_spectrum y = capturing_spectrum x ->
  engine_ok x -> engine_ok y.
Proof.
  unfold engine_ok; intros -> -> -> -> -> -> -> -> -> -> -> -> -> -> ->.
  exact (fun H => H).
Qed.

Lemma copy_segment_size x (samples : list R) (channels start : Z) :
  (fft_size x <= vsize (analysis_buffer x))%Z ->
  vsize (copy_segment x samples channels start) = vsize (analysis_buffer x).
Proof.
  intros Hfit; unfold copy_segment.
  destruct (map_loop 0
              (fun i (_ : R) =>
                 if (channels =? 1)%Z then vget 0 samples (start + i)
                 else (vget 0 samples ((start + i) * 2)
                       + vget 0 samples ((start + i) * 2 + 1)) * 0.5)
              (copy_sample samples channels start)
              (fft_size x) (analysis_buffer x)) as [H _].
  { intros i w; unfold copy_sample; destruct (channels =? 1)%Z; reflexivity. }
  { exact Hfit. }
  unfold vsize; f_equal; exact H.
Qed.

Lemma capture_from_fields x (samples : list R) (frames channels : Z) :
  let y := fst (capture_from (set_capturing_spectrum x true)
                  samples frames channels) in
  fft_size y = fft_size x /\ hop_size y = hop_size x /\
  window y = window x /\
  frozen_spectrum y
  = normalize_spectrum (fft_size x)
      (analysis_spectrum x samples frames channels) /\
  fft_buffer y = frozen_spectrum y /\
  analysis_buffer y
  = chiller_apply_window (captured_segment x samples frames channels)
      (window x) /\
  overlap_buffer_l y = fill_zero (overlap_buffer_l x) /\
  overlap_buffer_r y = fill_zero (overlap_buffer_r x) /\
  position y = position x /\ overlap_amount y = overlap_amount x /\
  grain_rate y = grain_rate x /\ phase_randomness y = phase_randomness x /\
  amplitude_variation y = amplitude_variation x /\
  hop_counter y = 0%Z /\ capturing_spectrum y = false.
Proof. destruct x; repeat split; reflexivity. Qed.

Lemma analysis_spectrum_size x (samples : list R) (frames channels : Z) :
  engine_ok x ->
  vsize (analysis_spectrum x samples frames channels) = fft_size x.
Proof.
  intros ((p & Hp & Hn) & _ & (_ & Hw & _ & _ & Hfb & Hab) & _).
  unfold analysis_spectrum, captured_segment.
  assert (Hseg : vsize (chiller_apply_window
                          (copy_segment x samples channels
                             (start_frame x frames)) (window x))
                 = fft_size x)
    by (rewrite apply_window_size, copy_segment_size; lia).
  rewrite (chiller_fft_size p); rewrite ?to_complex_size; try lia.
  unfold long_bits; lia.
Qed.

Lemma capture_ok (h : host) x :
  engine_ok x -> engine_ok (fst (chiller_capture_spectrum h x)).
Proof.
  intros Hok.
  destruct (capture_source h x) as [[[samples frames] channels]|] eqn:Hsrc.
  - destruct (capture_source_some h x _ _ _ Hsrc) as [_ ->].
    pose proof (analysis_spectrum_size x samples frames channels Hok) as Hsp.
    destruct (capture_from_fields x samples frames channels)
      as (E1 & E2 & E3 & E4 & E5 & E6 & E7 & E8 & E9 & E10 & E11 & E12 & E13
          & E14 & E15).
    destruct Hok as (Hp & Hh & (Hf & Hw & Hl & Hr & Hfb & Hab) & Hpar & _ & _).
    unfold engine_ok.
    rewrite E5, E4, E1, E2, E3, E6, E7, E8, E9, E10, E11, E12, E13, E14, E15.
    rewrite normalize_spectrum_size, apply_window_size, !fill_zero_size.
    unfold captured_segment; rewrite copy_segment_size by lia.
    repeat split; try tauto; try lia.
  - replace (fst (chiller_capture_spectrum h x)) with x; [exact Hok|].
    destruct Hok as (_ & _ & _ & _ & _ & Hidle).
    unfold capture_source in Hsrc; unfold chiller_capture_spectrum.
    destruct (buffer_ref x) as [ref|]; [|reflexivity].
    destruct (buffer_ref_getobject h ref) as [b|];
      [|cbn [fst]; now rewrite capturing_restore].
    destruct (buffer_locksamples b) as [s|];
      [|cbn [fst]; now rewrite capturing_restore].
    replace (fft_size (set_capturing_spectrum x true)) with (fft_size x)
      by (destruct x; reflexivity).
    destruct (_ <? _)%Z; [|discriminate].
    cbn [fst]; now rewrite capturing_restore.
Qed.

Lemma dispatch_ok (h : host) x (c : command) :
  engine_ok x -> engine_ok (dispatch h x c).
Proof.
  intros Hok; destruct c; cbn [dispatch].
  - revert Hok; apply engine_ok_frame; destruct x; reflexivity.
  - unfold chiller_set_position.
    destruct (Rlt_dec _ _); [exact Hok|].
    assert (Hok' : engine_ok
                     (set_last_position_change_time
                        (set_position x (CLAMP pos 0 1)) current_time)).
    { pose proof (CLAMP_range pos 0 1 ltac:(lra)).
      destruct x; unfold engine_ok in *; fields; tauto. }
    destruct (negb _); [|exact Hok'].
    apply capture_ok; revert Hok'; apply engine_ok_frame;
      destruct x; reflexivity.
  - pose proof (CLAMP_range overlap 1 8 ltac:(lra)).
    destruct x; unfold engine_ok in *; fields; tauto.
  - pose proof (CLAMP_range rate 0.1 4 ltac:(lra)).
    destruct x; unfold engine_ok in *; fields; tauto.
  - pose proof (CLAMP_range rand_amount 0 1 ltac:(lra)).
    destruct x; unfold engine_ok in *; fields; tauto.
  - pose proof (CLAMP_range var_amount 0 0.5 ltac:(lra)).
    destruct x; unfold engine_ok in *; fields; tauto.
  - now apply capture_ok.
  - exact Hok.
  - unfold chiller_notify; destruct (String.eqb _ _); [|exact Hok].
    revert Hok; apply engine_ok_frame; destruct x; reflexivity.
  - revert Hok; apply engine_ok_frame; destruct x; reflexivity.
Qed.

End Invariant.

Section InvariantAudio.

Context {rng_state : Type}.
Variable phase_dist : rng_state -> R * rng_state.
Variable amp_dist : rng_state -> R * rng_state.

Implicit Types x y : t_chiller rng_state.

Lemma grain_loop_size x (g : rng_state) (fb : list C) :
  length (snd (for_loop 0 (vsize (frozen_spectrum x)) 1
                 (grain_bin phase_dist amp_dist x) (g, fb)))
  = length fb.
Proof.
  unfold for_loop.
  apply (for_count_ind (grain_bin phase_dist amp_dist x) 1 _
           (fun _ st => length (snd st) = length fb)); [reflexivity|].
  intros j [g' fb'] _ Hlen; unfold grain_bin.
  destruct (phase_dist g') as [ph g1], (amp_dist g1) as [a g2].
  cbn [snd] in *; now rewrite vset_length.
Qed.

Lemma generate_grain_fields x :
  let y := generate_grain phase_dist amp_dist x in
  fft_size y = fft_size x /\ hop_size y = hop_size x /\
  frozen_spectrum y = frozen_spectrum x /\ window y = window x /\
  analysis_buffer y = analysis_buffer x /\
  position y = position x /\ overlap_amount y = overlap_amount x /\
  grain_rate y = grain_rate x /\ phase_randomness y = phase_randomness x /\
  amplitude_variation y = amplitude_variation x /\
  hop_counter y = hop_counter x /\
  capturing_spectrum y = capturing_spectrum x /\
  fft_buffer y
  = chiller_ifft
      (snd (for_loop 0 (vsize (frozen_spectrum x)) 1
              (grain_bin phase_dist amp_dist x) (rng x, fft_buffer x))).
Proof.
  cbv zeta; unfold generate_grain.
  destruct (for_loop 0 (vsize (frozen_spectrum x)) 1 _ _) as [g fb].
  match goal with
  | |- context [for_loop 0 ?n 1 (overlap_add ?b ?w) (?l, ?r)] =>
    destruct (for_loop 0 n 1 (overlap_add b w) (l, r)) as [l' r']
  end.
  destruct x; repeat split; reflexivity.
Qed.

Lemma generate_grain_ok x :
  engine_ok x -> engine_ok (generate_grain phase_dist amp_dist x).
Proof.
  intros Hok.
  destruct (generate_grain_fields x)
    as (E1 & E2 & E3 & E4 & E5 & E6 & E7 & E8 & E9 & E10 & E11 & E12 & E13).
  destruct (generate_grain_sizes phase_dist amp_dist x) as [Hl Hr].
  destruct Hok as ((p & Hp & Hn) & Hh & (Hf & Hw & Hol & Hor & Hfb & Hab)
                   & Hpar & Hhop & Hidle).
  unfold engine_ok.
  rewrite E1, E2, E3, E4, E5, E6, E7, E8, E9, E10, E11, E12, E13.
  assert (Hgl : vsize (snd (for_loop 0 (vsize (frozen_spectrum x)) 1
                              (grain_bin phase_dist amp_dist x)
                              (rng x, fft_buffer x)))
                = fft_size x)
    by (unfold vsize at 1; rewrite grain_loop_size; exact Hfb).
  rewrite (chiller_ifft_size p), Hgl by (unfold long_bits; lia).
  unfold vsize in *; rewrite Hl, Hr.
  repeat split; try tauto; try lia; eauto.
Qed.

Lemma hop_tick_ok x :
  engine_ok x -> engine_ok (hop_tick phase_dist amp_dist x).
Proof.
  intros Hok; unfold hop_tick.
  assert (Hsame : forall c, (0 <= c <= 20480)%Z ->
                            engine_ok (set_hop_counter x c)).
  { intros c Hc; destruct x; unfold engine_ok in *; fields; tauto. }
  destruct (Rge_dec _ _) as [_|Hlt].
  - apply generate_grain_ok.
    replace (set_hop_counter (set_hop_counter x (hop_counter x + 1)) 0)
      with (set_hop_counter x 0) by (destruct x; reflexivity).
    apply Hsame; lia.
  - apply Hsame.
    replace (hop_counter (set_hop_counter x (hop_counter x + 1)))
      with (hop_counter x + 1)%Z in Hlt by (destruct x; reflexivity).
    replace (hop_size (set_hop_counter x (hop_counter x + 1)))
      with (hop_size x) in Hlt by (destruct x; reflexivity).
    replace (grain_rate (set_hop_counter x (hop_counter x + 1)))
      with (grain_rate x) in Hlt by (destruct x; reflexivity).
    destruct Hok as ((p & Hp & Hn) & Hh & _ & (_ & _ & Hrate & _) & Hhop & _).
    split; [lia|].
    (* below the trigger: hop_counter + 1 < hop_size / grain_rate <= 20480 *)
    assert (Hhs : (hop_size x <= 2048)%Z).
    { rewrite Hh, Hn.
      assert ((2 ^ Z.of_nat p <= 2 ^ 13)%Z)
        by (apply Z.pow_le_mono_r; lia).
      apply Z.div_le_upper_bound; lia. }
    apply Z.lt_le_incl, lt_IZR.
    apply Rnot_ge_lt in Hlt.
    assert (Hq : IZR (hop_size x) / grain_rate x <= 20480).
    { apply IZR_le in Hhs.
      apply Rmult_le_reg_r with (grain_rate x); [lra|].
      unfold Rdiv; rewrite Rmult_assoc, Rinv_l by lra; nra. }
    lra.
Qed.

Lemma shift_overlap_ok x : engine_ok x -> engine_ok (shift_overlap x).
Proof.
  intros Hok.
  destruct (shift_overlap_tail x) as [Hl Hr].
  { destruct Hok as ((p & Hp & Hn) & _ & (_ & _ & Hol & _) & _).
    pose proof (pow2_pos p); lia. }
  { destruct Hok as (_ & _ & (_ & _ & Hol & Hor & _) & _); lia. }
  assert (Hsize : forall l : list R,
            (1 <= vsize l)%Z -> vsize (tl l ++ [0]) = vsize l).
  { intros [|a l] Hl1; unfold vsize in *; cbn [tl length] in *; [lia|].
    rewrite length_app; cbn [length]; lia. }
  assert (Hrest :
    fft_size (shift_overlap x) = fft_size x /\
    hop_size (shift_overlap x) = hop_size x /\
    frozen_spectrum (shift_overlap x) = frozen_spectrum x /\
    window (shift_overlap x) = window x /\
    fft_buffer (shift_overlap x) = fft_buffer x /\
    analysis_buffer (shift_overlap x) = analysis_buffer x /\
    position (shift_overlap x) = position x /\
    overlap_amount (shift_overlap x) = overlap_amount x /\
    grain_rate (shift_overlap x) = grain_rate x /\
    phase_randomness (shift_overlap x) = phase_randomness x /\
    amplitude_variation (shift_overlap x) = amplitude_variation x /\
    hop_counter (shift_overlap x) = hop_counter x /\
    capturing_spectrum (shift_overlap x) = capturing_spectrum x).
  { unfold shift_overlap.
    destruct (for_loop 0 _ 1 shift_step _) as [l r].
    destruct x; repeat split; reflexivity. }
  destruct Hrest
    as (E1 & E2 & E3 & E4 & E5 & E6 & E7 & E8 & E9 & E10 & E11 & E12 & E13).
  destruct Hok as ((p & Hp & Hn) & Hh & (Hf & Hw & Hol & Hor & Hfb & Hab)
                   & Hpar & Hhop & Hidle).
  pose proof (pow2_pos p).
  unfold engine_ok.
  rewrite E1, E2, E3, E4, E5, E6, E7, E8, E9, E10, E11, E12, E13, Hl, Hr.
  rewrite !Hsize by lia.
  repeat split; try tauto; try lia; eauto.
Qed.

Lemma perform64_ok x (outs : list R * list R) (sampleframes : Z) :
  engine_ok x ->
  engine_ok (fst (chiller_perform64 phase_dist amp_dist x outs sampleframes)).
Proof.
  intros Hok; unfold chiller_perform64.
  destruct (negb _ || _); [exact Hok|].
  unfold for_loop.
  apply (for_count_ind (sample_step phase_dist amp_dist) 1 _
           (fun _ st => engine_ok (fst st))); [exact Hok|].
  intros j [y [out_l out_r]] _ Hy; cbn [fst] in Hy.
  unfold sample_step, emit_and_shift; cbn [fst].
  now apply shift_overlap_ok, hop_tick_ok.
Qed.

Lemma chiller_new_ok (seed : rng_state) (h : host) (argv : list t_atom) :
  engine_ok (fst (chiller_new seed h argv)).
Proof.
  unfold chiller_new.
  destruct (parse_fft_size argv) as [n msgs] eqn:Hparse.
  assert (Hn : exists p : nat, (9 <= p <= 13)%nat /\ n = (2 ^ Z.of_nat p)%Z).
  { unfold parse_fft_size in Hparse.
    assert (Hdefault : exists p : nat,
              (9 <= p <= 13)%nat
              /\ CHILLER_DEFAULT_FFT_SIZE = (2 ^ Z.of_nat p)%Z)
      by (exists 11%nat; split; [lia | reflexivity]).
    destruct argv as [|[r| |] ?]; try (injection Hparse as <- _; exact Hdefault).
    destruct (valid_fft_size r) eqn:Hv; injection Hparse as <- _;
      [now apply valid_fft_size_pow2 | exact Hdefault]. }
  destruct Hn as (p & Hp & Hn).
  assert (Hpos : (0 <= n)%Z) by (pose proof (pow2_pos p); lia).
  match goal with
  | |- engine_ok (fst (match argv with _ => _ end, _)) =>
    cbn [fst];
    match goal with
    | |- engine_ok (match argv with
                    | [] => ?x0
                    | _ => _
                    end) =>
      assert (Hok : engine_ok x0)
    end
  end.
  { unfold engine_ok; fields.
    rewrite generate_window_size, !vsize_vector by (rewrite ?vsize_vector; lia).
    repeat split; try lra; try lia; eauto. }
  assert (Hset : forall s, engine_ok (fst (chiller_set_buffer h _ s)))
    by (intros s; exact (dispatch_ok h _ (cmd_set s) Hok)).
  destruct argv as [|[?|?|?] [|[?|?|?] ?]]; auto.
Qed.

(** Every engine the host can hold satisfies the invariant. *)
Lemma reachable_engine_ok (seed : rng_state) (h : host) (argv : list t_atom)
  (tr : list event) :
  engine_ok (run phase_dist amp_dist (fst (chiller_new seed h argv)) tr).
Proof.
  unfold run; generalize (chiller_new_ok seed h argv).
  generalize (fst (chiller_new seed h argv)).
  induction tr as [|e tr IH]; intros x Hok; cbn [fold_left]; [exact Hok|].
  apply IH; destruct e as [h' c | outs n]; cbn [step].
  - now apply dispatch_ok.
  - now apply perform64_ok.
Qed.

End InvariantAudio.

(** ** The model on concrete inputs *)

Example bit_reverse_8 :
  map fst (bit_reverse 8 (map (fun k => (IZR k, 0)) [0; 1; 2; 3; 4; 5; 6; 7]%Z))
  = map IZR [0; 4; 2; 6; 1; 5; 3; 7]%Z.
Proof. cbv -[IZR]; reflexivity. Qed.

Example fft_impulse : chiller_fft [C1; C0; C0; C0] = [C1; C1; C1; C1].
Proof.
  cbv -[cos sin PI IZR Rdiv Rminus Rplus Rmult Ropp].
  repeat (f_equal; try ring).
Qed.

Example fft_pair : chiller_fft [(3, 0); (1, 0)] = [(4, 0); (2, 0)].
Proof.
  cbv -[cos sin PI IZR Rdiv Rminus Rplus Rmult Ropp].
  repeat (f_equal; try ring).
Qed.

(** The kernel is exp (+ 2 PI i k / 4): a unit at rank 1 gives the powers
    of [i]. *)
Example fft_rank_1 :
  chiller_fft [C0; C1; C0; C0] = [(1, 0); (0, 1); (-1, 0); (0, -1)].
Proof.
  cbv -[cos sin PI IZR Rdiv Rminus Rplus Rmult Ropp].
  replace (2 * PI / 4) with (PI / 2) by field.
  rewrite cos_PI2, sin_PI2; repeat (f_equal; try ring).
Qed.

Example clamp_overlap :
  CLAMP (-5) 1 8 = 1 /\ CLAMP 100 1 8 = 8 /\ CLAMP 3 1 8 = 3.
Proof.
  unfold CLAMP; repeat split;
    repeat match goal with
           | |- context [Rgt_dec ?a ?b] => destruct (Rgt_dec a b)
           | |- context [Rlt_dec ?a ?b] => destruct (Rlt_dec a b)
           end; lra.
Qed.

Example new_engine_is_idle :
  spectrum_captured demo_engine = false /\ fft_size demo_engine = 512%Z /\
  hop_size demo_engine = 128%Z /\ buffer_ref demo_engine = None.
Proof. repeat split. Qed.

Example freeze_captures :
  spectrum_captured demo_frozen = true /\ hop_counter demo_frozen = 0%Z.
Proof. split; reflexivity. Qed.

(** ** Instances of the theorems *)

Lemma ifft_inverts_fft_witness :
  (9 <= long_bits)%nat /\ length (repeat C1 512) = (2 ^ 9)%nat /\
  chiller_ifft (repeat C1 512)
  = map (fun z => Cdivr (Cconj z) (INR (length (repeat C1 512))))
        (chiller_fft (map Cconj (repeat C1 512))) /\
  chiller_ifft (chiller_fft (repeat C1 512)) = repeat C1 512.
Proof.
  assert (H1 : (9 <= long_bits)%nat) by (unfold long_bits; lia).
  assert (H2 : length (repeat C1 512) = (2 ^ 9)%nat) by reflexivity.
  split; [exact H1|]; split; [exact H2|].
  exact (ifft_inverts_fft 9 (repeat C1 512) H1 H2).
Defined.


Lemma perform64_silence_witness :
  spectrum_captured demo_engine = false /\
  exists l r,
    chiller_perform64 demo_draw demo_draw demo_engine ([1; 1; 1], [1; 1; 1]) 2
    = (demo_engine, (l, r)) /\
    length l = 3%nat /\ length r = 3%nat /\
    (forall i, (0 <= i < 2)%Z -> vget 0 l i = 0 /\ vget 0 r i = 0) /\
    (forall i, (0 <= i)%Z -> (2 <= i)%Z ->
       vget 0 l i = vget 0 [1; 1; 1] i /\ vget 0 r i = vget 0 [1; 1; 1] i).
Proof.
  assert (H : spectrum_captured demo_engine = false) by reflexivity.
  split; [exact H|].
  exact (perform64_silence demo_draw demo_draw demo_engine
           [1; 1; 1] [1; 1; 1] 2 (or_introl H)).
Defined.

Lemma failed_capture_witness :
  capture_failure demo_host demo_unresolved /\
  capturing_spectrum demo_unresolved = false /\
  fst (chiller_capture_spectrum demo_host demo_unresolved) = demo_unresolved.
Proof.
  assert (H1 : capture_failure demo_host demo_unresolved)
    by (apply source_not_resolvable with (ref := {| ref_name := "nowhere"%string |});
        reflexivity).
  assert (H2 : capturing_spectrum demo_unresolved = false) by reflexivity.
  split; [exact H1|]; split; [exact H2|].
  exact (proj1 (failed_capture_leaves_engine demo_host demo_unresolved H1 H2)).
Defined.

Lemma position_debounce_witness :
  chiller_set_position demo_host demo_bound 100 0.25 = (demo_bound, []) /\
  let y := fst (chiller_set_position demo_host demo_bound 1000 0.25) in
  position y = CLAMP 0.25 0 1 /\ 0 <= position y <= 1 /\
  last_position_change_time y = 1000 /\
  chiller_set_position demo_host y 1200 0.75 = (y, []).
Proof.
  assert (Hlast : last_position_change_time demo_bound = 0) by reflexivity.
  split.
  - apply (proj1 (position_debounce demo_host demo_host demo_bound
                    100 0.25 0 0)).
    rewrite Hlast; lra.
  - destruct (proj2 (position_debounce demo_host demo_host demo_bound
                       1000 0.25 1200 0.75))
      as (Hp & Hr & Ht & Hdrop); [rewrite Hlast; lra|].
    repeat split; try assumption; try apply Hr.
    apply Hdrop; lra.
Defined.

Lemma sample_step_witness :
  spectrum_captured demo_playing = true /\
  buffer_ref demo_playing = Some {| ref_name := "loop"%string |} /\
  (1 <= vsize (overlap_buffer_l demo_playing))%Z /\
  vsize (overlap_buffer_r demo_playing) = vsize (overlap_buffer_l demo_playing)
  /\
  let st := sample_step demo_draw demo_draw 0 (demo_playing, ([1], [1])) in
  vget 0 (fst (snd st)) 0 = 3 * 0.1 /\
  vget 0 (snd (snd st)) 0 = 2 * 0.1 /\
  overlap_buffer_l (fst st) = 5 :: 7 :: repeat 0 509 ++ [0] /\
  overlap_buffer_r (fst st) = 4 :: 6 :: repeat 0 509 ++ [0].
Proof.
  assert (H1 : spectrum_captured demo_playing = true) by reflexivity.
  assert (H2 : buffer_ref demo_playing = Some {| ref_name := "loop"%string |})
    by reflexivity.
  assert (H3 : (1 <= vsize (overlap_buffer_l demo_playing))%Z)
    by (lazy; discriminate).
  assert (H4 : vsize (overlap_buffer_r demo_playing)
               = vsize (overlap_buffer_l demo_playing)) by reflexivity.
  assert (H5 : (0 <= 0 < vsize [1])%Z) by (unfold vsize; simpl; lia).
  assert (H6 : (0 < vsize [1])%Z) by (unfold vsize; simpl; lia).
  assert (Hidle : IZR (hop_counter demo_playing + 1)
                  < IZR (hop_size demo_playing) / grain_rate demo_playing).
  { change (hop_counter demo_playing) with 0%Z.
    change (hop_size demo_playing) with 128%Z.
    change (grain_rate demo_playing) with 1.
    change (0 + 1)%Z with 1%Z; lra. }
  destruct (sample_step_emits_and_shifts demo_draw demo_draw demo_playing
              [1] [1] 0 {| ref_name := "loop"%string |} H1 H2 H3 H4 H5 H6)
    as (_ & Hl & Hr & _ & _ & Htl & Htr & _).
  rewrite (hop_tick_idle demo_draw demo_draw demo_playing Hidle)
    in Hl, Hr, Htl, Htr.
  split; [exact H1|]; split; [exact H2|]; split; [exact H3|].
  split; [exact H4|]; split; [exact Hl|]; split; [exact Hr|].
  split; [exact Htl | exact Htr].
Defined.


Lemma generate_window_witness :
  (2 <= 512)%Z /\ (512 <= vsize (vector 512 0))%Z /\
  window demo_engine = chiller_generate_window (vector 512 0) 512 /\
  vget 0 (window demo_engine) 0 = 0 /\ vget 0 (window demo_engine) 511 = 0 /\
  vget 0 (window demo_engine) 128
  = 0.5 * (1 - cos (2 * PI * 128 / 511)).
Proof.
  assert (H1 : (2 <= 512)%Z) by lia.
  assert (H2 : (512 <= vsize (vector 512 0))%Z) by (lazy; discriminate).
  destruct (generate_window_hann (vector 512 0) 512 H1 H2)
    as (_ & Hget & _ & Hfirst & Hlast).
  change (chiller_generate_window (vector 512 0) 512)
    with (window demo_engine) in *.
  split; [exact H1|]; split; [exact H2|]; split; [reflexivity|].
  split; [exact Hfirst|]; split; [exact Hlast|].
  apply (Hget 128%Z); lia.
Defined.

Lemma set_buffer_silences_witness :
  spectrum_captured demo_unresolved = false /\
  no_successful_capture demo_draw demo_draw demo_unresolved demo_trace /\
  exists l r,
    chiller_perform64 demo_draw demo_draw
      (run demo_draw demo_draw demo_unresolved demo_trace) ([1; 1], [1; 1]) 2
    = (run demo_draw demo_draw demo_unresolved demo_trace, (l, r)) /\
    length l = 2%nat /\ length r = 2%nat /\
    forall i, (0 <= i < 2)%Z -> vget 0 l i = 0 /\ vget 0 r i = 0.
Proof.
  assert (Htrace : no_successful_capture demo_draw demo_draw
                     demo_unresolved demo_trace)
    by (lazy; repeat split).
  destruct (set_buffer_silences demo_draw demo_draw demo_host demo_engine
              "nowhere"%string) as (Hunc & _ & _ & _ & _ & _ & _ & _ & _ & _
                                    & _ & _ & Hsilent).
  split; [exact Hunc|]; split; [exact Htrace|].
  destruct (Hsilent demo_trace Htrace [1; 1] [1; 1] 2%Z)
    as (l & r & E & Hl & Hr & Hzero & _).
  exists l, r; split; [exact E|]; split; [exact Hl|]; split; [exact Hr|].
  exact Hzero.
Defined.

(** * Further properties of the code *)

(** ** The transform pair *)

(** X1. For a vector of power-of-two length, [chiller_fft] keeps the length
    and leaves at rank [k] the sum over [m] of
    [data[m] * exp (+ 2 PI i m k / N)]: the discrete Fourier transform with
    the positive-exponent kernel.  An empty vector is returned as it is. *)
Theorem fft_is_dft (p : nat) (data : list C) :
  (p <= long_bits)%nat -> length data = (2 ^ p)%nat ->
  length (chiller_fft data) = length data /\
  (forall k, (0 <= k < vsize data)%Z ->
     vget C0 (chiller_fft data) k = dft data k) /\
  chiller_fft [] = [].
Proof.
  intros Hp Hlen; destruct (chiller_fft_dft p data Hp Hlen) as [H1 H2].
  repeat split; assumption.
Qed.

(** X2. For a vector of power-of-two length, [chiller_ifft] keeps the length
    and leaves at rank [k] the sum over [m] of
    [data[m] * exp (- 2 PI i m k / N)] divided by [N]. *)
Theorem ifft_is_inverse_dft (p : nat) (data : list C) :
  (p <= long_bits)%nat -> length data = (2 ^ p)%nat ->
  length (chiller_ifft data) = length data /\
  forall k, (0 <= k < vsize data)%Z ->
    vget C0 (chiller_ifft data) k
    = Cdivr (dft_conj data k) (INR (length data)).
Proof. intros Hp Hlen; exact (chiller_ifft_dft p data Hp Hlen). Qed.

Lemma Csum_divr (n : nat) (f : Z -> C) (r : R) :
  Csum n (fun i => Cdivr (f i) r) = Cdivr (Csum n f) r.
Proof.
  induction n as [|n IH]; cbn [Csum].
  - apply injective_projections; unfold Cdivr, C0, Rdiv; cbn [fst snd]; ring.
  - rewrite IH; apply injective_projections;
      unfold Cdivr, Cadd, Rdiv; cbn [fst snd]; ring.
Qed.

Lemma fft_ifft_entry (p : nat) (x : list C) (k : Z) :
  (p <= long_bits)%nat -> length x = (2 ^ p)%nat ->
  (0 <= k < vsize x)%Z ->
  vget C0 (chiller_fft (chiller_ifft x)) k = vget C0 x k.
Proof.
  intros Hp Hlen Hk.
  destruct (chiller_ifft_dft p x Hp Hlen) as [Hilen Hifft].
  destruct (chiller_fft_dft p (chiller_ifft x) Hp) as [_ Hfft];
    [congruence|].
  assert (Hpos : (0 < length x)%nat).
  { rewrite Hlen; apply Nat.neq_0_lt_0, Nat.pow_nonzero; lia. }
  assert (HN : 0 < INR (length x)) by (apply lt_0_INR; exact Hpos).
  rewrite Hfft by (unfold vsize in *; lia).
  unfold dft; rewrite Hilen.
  rewrite (Csum_ext _ _
    (fun m => Cdivr
       (Csum (length x)
          (fun j => Cmul (vget C0 x j)
             (Cmul (cis (2 * PI * IZR (k * m) / INR (length x)))
                   (Cconj (cis (2 * PI * IZR (m * j) / INR (length x)))))))
       (INR (length x)))).
  2:{ intros m Hm; rewrite Hifft by (unfold vsize; lia).
      unfold dft_conj.
      rewrite (Z.mul_comm m k).
      transitivity
        (Cdivr (Cmul (Csum (length x)
                        (fun j => Cmul (vget C0 x j)
                           (Cconj (cis (2 * PI * IZR (j * m)
                                        / INR (length x))))))
                     (cis (2 * PI * IZR (k * m) / INR (length x))))
               (INR (length x))).
      { apply injective_projections;
          unfold Cdivr, Cmul, Rdiv; cbn [fst snd]; ring. }
      f_equal; rewrite <- Csum_mul_r.
      apply Csum_ext; intros j Hj; rewrite (Z.mul_comm j m); cring. }
  rewrite Csum_divr, Csum_swap.
  rewrite (Csum_ext _ _
    (fun j => Cmul (vget C0 x j)
                (if (j =? k)%Z then (INR (length x), 0) else C0))).
  2:{ intros j Hj; rewrite Csum_mul_l, roots_orthogonal;
        [rewrite Z.eqb_sym; reflexivity | exact Hpos
         | unfold vsize in Hk; lia | lia]. }
  rewrite Csum_single by (unfold vsize in Hk; lia).
  apply injective_projections; unfold Cdivr, Cmul; cbn [fst snd]; field; lra.
Qed.

(** X3. The round trip in the other order: for a vector of power-of-two
    length, [chiller_fft (chiller_ifft x)] is [x]. *)
Theorem fft_inverts_ifft (p : nat) (x : list C) :
  (p <= long_bits)%nat -> length x = (2 ^ p)%nat ->
  chiller_fft (chiller_ifft x) = x.
Proof.
  intros Hp Hlen.
  destruct (chiller_ifft_dft p x Hp Hlen) as [Hilen _].
  destruct (chiller_fft_dft p (chiller_ifft x) Hp) as [Hflen _];
    [congruence|].
  apply (vget_ext C0); [congruence|].
  intros k Hk; apply (fft_ifft_entry p); try assumption.
  unfold vsize in *; lia.
Qed.

Lemma Csum_real (n : nat) (f : Z -> R) :
  Csum n (fun i => (f i, 0)) = (Rsum n f, 0).
Proof.
  induction n as [|n IH]; cbn [Csum Rsum]; [reflexivity|].
  rewrite IH; cring.
Qed.

(** The conjugate-kernel transform of a spectrum gives the input back, [N]
    times. *)
Lemma dft_conj_of_fft (p : nat) (x : list C) (j : Z) :
  (p <= long_bits)%nat -> length x = (2 ^ p)%nat ->
  (0 <= j < vsize x)%Z ->
  dft_conj (chiller_fft x) j = Cscale (vget C0 x j) (INR (length x)).
Proof.
  intros Hp Hlen Hj.
  destruct (chiller_fft_dft p x Hp Hlen) as [Hflen _].
  destruct (chiller_ifft_dft p (chiller_fft x) Hp) as [_ Hifft];
    [congruence|].
  pose proof (ifft_fft_entry p x j Hp Hlen Hj) as Hback.
  rewrite Hifft, Hflen in Hback by (unfold vsize in *; lia).
  assert (HN : 0 < INR (length x)).
  { apply lt_0_INR; rewrite Hlen.
    apply Nat.neq_0_lt_0, Nat.pow_nonzero; lia. }
  rewrite <- Hback.
  apply injective_projections; unfold Cscale, Cdivr; cbn [fst snd];
    field; lra.
Qed.

Lemma Cmul_conj_norm (z : C) : Cmul z (Cconj z) = (Cnorm2 z, 0).
Proof. unfold Cnorm2; cring. Qed.

(** X4. Parseval: for a vector of power-of-two length, the energy
    [spectrum_energy] measures on the output of [chiller_fft] is [N] times
    the energy of its input. *)
Theorem fft_energy (p : nat) (x : list C) :
  (p <= long_bits)%nat -> length x = (2 ^ p)%nat ->
  spectrum_energy (chiller_fft x) = INR (length x) * spectrum_energy x.
Proof.
  intros Hp Hlen.
  destruct (chiller_fft_dft p x Hp Hlen) as [Hflen Hfft].
  rewrite !spectrum_energy_sum, Hflen.
  enough (H : (Rsum (length x) (fun i => Cnorm2 (vget C0 (chiller_fft x) i)),
               0)
              = (INR (length x)
                 * Rsum (length x) (fun i => Cnorm2 (vget C0 x i)), 0))
    by (apply pair_equal_spec in H; tauto).
  rewrite <- Csum_real.
  rewrite (Csum_ext _ _
    (fun k => Csum (length x)
       (fun m => Cmul (Cconj (vget C0 x m))
          (Cmul (vget C0 (chiller_fft x) k)
             (Cconj (cis (2 * PI * IZR (k * m) / INR (length x)))))))).
  2:{ intros k Hk; rewrite <- Cmul_conj_norm.
      rewrite (Hfft k) at 2 by (unfold vsize; lia).
      unfold dft; rewrite <- Csum_conj, <- Csum_mul_l.
      apply Csum_ext; intros m Hm.
      rewrite Cconj_mul, (Z.mul_comm m k); cring. }
  rewrite Csum_swap.
  rewrite (Csum_ext _ _
    (fun m => (INR (length x) * Cnorm2 (vget C0 x m), 0))).
  2:{ intros m Hm; rewrite Csum_mul_l.
      fold (dft_conj (chiller_fft x) m) || idtac.
      replace (Csum (length x)
                 (fun k => Cmul (vget C0 (chiller_fft x) k)
                    (Cconj (cis (2 * PI * IZR (k * m) / INR (length x))))))
        with (dft_conj (chiller_fft x) m)
        by (unfold dft_conj; rewrite Hflen; reflexivity).
      rewrite (dft_conj_of_fft p) by (unfold vsize; auto; lia).
      unfold Cnorm2; cring. }
  rewrite Csum_real; f_equal.
  apply Rsum_scal.
Qed.

(** X5. The reordering loop of [chiller_fft] on a vector of power-of-two
    length: entry [k] receives the entry whose rank is [k] with its [p] bits
    reversed, and running the loop a second time restores the vector. *)
Theorem bit_reverse_involutive (p : nat) (data : list C) :
  (p <= long_bits)%nat -> length data = (2 ^ p)%nat ->
  (forall k, (0 <= k < vsize data)%Z ->
     vget C0 (bit_reverse (vsize data) data) k = vget C0 data (bitrev p k)) /\
  bit_reverse (vsize data) (bit_reverse (vsize data) data) = data.
Proof.
  intros Hp Hlen; pose proof (length_pow2 p data Hlen) as Hn.
  destruct p as [|q].
  - change (2 ^ Z.of_nat 0)%Z with 1%Z in Hn; rewrite Hn.
    unfold bit_reverse; repeat (rewrite for_loop_empty by lia; cbn [snd]).
    split; [|reflexivity].
    intros k Hk; assert (k = 0%Z) by lia; subst k; reflexivity.
  - destruct (bit_reverse_spec q data ltac:(unfold long_bits in *; lia) Hn)
      as [Hrlen Hrev].
    split; [exact Hrev|].
    assert (Hsz : vsize (bit_reverse (vsize data) data) = vsize data)
      by (unfold vsize; f_equal; exact Hrlen).
    destruct (bit_reverse_spec q (bit_reverse (vsize data) data)
                ltac:(unfold long_bits in *; lia) ltac:(lia))
      as [Hrlen2 Hrev2].
    rewrite Hsz in *.
    apply (vget_ext C0); [congruence|].
    intros k Hk.
    assert (Hk' : (0 <= k < vsize data)%Z) by (unfold vsize in *; lia).
    pose proof (bitrev_range (S q) k).
    rewrite Hrev2, Hrev, bitrev_involutive by lia; reflexivity.
Qed.

(** X6. A real input has a conjugate-symmetric spectrum: when every entry of
    a vector of power-of-two length has imaginary part 0, the output of
    [chiller_fft] at rank [N - k] is the conjugate of its output at rank
    [k], for 0 < k < N. *)
Theorem fft_real_input_symmetric (p : nat) (data : list C) (k : Z) :
  (p <= long_bits)%nat -> length data = (2 ^ p)%nat ->
  (forall m, (0 <= m < vsize data)%Z -> snd (vget C0 data m) = 0) ->
  (0 < k < vsize data)%Z ->
  vget C0 (chiller_fft data) (vsize data - k)
  = Cconj (vget C0 (chiller_fft data) k).
Proof.
  intros Hp Hlen Hreal Hk.
  destruct (chiller_fft_dft p data Hp Hlen) as [_ Hfft].
  rewrite !Hfft by lia; unfold dft.
  rewrite <- Csum_conj; apply Csum_ext; intros m Hm.
  assert (HN : 0 < INR (length data)) by (apply lt_0_INR; lia).
  rewrite Cconj_mul, Cconj_cis.
  replace (2 * PI * IZR (m * (vsize data - k)) / INR (length data))
    with (- (2 * PI * IZR (m * k) / INR (length data)) + 2 * PI * IZR m).
  2:{ unfold vsize; rewrite !mult_IZR, minus_IZR, <- INR_IZR_INZ.
      field; lra. }
  rewrite cis_turns by lia; f_equal.
  specialize (Hreal m ltac:(unfold vsize; lia)).
  destruct (vget C0 data m) as [a b]; cbn [snd] in Hreal; subst b.
  unfold Cconj; cbn [fst snd]; f_equal; ring.
Qed.

(** ** The window *)

(** X7. [chiller_apply_window], for any two vectors: the buffer keeps its
    size, every entry below the smaller of the two sizes is multiplied by the
    window coefficient of the same rank, and the entries from there on are
    not touched. *)
Theorem apply_window_entries (buffer window : list R) :
  length (chiller_apply_window buffer window) = length buffer /\
  forall i, (0 <= i)%Z ->
    vget 0 (chiller_apply_window buffer window) i
    = if (i <? Z.min (vsize buffer) (vsize window))%Z
      then vget 0 buffer i * vget 0 window i
      else vget 0 buffer i.
Proof.
  unfold chiller_apply_window.
  exact (map_loop 0 (fun i a => a * vget 0 window i)
           (fun i b => vset b i (vget 0 b i * vget 0 window i))
           (Z.min (vsize buffer) (vsize window)) buffer
           (fun _ _ => eq_refl) ltac:(lia)).
Qed.

Lemma hann_entry (window : list R) (size i : Z) :
  (size <= vsize window)%Z -> (0 <= i < size)%Z ->
  vget 0 (chiller_generate_window window size) i
  = 0.5 * (1 - cos (2 * PI * IZR i / IZR (size - 1))).
Proof.
  intros Hfit Hi; unfold chiller_generate_window.
  destruct (map_loop 0
              (fun i _ => 0.5 * (1 - cos (2 * PI * IZR i / IZR (size - 1))))
              (fun i w =>
                 vset w i (0.5 * (1 - cos (2 * PI * IZR i / IZR (size - 1)))))
              size window (fun _ _ => eq_refl) Hfit) as [_ Hget].
  rewrite Hget by lia.
  destruct (Z.ltb_spec i size); [reflexivity | lia].
Qed.

(** X8. Shape of the window [chiller_generate_window] computes, for
    [size >= 2]: every coefficient lies in [0, 1]; the window is symmetric,
    [w[size - 1 - i] = w[i]]; it does not decrease up to the middle; and when
    [size - 1] is even the middle coefficient is exactly 1. *)
Theorem hann_window_shape (window : list R) (size : Z) :
  (2 <= size)%Z -> (size <= vsize window)%Z ->
  let w := chiller_generate_window window size in
  (forall i, (0 <= i < size)%Z ->
     0 <= vget 0 w i <= 1 /\ vget 0 w (size - 1 - i) = vget 0 w i) /\
  (forall i j, (0 <= i <= j)%Z -> (2 * j <= size - 1)%Z ->
     vget 0 w i <= vget 0 w j) /\
  (forall m, (size - 1 = 2 * m)%Z -> vget 0 w m = 1).
Proof.
  intros Hsize Hfit; cbv zeta.
  assert (Hd : 0 < IZR (size - 1)) by (apply IZR_lt; lia).
  pose proof PI_RGT_0 as Hpi.
  repeat split.
  - rewrite hann_entry by lia.
    pose proof (COS_bound (2 * PI * IZR i / IZR (size - 1))); lra.
  - rewrite hann_entry by lia.
    pose proof (COS_bound (2 * PI * IZR i / IZR (size - 1))); lra.
  - rewrite !hann_entry by lia.
    replace (2 * PI * IZR (size - 1 - i) / IZR (size - 1))
      with (- (2 * PI * IZR i / IZR (size - 1)) + 2 * INR 1 * PI)
      by (rewrite (minus_IZR (size - 1) i); simpl; field; lra).
    now rewrite cos_period, cos_neg.
  - intros i j Hij Hj; rewrite !hann_entry by lia.
    assert (Hi' : 0 <= IZR i) by (apply IZR_le; lia).
    assert (Hij' : IZR i <= IZR j) by (apply IZR_le; lia).
    assert (Hj' : 2 * IZR j <= IZR (size - 1))
      by (rewrite <- mult_IZR; apply IZR_le; lia).
    assert (Hangle : forall a, 0 <= a -> 2 * a <= IZR (size - 1) ->
              0 <= 2 * PI * a / IZR (size - 1) <= PI).
    { intros a Ha Ha2; split.
      - apply Rmult_le_pos; [nra | left; apply Rinv_0_lt_compat; lra].
      - apply Rmult_le_reg_r with (IZR (size - 1)); [lra|].
        unfold Rdiv; rewrite Rmult_assoc, Rinv_l by lra; nra. }
    assert (Hle : 2 * PI * IZR i / IZR (size - 1)
                  <= 2 * PI * IZR j / IZR (size - 1)).
    { apply Rmult_le_compat_r; [left; apply Rinv_0_lt_compat; lra | nra]. }
    pose proof (cos_decr_1 _ _ (proj1 (Hangle (IZR i) Hi' ltac:(lra)))
                  (proj2 (Hangle (IZR i) Hi' ltac:(lra)))
                  (proj1 (Hangle (IZR j) ltac:(lra) Hj'))
                  (proj2 (Hangle (IZR j) ltac:(lra) Hj')) Hle).
    lra.
  - intros m Hm; rewrite hann_entry by lia.
    replace (2 * PI * IZR m / IZR (size - 1)) with PI
      by (rewrite Hm, mult_IZR; field; rewrite Hm, mult_IZR in Hd; lra).
    rewrite cos_PI; lra.
Qed.

(** ** Construction and what never changes *)

Lemma valid_fft_size_cases (n : Z) :
  valid_fft_size n = true <->
  (n = 512 \/ n = 1024 \/ n = 2048 \/ n = 4096 \/ n = 8192)%Z.
Proof.
  split.
  - intros Hv; destruct (valid_fft_size_pow2 n Hv) as (p & Hp & ->).
    assert (Hcases : (p = 9 \/ p = 10 \/ p = 11 \/ p = 12 \/ p = 13)%nat)
      by lia.
    destruct Hcases as [->|[->|[->|[->| ->]]]]; cbn; tauto.
  - intros [->|[->|[->|[->| ->]]]]; reflexivity.
Qed.

Section Lifetime.

Context {rng_state : Type}.
Implicit Types x y : t_chiller rng_state.

Lemma set_buffer_configuration (h : host) x (s : t_symbol) :
  configuration (fst (chiller_set_buffer h x s)) = configuration x.
Proof. destruct x; reflexivity. Qed.

(** X9. Size argument of the constructor: a first argument that is one of
    512, 1024, 2048, 4096, 8192 becomes the FFT size and nothing is
    reported; any other integer gives 2048 and the first message is the
    error; so does, silently, a missing or non-integer first argument.  In
    every case the hop size is a quarter of the FFT size, and the new engine
    has no captured spectrum, a hop counter of 0 and the last message is the
    initialization post. *)
Theorem new_fft_size (seed : rng_state) (h : host) (argv : list t_atom) :
  let x := fst (chiller_new seed h argv) in
  let msgs := snd (chiller_new seed h argv) in
  (forall n rest, argv = A_LONG n :: rest ->
     ((n = 512 \/ n = 1024 \/ n = 2048 \/ n = 4096 \/ n = 8192)%Z ->
      fft_size x = n /\
      msgs = [object_post "chiller~ initialized with FFT size %ld"]) /\
     (~ (n = 512 \/ n = 1024 \/ n = 2048 \/ n = 4096 \/ n = 8192)%Z ->
      fft_size x = 2048%Z /\
      msgs = [object_error
                "FFT size must be power of 2 between 512 and 8192, using default %ld";
              object_post "chiller~ initialized with FFT size %ld"])) /\
  ((forall n rest, argv <> A_LONG n :: rest) ->
   fft_size x = 2048%Z /\
   msgs = [object_post "chiller~ initialized with FFT size %ld"]) /\
  hop_size x = (fft_size x / 4)%Z /\
  spectrum_captured x = false /\ hop_counter x = 0%Z.
Proof.
  cbv zeta.
  assert (Hcfg : forall x0 : t_chiller rng_state,
            fft_size (match argv with
                      | _ :: A_SYM s :: _ => fst (chiller_set_buffer h x0 s)
                      | A_SYM s :: _ => fst (chiller_set_buffer h x0 s)
                      | _ => x0
                      end) = fft_size x0 /\
            hop_size (match argv with
                      | _ :: A_SYM s :: _ => fst (chiller_set_buffer h x0 s)
                      | A_SYM s :: _ => fst (chiller_set_buffer h x0 s)
                      | _ => x0
                      end) = hop_size x0 /\
            hop_counter (match argv with
                         | _ :: A_SYM s :: _ => fst (chiller_set_buffer h x0 s)
                         | A_SYM s :: _ => fst (chiller_set_buffer h x0 s)
                         | _ => x0
                         end) = hop_counter x0 /\
            (spectrum_captured x0 = false ->
             spectrum_captured
               (match argv with
                | _ :: A_SYM s :: _ => fst (chiller_set_buffer h x0 s)
                | A_SYM s :: _ => fst (chiller_set_buffer h x0 s)
                | _ => x0
                end) = false)).
  { intros x0; destruct x0; destruct argv as [|[?|?|?] [|[?|?|?] ?]];
      repeat split; auto. }
  unfold chiller_new.
  destruct (parse_fft_size argv) as [n0 msgs0] eqn:Hparse; cbn [fst snd].
  match goal with
  | |- context [match argv with
                | [] => ?x0
                | _ => _
                end] =>
    destruct (Hcfg x0) as (Hf & Hh & Hc & Hs)
  end.
  rewrite Hf, Hh, Hc, Hs by reflexivity; fields.
  split; [|split; [|repeat split]].
  - intros n rest ->; cbn [parse_fft_size] in Hparse.
    pose proof (valid_fft_size_cases n) as Hcases.
    destruct (valid_fft_size n).
    + injection Hparse as <- <-; split; [tauto|].
      intros Hnot; exfalso; apply Hnot, Hcases; reflexivity.
    + injection Hparse as <- <-; split; [|tauto].
      intros Hin; apply Hcases in Hin; discriminate.
  - intros Hnolong; unfold parse_fft_size in Hparse.
    destruct argv as [|[n| |] rest];
      try (injection Hparse as <- <-; split; reflexivity).
    exfalso; exact (Hnolong n rest eq_refl).
Qed.

End Lifetime.

Section Fixed.

Context {rng_state : Type}.
Variable phase_dist : rng_state -> R * rng_state.
Variable amp_dist : rng_state -> R * rng_state.

Implicit Types x y : t_chiller rng_state.

Lemma capture_configuration (h : host) x :
  configuration (fst (chiller_capture_spectrum h x)) = configuration x.
Proof.
  unfold chiller_capture_spectrum.
  destruct (buffer_ref x) as [ref|]; [|reflexivity].
  destruct (buffer_ref_getobject h ref) as [b|]; [|destruct x; reflexivity].
  destruct (buffer_locksamples b) as [s|]; [|destruct x; reflexivity].
  destruct (_ <? _)%Z; destruct x; reflexivity.
Qed.

Lemma dispatch_configuration (h : host) x (c : command) :
  configuration (dispatch h x c) = configuration x.
Proof.
  destruct c; cbn [dispatch]; try (destruct x; reflexivity).
  - unfold chiller_set_position.
    destruct (Rlt_dec _ _); [reflexivity|].
    destruct (negb _); [|destruct x; reflexivity].
    rewrite capture_configuration; destruct x; reflexivity.
  - apply capture_configuration.
  - unfold chiller_notify; destruct (String.eqb _ _);
      [destruct x; reflexivity | reflexivity].
Qed.

Lemma sample_step_configuration (i : Z) x (outs : list R * list R) :
  configuration (fst (sample_step phase_dist amp_dist i (x, outs)))
  = configuration x.
Proof.
  destruct outs as [out_l out_r].
  unfold sample_step, emit_and_shift; cbn [fst].
  transitivity (configuration (hop_tick phase_dist amp_dist x)).
  - unfold shift_overlap.
    destruct (for_loop 0 _ 1 shift_step _) as [l r].
    destruct (hop_tick phase_dist amp_dist x); reflexivity.
  - unfold hop_tick; destruct (Rge_dec _ _); [|destruct x; reflexivity].
    unfold generate_grain.
    destruct (for_loop 0 _ 1 (grain_bin _ _ _) _) as [g fb].
    match goal with
    | |- context [for_loop 0 ?n 1 (overlap_add ?b ?w) (?l, ?r)] =>
      destruct (for_loop 0 n 1 (overlap_add b w) (l, r)) as [l' r']
    end.
    destruct x; reflexivity.
Qed.

Lemma perform64_configuration x (outs : list R * list R) (n : Z) :
  configuration (fst (chiller_perform64 phase_dist amp_dist x outs n))
  = configuration x.
Proof.
  unfold chiller_perform64; destruct (negb _ || _); [reflexivity|].
  unfold for_loop.
  apply (for_count_ind (sample_step phase_dist amp_dist) 1 _
           (fun _ st => configuration (fst st) = configuration x));
    [reflexivity|].
  intros j [y o] _ Hy; cbn [fst] in Hy.
  now rewrite sample_step_configuration.
Qed.

Lemma run_configuration (tr : list event) :
  forall x, configuration (run phase_dist amp_dist x tr) = configuration x.
Proof.
  unfold run; induction tr as [|e tr IH]; intros x; cbn [fold_left];
    [reflexivity|].
  rewrite IH; destruct e as [h c | outs n]; cbn [step].
  - apply dispatch_configuration.
  - apply perform64_configuration.
Qed.

(** X10. Nothing that can happen to an engine changes its configuration:
    after any sequence of messages and audio blocks, from any engine, the
    FFT size, the hop size, the window and the grain counter are what they
    were. *)
Theorem configuration_is_fixed x (tr : list event) :
  fft_size (run phase_dist amp_dist x tr) = fft_size x /\
  hop_size (run phase_dist amp_dist x tr) = hop_size x /\
  window (run phase_dist amp_dist x tr) = window x /\
  grain_counter (run phase_dist amp_dist x tr) = grain_counter x.
Proof.
  pose proof (run_configuration tr x) as H; unfold configuration in H.
  injection H as H1 H2 H3 H4; repeat split; assumption.
Qed.

Lemma new_configuration (seed : rng_state) (h : host) (argv : list t_atom) :
  let x := fst (chiller_new seed h argv) in
  window x = chiller_generate_window (vector (fft_size x) 0) (fft_size x) /\
  grain_counter x = 0%Z.
Proof.
  cbv zeta; unfold chiller_new.
  destruct (parse_fft_size argv) as [n msgs]; cbn [fst].
  destruct argv as [|[?|?|?] [|[?|?|?] ?]]; split; reflexivity.
Qed.

(** X11. For an engine built by [chiller_new], after any sequence of
    messages and audio blocks: the window still has [fft_size] entries, entry
    [i] is the Hann coefficient 0.5 * (1 - cos (2 PI i / (N - 1))), and the
    grain counter is still 0 (no code path counts grains). *)
Theorem window_stays_hann (seed : rng_state) (h : host) (argv : list t_atom)
  (tr : list event) :
  let x := run phase_dist amp_dist (fst (chiller_new seed h argv)) tr in
  vsize (window x) = fft_size x /\
  (forall i, (0 <= i < fft_size x)%Z ->
     vget 0 (window x) i
     = 0.5 * (1 - cos (2 * PI * IZR i / IZR (fft_size x - 1)))) /\
  grain_counter x = 0%Z.
Proof.
  cbv zeta.
  pose proof (run_configuration tr (fst (chiller_new seed h argv))) as H.
  unfold configuration in H; injection H as H1 _ H3 H4.
  destruct (new_configuration seed h argv) as [Hw Hg].
  destruct (chiller_new_ok seed h argv)
    as ((p & Hp & Hn) & _ & (_ & Hsz & _) & _).
  rewrite H1, H3, H4, Hw, Hg.
  pose proof (pow2_pos p) as Hpos.
  assert (Hv : vsize (vector (fft_size (fst (chiller_new seed h argv))) 0)
               = fft_size (fst (chiller_new seed h argv)))
    by (apply vsize_vector; lia).
  repeat split.
  - rewrite <- Hw; exact Hsz.
  - intros i Hi; apply hann_entry; lia.
Qed.

(** X12. The invariant of the engine: for an engine built by [chiller_new],
    after any sequence of messages and audio blocks, the FFT size is a power
    of two from 512 to 8192, the hop size is a quarter of it, the six
    vectors have that size, the five parameters are inside their ranges, the
    hop counter is between 0 and 20480, and no capture is in progress. *)
Theorem engine_invariant (seed : rng_state) (h : host) (argv : list t_atom)
  (tr : list event) :
  engine_ok (run phase_dist amp_dist (fst (chiller_new seed h argv)) tr).
Proof. apply reachable_engine_ok. Qed.

End Fixed.

(** ** Captures *)

Lemma fill_zero_repeat (v : list R) : fill_zero v = repeat 0 (length v).
Proof.
  unfold fill_zero; induction v as [|a v IH]; cbn; [|rewrite IH]; reflexivity.
Qed.

Section CaptureEffects.

Context {rng_state : Type}.
Implicit Types x y : t_chiller rng_state.

Lemma capture_succeeds_source (h : host) x :
  capture_succeeds h x = true ->
  exists samples frames channels,
    capture_source h x = Some (samples, frames, channels).
Proof.
  unfold capture_succeeds, capture_source.
  destruct (buffer_ref x) as [ref|]; [|discriminate].
  destruct (buffer_ref_getobject h ref) as [b|]; [|discriminate].
  destruct (buffer_locksamples b) as [s|]; [|discriminate].
  destruct (_ <? _)%Z; [discriminate | eauto].
Qed.

Lemma capture_fails_identity (h : host) x :
  capture_succeeds h x = false -> capturing_spectrum x = false ->
  fst (chiller_capture_spectrum h x) = x.
Proof.
  unfold capture_succeeds, chiller_capture_spectrum; intros Hno Hidle.
  destruct (buffer_ref x) as [ref|]; [|reflexivity].
  destruct (buffer_ref_getobject h ref) as [b|];
    [|cbn [fst]; now rewrite capturing_restore].
  destruct (buffer_locksamples b) as [s|];
    [|cbn [fst]; now rewrite capturing_restore].
  replace (fft_size (set_capturing_spectrum x true)) with (fft_size x)
    by (destruct x; reflexivity).
  destruct (_ <? _)%Z; [|discriminate].
  cbn [fst]; now rewrite capturing_restore.
Qed.

(** X13. A freeze whose source passes the four checks, whenever it is sent
    (the debounce of position changes does not apply): [captured] is set and
    [capturing] cleared, both accumulators are zero vectors of their former
    size, the hop counter is 0, the transform workspace holds the frozen
    spectrum, and position, timestamp of the last position change, the four
    synthesis parameters and the binding are as before; one message reports
    the capture. *)
Theorem freeze_resets (h : host) x (samples : list R) (frames channels : Z) :
  capture_source h x = Some (samples, frames, channels) ->
  let y := fst (chiller_freeze h x) in
  spectrum_captured y = true /\ capturing_spectrum y = false /\
  hop_counter y = 0%Z /\
  overlap_buffer_l y = repeat 0 (length (overlap_buffer_l x)) /\
  overlap_buffer_r y = repeat 0 (length (overlap_buffer_r x)) /\
  fft_buffer y = frozen_spectrum y /\
  position y = position x /\
  last_position_change_time y = last_position_change_time x /\
  overlap_amount y = overlap_amount x /\ grain_rate y = grain_rate x /\
  phase_randomness y = phase_randomness x /\
  amplitude_variation y = amplitude_variation x /\
  buffer_ref y = buffer_ref x /\ buffer_name y = buffer_name x /\
  snd (chiller_freeze h x)
  = [object_post "Spectrum captured at position %.3f"].
Proof.
  intros Hsrc; cbv zeta; unfold chiller_freeze.
  destruct (capture_source_some h x _ _ _ Hsrc) as [_ ->].
  rewrite <- !fill_zero_repeat.
  destruct x; repeat split; reflexivity.
Qed.

(** X14. An accepted position change (500 ms or more after the last one,
    no capture in progress) leaves [captured] equal to the outcome of the
    capture it runs: true when the source passes the checks, false when it
    does not, whatever the flag was before.  In the second case the frozen
    spectrum, the accumulators and the hop counter are not touched. *)
Theorem accepted_position_recaptures (h : host) x (t pos : R) :
  500 <= t - last_position_change_time x ->
  capturing_spectrum x = false ->
  let y := fst (chiller_set_position h x t pos) in
  spectrum_captured y = capture_succeeds h x /\
  (capture_succeeds h x = false ->
   frozen_spectrum y = frozen_spectrum x /\
   overlap_buffer_l y = overlap_buffer_l x /\
   overlap_buffer_r y = overlap_buffer_r x /\
   hop_counter y = hop_counter x).
Proof.
  intros Hlate Hidle; cbv zeta; unfold chiller_set_position.
  destruct (Rlt_dec _ _) as [Hlt|_]; [lra|].
  set (x' := set_spectrum_captured
               (set_last_position_change_time
                  (set_position x (CLAMP pos 0 1)) t) false).
  replace (capturing_spectrum
             (set_last_position_change_time (set_position x (CLAMP pos 0 1)) t))
    with false by (destruct x; cbn in *; congruence).
  cbn [negb].
  assert (Hsame : capture_succeeds h x' = capture_succeeds h x)
    by (apply capture_succeeds_frame; destruct x; reflexivity).
  assert (Hidle' : capturing_spectrum x' = false)
    by (destruct x; cbn in *; assumption).
  destruct (capture_succeeds h x) eqn:Hok.
  - split; [|discriminate].
    destruct (capture_succeeds_source h x' Hsame) as (s & f & c & Hsrc).
    destruct (capture_source_some h x' _ _ _ Hsrc) as [_ ->].
    destruct x'; reflexivity.
  - rewrite (capture_fails_identity h x' Hsame Hidle').
    split; [destruct x; reflexivity|].
    intros _; destruct x; repeat split; reflexivity.
Qed.

Lemma start_frame_bounds x (frames : Z) :
  0 <= position x <= 1 -> (fft_size x <= frames)%Z ->
  (0 <= start_frame x frames <= frames - fft_size x)%Z.
Proof.
  intros Hpos Hfit.
  assert (Hd : 0 <= IZR (frames - fft_size x)) by (apply IZR_le; lia).
  assert (Hr : 0 <= position x * IZR (frames - fft_size x))
    by (apply Rmult_le_pos; lra).
  pose proof (double_to_long_floor _ Hr) as Hfloor.
  fold (start_frame x frames) in Hfloor; split.
  - apply Z.lt_succ_r, lt_IZR; rewrite succ_IZR; lra.
  - apply le_IZR; nra.
Qed.

(** X15. A capture reads inside the sample array.  When the source passes
    the checks, the position is in [0, 1] and the array holds
    [frames * channels] samples with at least one channel, every index the
    copy loop reads, [start + i] for one channel, [(start + i) * 2] and
    [(start + i) * 2 + 1] otherwise, is a valid index of the array. *)
Theorem capture_reads_in_bounds (h : host) x (samples : list R)
  (frames channels : Z) (i : Z) :
  capture_source h x = Some (samples, frames, channels) ->
  0 <= position x <= 1 ->
  (1 <= channels)%Z -> vsize samples = (frames * channels)%Z ->
  (0 <= i < fft_size x)%Z ->
  let start := start_frame x frames in
  if (channels =? 1)%Z then (0 <= start + i < vsize samples)%Z
  else (0 <= (start + i) * 2 /\ (start + i) * 2 + 1 < vsize samples)%Z.
Proof.
  intros Hsrc Hpos Hch Hsize Hi; cbv zeta.
  destruct (capture_source_some h x _ _ _ Hsrc) as [Hfit _].
  pose proof (start_frame_bounds x frames Hpos Hfit) as Hstart.
  destruct (Z.eqb_spec channels 1) as [->|Hne]; nia.
Qed.

End CaptureEffects.

(** ** Audio blocks *)

(** Two loops with the same bounds, run side by side. *)
Lemma for_count_rel {S1 S2 : Type} (f : Z -> S1 -> S1) (g : Z -> S2 -> S2)
  (step : Z) (k : nat) :
  forall (Rel : nat -> S1 -> S2 -> Prop) (lo : Z) (s : S1) (t : S2),
    Rel 0%nat s t ->
    (forall j s t, (j < k)%nat -> Rel j s t ->
                   Rel (S j) (f (lo + Z.of_nat j * step)%Z s)
                             (g (lo + Z.of_nat j * step)%Z t)) ->
    Rel k (for_count k lo step f s) (for_count k lo step g t).
Proof.
  induction k as [|k IH]; intros Rel lo s t H0 Hstep; cbn [for_count];
    [exact H0|].
  apply (IH (fun j => Rel (S j)) (lo + step)%Z).
  - pose proof (Hstep 0%nat s t ltac:(lia) H0) as H1.
    replace (lo + Z.of_nat 0 * step)%Z with lo in H1 by (simpl; lia).
    exact H1.
  - intros j a b Hj Hab.
    replace (lo + step + Z.of_nat j * step)%Z
      with (lo + Z.of_nat (S j) * step)%Z by lia.
    apply Hstep; [lia | exact Hab].
Qed.

Lemma zero_vector_get (v : list R) (i : Z) : fill_zero v = v -> vget 0 v i = 0.
Proof.
  intros Hz; rewrite <- Hz, fill_zero_repeat; unfold vget.
  destruct (Nat.lt_ge_cases (Z.to_nat i) (length v)).
  - apply nth_repeat_lt; assumption.
  - apply nth_overflow; rewrite repeat_length; assumption.
Qed.

Lemma zero_vector_shift (v : list R) :
  (1 <= vsize v)%Z -> fill_zero v = v -> tl v ++ [0] = v.
Proof.
  intros Hn Hz; rewrite <- Hz, fill_zero_repeat.
  destruct v as [|a v]; [unfold vsize in Hn; simpl in Hn; lia|].
  cbn [length repeat tl]; symmetry; apply repeat_cons.
Qed.

Section Blocks.

Context {rng_state : Type}.
Variable phase_dist : rng_state -> R * rng_state.
Variable amp_dist : rng_state -> R * rng_state.

Implicit Types x y : t_chiller rng_state.

Lemma shift_overlap_zero x :
  (1 <= vsize (overlap_buffer_l x))%Z ->
  vsize (overlap_buffer_r x) = vsize (overlap_buffer_l x) ->
  fill_zero (overlap_buffer_l x) = overlap_buffer_l x ->
  fill_zero (overlap_buffer_r x) = overlap_buffer_r x ->
  shift_overlap x = x.
Proof.
  intros Hn Hr Hzl Hzr.
  destruct (shift_overlap_tail x Hn Hr) as [Hl' Hr'].
  rewrite zero_vector_shift in Hl', Hr' by (assumption || lia).
  assert (Hshape : shift_overlap x
                   = set_overlap_buffer_r
                       (set_overlap_buffer_l x
                          (overlap_buffer_l (shift_overlap x)))
                       (overlap_buffer_r (shift_overlap x))).
  { unfold shift_overlap.
    destruct (for_loop 0 _ 1 shift_step _) as [l r].
    destruct x; reflexivity. }
  rewrite Hshape, Hl', Hr'; destruct x; reflexivity.
Qed.

(** A sample step below the grain trigger, on zero accumulators. *)
Lemma idle_sample_step x (i : Z) (outs : list R * list R) :
  (1 <= vsize (overlap_buffer_l x))%Z ->
  vsize (overlap_buffer_r x) = vsize (overlap_buffer_l x) ->
  fill_zero (overlap_buffer_l x) = overlap_buffer_l x ->
  fill_zero (overlap_buffer_r x) = overlap_buffer_r x ->
  IZR (hop_counter x + 1) < IZR (hop_size x) / grain_rate x ->
  sample_step phase_dist amp_dist i (x, outs)
  = (set_hop_counter x (hop_counter x + 1), silence_step i outs).
Proof.
  intros Hn Hr Hzl Hzr Hlt; destruct outs as [out_l out_r].
  unfold sample_step, emit_and_shift, silence_step.
  rewrite hop_tick_idle by assumption.
  replace (overlap_buffer_l (set_hop_counter x (hop_counter x + 1)))
    with (overlap_buffer_l x) by (destruct x; reflexivity).
  replace (overlap_buffer_r (set_hop_counter x (hop_counter x + 1)))
    with (overlap_buffer_r x) by (destruct x; reflexivity).
  rewrite !zero_vector_get, Rmult_0_l by assumption.
  rewrite shift_overlap_zero; [reflexivity | | | |];
    destruct x; assumption.
Qed.

(** X16. After a capture the output stays silent until the first grain.  In
    an engine that satisfies the invariant, with a captured spectrum and
    zero accumulators (as a capture leaves them), a block of [n] samples
    that ends at least one sample before the hop counter reaches
    [hop_size / grain_rate] only advances the hop counter by [n]: every
    other field is unchanged and the [n] output samples of both channels
    are 0.  The margin of one sample keeps the rounded quotient the source
    compares with on the same side of the counter: under the invariant the
    quotient is at most 20480, where binary64 rounding moves it by far less
    than one. *)
Theorem silent_until_first_grain x (out_l out_r : list R) (n : Z)
  (ref : t_buffer_ref) :
  spectrum_captured x = true -> buffer_ref x = Some ref ->
  engine_ok x ->
  fill_zero (overlap_buffer_l x) = overlap_buffer_l x ->
  fill_zero (overlap_buffer_r x) = overlap_buffer_r x ->
  (0 <= n)%Z ->
  IZR (hop_counter x + n) + 1 <= IZR (hop_size x) / grain_rate x ->
  exists l r,
    chiller_perform64 phase_dist amp_dist x (out_l, out_r) n
    = (set_hop_counter x (hop_counter x + n), (l, r)) /\
    length l = length out_l /\ length r = length out_r /\
    (forall i, (0 <= i < n)%Z -> vget 0 l i = 0 /\ vget 0 r i = 0) /\
    (forall i, (0 <= i)%Z -> (n <= i)%Z ->
       vget 0 l i = vget 0 out_l i /\ vget 0 r i = vget 0 out_r i).
Proof.
  intros Hcap Href Hok Hzl Hzr Hn0 Hmargin.
  assert (Hn : (1 <= vsize (overlap_buffer_l x))%Z).
  { destruct Hok as ((p & Hp & Hsz) & _ & (_ & _ & Hol & _) & _).
    pose proof (pow2_pos p); lia. }
  assert (Hr : vsize (overlap_buffer_r x) = vsize (overlap_buffer_l x)).
  { destruct Hok as (_ & _ & (_ & _ & Hol & Hor & _) & _); lia. }
  assert (Hlt : IZR (hop_counter x + n) < IZR (hop_size x) / grain_rate x)
    by lra.
  unfold chiller_perform64; rewrite Hcap, Href; cbn [negb is_null orb].
  assert (Hrun :
    for_loop 0 n 1 (sample_step phase_dist amp_dist) (x, (out_l, out_r))
    = (set_hop_counter x (hop_counter x + n),
       for_loop 0 n 1 silence_step (out_l, out_r))).
  { unfold for_loop.
    replace ((n - 0 + 1 - 1) / 1)%Z with n by (rewrite Z.div_1_r; lia).
    replace n with (Z.of_nat (Z.to_nat n)) at 2 by lia.
    apply (for_count_rel (sample_step phase_dist amp_dist) silence_step 1
             (Z.to_nat n)
             (fun j st o =>
                st = (set_hop_counter x (hop_counter x + Z.of_nat j), o))).
    - replace (hop_counter x + Z.of_nat 0)%Z with (hop_counter x) by lia.
      destruct x; reflexivity.
    - intros j st o Hj ->.
      rewrite idle_sample_step; try (destruct x; assumption).
      + f_equal.
        replace (hop_counter x + Z.of_nat (S j))%Z
          with (hop_counter x + Z.of_nat j + 1)%Z by lia.
        destruct x; reflexivity.
      + replace (hop_counter
                   (set_hop_counter x (hop_counter x + Z.of_nat j)))
          with (hop_counter x + Z.of_nat j)%Z by (destruct x; reflexivity).
        replace (hop_size (set_hop_counter x (hop_counter x + Z.of_nat j)))
          with (hop_size x) by (destruct x; reflexivity).
        replace (grain_rate (set_hop_counter x (hop_counter x + Z.of_nat j)))
          with (grain_rate x) by (destruct x; reflexivity).
        assert (IZR (hop_counter x + Z.of_nat j + 1)
                <= IZR (hop_counter x + n)) by (apply IZR_le; lia).
        lra. }
  rewrite Hrun.
  destruct (for_loop 0 n 1 silence_step (out_l, out_r)) as [l r] eqn:E.
  destruct (silence_loop _ _ _ _ _ E) as (Hl & Hrr & Hget).
  exists l, r; repeat split; auto.
  - destruct (Hget i) as [-> _]; [lia|].
    destruct (Z.ltb_spec i n); auto; lia.
  - destruct (Hget i) as [_ ->]; [lia|].
    destruct (Z.ltb_spec i n); auto; lia.
  - destruct (Hget i) as [-> _]; [lia|].
    destruct (Z.ltb_spec i n); auto; lia.
  - destruct (Hget i) as [_ ->]; [lia|].
    destruct (Z.ltb_spec i n); auto; lia.
Qed.

End Blocks.

Section Independence.

Context {rng_state : Type}.
Variable phase_dist : rng_state -> R * rng_state.
Variable amp_dist : rng_state -> R * rng_state.

Implicit Types x y : t_chiller rng_state.

(** One sample step reads and writes the audio fields only. *)
Lemma sample_step_view (i : Z) x y (outs : list R * list R) :
  audio_view x = audio_view y ->
  audio_view (fst (sample_step phase_dist amp_dist i (x, outs)))
  = audio_view (fst (sample_step phase_dist amp_dist i (y, outs))) /\
  snd (sample_step phase_dist amp_dist i (x, outs))
  = snd (sample_step phase_dist amp_dist i (y, outs)).
Proof.
  intros Hview; destruct outs as [out_l out_r].
  destruct x, y; unfold audio_view in Hview; fields.
  injection Hview as -> -> -> -> -> -> -> -> -> -> Hnull -> ->.
  unfold sample_step, emit_and_shift, hop_tick; fields.
  destruct (Rge_dec _ _).
  - unfold generate_grain, grain_bin; fields.
    destruct (for_loop 0 _ 1 _ (_, _)) as [gen_g gen_fb]; fields.
    destruct (for_loop 0 _ 1 (overlap_add _ _) _) as [add_l add_r]; fields.
    unfold shift_overlap; fields.
    destruct (for_loop 0 _ 1 shift_step _) as [sh_l sh_r]; fields.
    unfold audio_view; fields; rewrite Hnull; split; reflexivity.
  - unfold shift_overlap; fields.
    destruct (for_loop 0 _ 1 shift_step _) as [sh_l sh_r]; fields.
    unfold audio_view; fields; rewrite Hnull; split; reflexivity.
Qed.

Lemma perform64_view x y (outs : list R * list R) (n : Z) :
  audio_view x = audio_view y ->
  audio_view (fst (chiller_perform64 phase_dist amp_dist x outs n))
  = audio_view (fst (chiller_perform64 phase_dist amp_dist y outs n)) /\
  snd (chiller_perform64 phase_dist amp_dist x outs n)
  = snd (chiller_perform64 phase_dist amp_dist y outs n).
Proof.
  intros Hview; unfold chiller_perform64.
  assert (Hguard : negb (spectrum_captured x) || is_null (buffer_ref x)
                   = negb (spectrum_captured y) || is_null (buffer_ref y)).
  { unfold audio_view in Hview.
    injection Hview as _ _ _ _ _ _ _ _ _ -> -> _ _; reflexivity. }
  rewrite Hguard; clear Hguard.
  destruct (negb (spectrum_captured y) || is_null (buffer_ref y));
    [split; [exact Hview | reflexivity]|].
  unfold for_loop.
  apply (for_count_rel (sample_step phase_dist amp_dist)
           (sample_step phase_dist amp_dist) 1 _
           (fun _ s t => audio_view (fst s) = audio_view (fst t)
                         /\ snd s = snd t)).
  - split; [exact Hview | reflexivity].
  - intros j [a oa] [b ob] _ [Hab Ho]; cbn [fst snd] in Hab, Ho; subst ob.
    now apply sample_step_view.
Qed.

(** X17. The audio callback does not look at the overlap amount, the sample
    rate, the position or the timestamp.  After an [overlap] message, or
    after [dsp64] stored another sample rate, any audio block writes the
    same output samples and leaves the same synthesis state (spectrum,
    accumulators, workspace, hop counter, generator, rate and randomness
    parameters) as it would have without. *)
Theorem audio_ignores_overlap_and_rate x (v samplerate : R)
  (outs : list R * list R) (n : Z) :
  let run_block x := chiller_perform64 phase_dist amp_dist x outs n in
  (snd (run_block (fst (chiller_set_overlap x v))) = snd (run_block x) /\
   audio_view (fst (run_block (fst (chiller_set_overlap x v))))
   = audio_view (fst (run_block x))) /\
  (snd (run_block (chiller_dsp64 x samplerate)) = snd (run_block x) /\
   audio_view (fst (run_block (chiller_dsp64 x samplerate)))
   = audio_view (fst (run_block x))).
Proof.
  cbv zeta; split.
  - destruct (perform64_view (fst (chiller_set_overlap x v)) x outs n);
      [destruct x; reflexivity | split; assumption].
  - destruct (perform64_view (chiller_dsp64 x samplerate) x outs n);
      [destruct x; reflexivity | split; assumption].
Qed.

End Independence.

(** ** Capturing silence *)

Lemma zero_spectrum_eq (v : list C) :
  (forall i, (0 <= i < vsize v)%Z -> vget C0 v i = C0) ->
  v = repeat C0 (length v).
Proof.
  intros Hz; apply (vget_ext C0); [now rewrite repeat_length|].
  intros i Hi; rewrite Hz by assumption.
  unfold vget, vsize in *; symmetry; apply nth_repeat_lt; lia.
Qed.

Lemma vget_zero_spectrum (n : nat) (i : Z) : vget C0 (repeat C0 n) i = C0.
Proof.
  unfold vget; destruct (Nat.lt_ge_cases (Z.to_nat i) n).
  - now apply nth_repeat_lt.
  - apply nth_overflow; now rewrite repeat_length.
Qed.

Lemma Csum_zero (n : nat) (f : Z -> C) :
  (forall i, (0 <= i < Z.of_nat n)%Z -> f i = C0) -> Csum n f = C0.
Proof.
  induction n as [|n IH]; intros Hz; cbn [Csum]; [reflexivity|].
  rewrite IH, (Hz (Z.of_nat n)) by (try lia; intros i Hi; apply Hz; lia).
  cring.
Qed.

Lemma fft_zero (p : nat) :
  (p <= long_bits)%nat ->
  chiller_fft (repeat C0 (2 ^ p)) = repeat C0 (2 ^ p).
Proof.
  intros Hp.
  destruct (chiller_fft_dft p (repeat C0 (2 ^ p)) Hp (repeat_length _ _))
    as [Hlen Hfft].
  transitivity (repeat C0 (length (chiller_fft (repeat C0 (2 ^ p)))));
    [|now rewrite Hlen, repeat_length].
  apply zero_spectrum_eq.
  intros k Hk; rewrite Hfft by (unfold vsize in *; lia).
  apply Csum_zero; intros m _; rewrite vget_zero_spectrum; cring.
Qed.

Lemma energy_zero (n : nat) : spectrum_energy (repeat C0 n) = 0.
Proof.
  rewrite spectrum_energy_sum, repeat_length.
  rewrite (Rsum_ext _ _ (fun _ => 0 * 0)), Rsum_scal; [ring|].
  intros i _; rewrite vget_zero_spectrum; unfold Cnorm2, C0; cbn; ring.
Qed.

Section Silence.

Context {rng_state : Type}.
Implicit Types x y : t_chiller rng_state.

Lemma silent_segment x (samples : list R) (frames channels : Z) :
  vsize (analysis_buffer x) = fft_size x ->
  (forall j, vget 0 samples j = 0) ->
  forall i, (0 <= i)%Z ->
            vget 0 (captured_segment x samples frames channels) i = 0.
Proof.
  intros Hsize Hz i Hi; unfold captured_segment, copy_segment.
  destruct (map_loop 0
              (fun i (_ : R) =>
                 if (channels =? 1)%Z
                 then vget 0 samples (start_frame x frames + i)
                 else (vget 0 samples ((start_frame x frames + i) * 2)
                       + vget 0 samples ((start_frame x frames + i) * 2 + 1))
                      * 0.5)
              (copy_sample samples channels (start_frame x frames))
              (fft_size x) (analysis_buffer x)) as [_ Hget].
  { intros k w; unfold copy_sample; destruct (channels =? 1)%Z; reflexivity. }
  { lia. }
  rewrite Hget by assumption.
  destruct (Z.ltb_spec i (fft_size x)).
  - destruct (channels =? 1)%Z; rewrite !Hz; lra.
  - unfold vget, vsize in *; apply nth_overflow; lia.
Qed.

Lemma silent_capture_spectrum (h : host) x (samples : list R) (frames channels : Z) :
  engine_ok x ->
  capture_source h x = Some (samples, frames, channels) ->
  (forall j, vget 0 samples j = 0) ->
  spectrum_energy (analysis_spectrum x samples frames channels) = 0 /\
  frozen_spectrum (fst (chiller_freeze h x))
  = repeat C0 (Z.to_nat (fft_size x)) /\
  spectrum_captured (fst (chiller_freeze h x)) = true.
Proof.
  intros Hok Hsrc Hz.
  destruct Hok as ((p & Hp & Hn) & _ & (_ & Hw & _ & _ & Hfb & Hab) & _).
  pose proof (pow2_pos p) as Hpos.
  assert (Hseg : forall i, (0 <= i)%Z ->
            vget 0 (chiller_apply_window
                      (captured_segment x samples frames channels) (window x))
              i = 0).
  { intros i Hi.
    destruct (map_loop 0 (fun i a => a * vget 0 (window x) i)
                (fun i b => vset b i (vget 0 b i * vget 0 (window x) i))
                (Z.min (vsize (captured_segment x samples frames channels))
                       (vsize (window x)))
                (captured_segment x samples frames channels)
                (fun _ _ => eq_refl) ltac:(lia)) as [_ Hget].
    unfold chiller_apply_window; fold (vsize (window x)).
    fold (vsize (captured_segment x samples frames channels)).
    rewrite Hget, !silent_segment by assumption.
    destruct (_ <? _)%Z; lra. }
  assert (Hsegsize : vsize (chiller_apply_window
                              (captured_segment x samples frames channels)
                              (window x)) = fft_size x).
  { rewrite apply_window_size; unfold captured_segment.
    rewrite copy_segment_size; lia. }
  assert (Hin : to_complex
                  (chiller_apply_window
                     (captured_segment x samples frames channels) (window x))
                  (fft_buffer x)
                = repeat C0 (2 ^ p)).
  { replace (2 ^ p)%nat with (length (to_complex
                  (chiller_apply_window
                     (captured_segment x samples frames channels) (window x))
                  (fft_buffer x))).
    2:{ apply Nat2Z.inj; rewrite pow2_nat, <- Hn, <- Hfb.
        apply to_complex_size; lia. }
    apply zero_spectrum_eq; intros i Hi.
    rewrite to_complex_size in Hi by lia.
    unfold to_complex.
    destruct (map_loop C0
                (fun i (_ : C) =>
                   (vget 0 (chiller_apply_window
                              (captured_segment x samples frames channels)
                              (window x)) i, 0))
                (fun i fb =>
                   vset fb i
                     (vget 0 (chiller_apply_window
                                (captured_segment x samples frames channels)
                                (window x)) i, 0))
                (vsize (chiller_apply_window
                          (captured_segment x samples frames channels)
                          (window x)))
                (fft_buffer x) (fun _ _ => eq_refl) ltac:(lia)) as [_ Hget].
    rewrite Hget, Hseg by lia.
    destruct (Z.ltb_spec i (vsize (chiller_apply_window
                          (captured_segment x samples frames channels)
                          (window x)))); [reflexivity | lia]. }
  assert (Hspec : analysis_spectrum x samples frames channels
                  = repeat C0 (2 ^ p)).
  { unfold analysis_spectrum; rewrite Hin; apply fft_zero.
    unfold long_bits; lia. }
  assert (Henergy : spectrum_energy
                      (analysis_spectrum x samples frames channels) = 0)
    by (rewrite Hspec; apply energy_zero).
  split; [exact Henergy|].
  unfold chiller_freeze.
  destruct (capture_source_some h x _ _ _ Hsrc) as [_ ->].
  destruct (capture_from_buffers x samples frames channels)
    as (_ & -> & ->).
  split; [|reflexivity].
  unfold normalize_spectrum; rewrite Henergy.
  destruct (Rgt_dec 0 1e-10); [lra|].
  rewrite Hspec, Hn; f_equal.
  apply Nat2Z.inj; rewrite pow2_nat, Z2Nat.id; lia.
Qed.

(** X18. Capturing silence.  In an engine that satisfies the invariant,
    a freeze from a source whose samples are all 0 finds an energy of 0, so
    the branch that divides by the energy is not taken, and the frozen
    spectrum is the zero vector of [fft_size] entries. *)
Theorem silent_capture (h : host) x (samples : list R) (frames channels : Z) :
  engine_ok x ->
  capture_source h x = Some (samples, frames, channels) ->
  (forall j, vget 0 samples j = 0) ->
  spectrum_energy (analysis_spectrum x samples frames channels) = 0 /\
  frozen_spectrum (fst (chiller_freeze h x))
  = repeat C0 (Z.to_nat (fft_size x)) /\
  spectrum_captured (fst (chiller_freeze h x)) = true.
Proof. exact (silent_capture_spectrum h x samples frames channels). Qed.

End Silence.

(** ** What an audio block leaves alone *)

Section AudioFrame.

Context {rng_state : Type}.
Variable phase_dist : rng_state -> R * rng_state.
Variable amp_dist : rng_state -> R * rng_state.

Implicit Types x y : t_chiller rng_state.

Lemma sample_step_control (i : Z) x (outs : list R * list R) :
  control_view (fst (sample_step phase_dist amp_dist i (x, outs)))
  = control_view x.
Proof.
  destruct outs as [out_l out_r].
  unfold sample_step, emit_and_shift; cbn [fst].
  transitivity (control_view (hop_tick phase_dist amp_dist x)).
  - unfold shift_overlap.
    destruct (for_loop 0 _ 1 shift_step _) as [sh_l sh_r].
    destruct (hop_tick phase_dist amp_dist x); reflexivity.
  - unfold hop_tick; destruct (Rge_dec _ _); [|destruct x; reflexivity].
    unfold generate_grain.
    destruct (for_loop 0 _ 1 (grain_bin _ _ _) _) as [gen_g gen_fb].
    match goal with
    | |- context [for_loop 0 ?n 1 (overlap_add ?b ?w) (?l, ?r)] =>
      destruct (for_loop 0 n 1 (overlap_add b w) (l, r)) as [add_l add_r]
    end.
    destruct x; reflexivity.
Qed.

(** X19. An audio block of any size, in any engine, writes only the two
    accumulators, the transform workspace, the hop counter and the
    generator: the binding, the frozen spectrum, the window, the analysis
    buffer, the sizes, the position, the four parameters, both flags, the
    sample rate and the timestamp are what they were. *)
Theorem perform64_leaves_control x (outs : list R * list R) (n : Z) :
  control_view (fst (chiller_perform64 phase_dist amp_dist x outs n))
  = control_view x.
Proof.
  unfold chiller_perform64; destruct (negb _ || _); [reflexivity|].
  unfold for_loop.
  apply (for_count_ind (sample_step phase_dist amp_dist) 1 _
           (fun _ st => control_view (fst st) = control_view x));
    [reflexivity|].
  intros j [y o] _ Hy; cbn [fst] in Hy.
  now rewrite sample_step_control.
Qed.

End AudioFrame.

(** ** Where a capture starts *)

Lemma double_to_long_integer (z : Z) : (0 <= z)%Z -> double_to_long (IZR z) = z.
Proof.
  intros Hz.
  assert (Hr : 0 <= IZR z) by (apply IZR_le; lia).
  pose proof (double_to_long_floor _ Hr) as [Hlo Hhi].
  apply le_IZR in Hlo.
  assert ((z < double_to_long (IZR z) + 1)%Z)
    by (apply lt_IZR; rewrite plus_IZR; exact Hhi).
  lia.
Qed.

Section StartFrame.

Context {rng_state : Type}.
Implicit Types x y : t_chiller rng_state.

(** X20. The start frame at the ends of the position range, for a source of
    [frames >= fft_size] frames: position 0 starts at frame 0, position 1
    starts at frame [frames - fft_size], so that the segment ends with the
    source; and for every position in [0, 1] the start frame lies between
    the two. *)
Theorem start_frame_range x (frames : Z) :
  (fft_size x <= frames)%Z -> 0 <= position x <= 1 ->
  (0 <= start_frame x frames <= frames - fft_size x)%Z /\
  (position x = 0 -> start_frame x frames = 0%Z) /\
  (position x = 1 -> start_frame x frames = (frames - fft_size x)%Z).
Proof.
  intros Hfit Hpos; split; [now apply start_frame_bounds|].
  unfold start_frame; split; intros ->.
  - rewrite Rmult_0_l; apply (double_to_long_integer 0); lia.
  - rewrite Rmult_1_l; apply double_to_long_integer; lia.
Qed.

End StartFrame.

(** ** A zero spectrum *)

Lemma vset_vget_same {A : Type} (d : A) (v : list A) (i : Z) :
  (0 <= i < vsize v)%Z -> vset v i (vget d v i) = v.
Proof.
  intros Hi; apply (vget_ext d); [apply vset_length|].
  intros j Hj; rewrite vget_vset by lia.
  destruct (Z.eqb_spec i j) as [->|]; reflexivity.
Qed.

Lemma Cabs_zero : Cabs C0 = 0.
Proof.
  unfold Cabs, C0; cbn [fst snd].
  replace (0 * 0 + 0 * 0) with 0 by ring; apply sqrt_0.
Qed.

Lemma ifft_zero (p : nat) :
  (p <= long_bits)%nat ->
  chiller_ifft (repeat C0 (2 ^ p)) = repeat C0 (2 ^ p).
Proof.
  intros Hp.
  destruct (chiller_ifft_dft p (repeat C0 (2 ^ p)) Hp (repeat_length _ _))
    as [Hlen Hifft].
  transitivity (repeat C0 (length (chiller_ifft (repeat C0 (2 ^ p)))));
    [|now rewrite Hlen, repeat_length].
  apply zero_spectrum_eq.
  intros k Hk; rewrite Hifft by (unfold vsize in *; lia).
  unfold dft_conj; rewrite Csum_zero.
  - apply injective_projections; unfold Cdivr, C0, Rdiv; cbn [fst snd]; ring.
  - intros m _; rewrite vget_zero_spectrum; cring.
Qed.

Lemma overlap_add_zero (m : nat) (w l r : list R) (n : Z) :
  (n <= vsize l)%Z -> (n <= vsize r)%Z ->
  for_loop 0 n 1 (overlap_add (repeat C0 m) w) (l, r) = (l, r).
Proof.
  intros Hl Hr.
  destruct (Z.le_gt_cases n 0) as [Hn|Hn]; [now apply for_loop_empty|].
  apply (for_loop_ind (fun _ st => st = (l, r))); [lia | reflexivity |].
  intros j st Hj ->; unfold overlap_add.
  rewrite vget_zero_spectrum; unfold Cre, C0; cbn [fst].
  replace (vget 0 l j + 0 * vget 0 w j * 0.8) with (vget 0 l j) by ring.
  replace (vget 0 r j + 0 * vget 0 w j * 1) with (vget 0 r j) by ring.
  now rewrite !vset_vget_same by lia.
Qed.

Section ZeroSpectrum.

Context {rng_state : Type}.
Variable phase_dist : rng_state -> R * rng_state.
Variable amp_dist : rng_state -> R * rng_state.

Implicit Types x y : t_chiller rng_state.

(** A grain derived from a zero spectrum is a zero workspace. *)
Lemma grain_loop_zero x (m : nat) (g : rng_state) (fb : list C) :
  frozen_spectrum x = repeat C0 m -> length fb = m ->
  snd (for_loop 0 (vsize (frozen_spectrum x)) 1
         (grain_bin phase_dist amp_dist x) (g, fb))
  = repeat C0 m.
Proof.
  intros Hz Hlen.
  pose (P := fun (j : Z) (st : rng_state * list C) =>
    length (snd st) = m /\
    forall i, (0 <= i < j)%Z -> vget C0 (snd st) i = C0).
  assert (HP : P (vsize (frozen_spectrum x))
                 (for_loop 0 (vsize (frozen_spectrum x)) 1
                    (grain_bin phase_dist amp_dist x) (g, fb))).
  { apply (for_loop_ind P); unfold P; [unfold vsize; lia | |].
    - cbn [snd]; split; [exact Hlen | intros i Hi; lia].
    - intros j [g' fb'] Hj [Hl Hget]; cbn [snd] in Hl, Hget.
      unfold grain_bin.
      destruct (phase_dist g') as [ph g1], (amp_dist g1) as [a g2].
      cbn [snd]; rewrite vset_length; split; [exact Hl|].
      intros i Hi; rewrite Hz, vget_zero_spectrum, Cabs_zero.
      assert (Hjm : (j < Z.of_nat m)%Z)
        by (rewrite Hz in Hj; unfold vsize in Hj;
            rewrite repeat_length in Hj; lia).
      rewrite vget_vset by (unfold vsize; lia).
      destruct (Z.eqb_spec j i) as [->|Hne]; [|apply Hget; lia].
      apply injective_projections; unfold Cpolar, C0; cbn [fst snd]; ring. }
  destruct HP as [Hl Hget].
  transitivity
    (repeat C0
       (length (snd (for_loop 0 (vsize (frozen_spectrum x)) 1
                       (grain_bin phase_dist amp_dist x) (g, fb)))));
    [|now rewrite Hl].
  apply zero_spectrum_eq.
  intros i Hi; apply Hget.
  rewrite Hz; unfold vsize in *; rewrite repeat_length; lia.
Qed.

Lemma generate_grain_accumulators x :
  let fb := snd (for_loop 0 (vsize (frozen_spectrum x)) 1
                   (grain_bin phase_dist amp_dist x) (rng x, fft_buffer x)) in
  let lr := for_loop 0 (vsize (chiller_ifft fb)) 1
              (overlap_add (chiller_ifft fb) (window x))
              (overlap_buffer_l x, overlap_buffer_r x) in
  overlap_buffer_l (generate_grain phase_dist amp_dist x) = fst lr /\
  overlap_buffer_r (generate_grain phase_dist amp_dist x) = snd lr.
Proof.
  cbv zeta; unfold generate_grain.
  destruct (for_loop 0 (vsize (frozen_spectrum x)) 1 _ _) as [gen_g gen_fb].
  cbn [snd].
  replace (fft_buffer
             (set_fft_buffer (set_rng (set_fft_buffer x gen_fb) gen_g)
                (chiller_ifft
                   (fft_buffer (set_rng (set_fft_buffer x gen_fb) gen_g)))))
    with (chiller_ifft gen_fb) by (destruct x; reflexivity).
  replace (window
             (set_fft_buffer (set_rng (set_fft_buffer x gen_fb) gen_g)
                (chiller_ifft
                   (fft_buffer (set_rng (set_fft_buffer x gen_fb) gen_g)))))
    with (window x) by (destruct x; reflexivity).
  replace (overlap_buffer_l
             (set_fft_buffer (set_rng (set_fft_buffer x gen_fb) gen_g)
                (chiller_ifft
                   (fft_buffer (set_rng (set_fft_buffer x gen_fb) gen_g)))))
    with (overlap_buffer_l x) by (destruct x; reflexivity).
  replace (overlap_buffer_r
             (set_fft_buffer (set_rng (set_fft_buffer x gen_fb) gen_g)
                (chiller_ifft
                   (fft_buffer (set_rng (set_fft_buffer x gen_fb) gen_g)))))
    with (overlap_buffer_r x) by (destruct x; reflexivity).
  destruct (for_loop 0 (vsize (chiller_ifft gen_fb)) 1 _ _) as [add_l add_r].
  destruct x; split; reflexivity.
Qed.

Lemma generate_grain_silence x :
  engine_ok x -> holds_silence x ->
  holds_silence (generate_grain phase_dist amp_dist x).
Proof.
  intros Hok (Hz & Hl & Hr).
  destruct (generate_grain_fields phase_dist amp_dist x)
    as (E1 & _ & E3 & _).
  destruct (generate_grain_accumulators x) as [El Er]; cbv zeta in El, Er.
  destruct Hok as ((p & Hp & Hn) & _ & (_ & _ & Hol & Hor & Hfb & _) & _).
  assert (Hm : Z.to_nat (fft_size x) = (2 ^ p)%nat)
    by (rewrite Hn, <- pow2_nat; apply Nat2Z.id).
  rewrite (grain_loop_zero x (Z.to_nat (fft_size x)) _ _ Hz) in El, Er
    by (unfold vsize in Hfb; lia).
  rewrite Hm, ifft_zero in El, Er by (unfold long_bits; lia).
  rewrite overlap_add_zero in El, Er
    by (unfold vsize in *; rewrite repeat_length; lia).
  cbn [fst snd] in El, Er.
  unfold holds_silence; rewrite E1, E3, El, Er; auto.
Qed.

Lemma hop_tick_silence x :
  engine_ok x -> holds_silence x ->
  holds_silence (hop_tick phase_dist amp_dist x).
Proof.
  intros Hok Hs; unfold hop_tick.
  assert (Hsame : forall c, engine_ok (set_hop_counter x c) ->
                            holds_silence (set_hop_counter x c) /\
                            engine_ok (set_hop_counter x c)).
  { intros c Hc; split; [|exact Hc].
    destruct x; unfold holds_silence in *; exact Hs. }
  destruct (Rge_dec _ _) as [_|_].
  - replace (set_hop_counter (set_hop_counter x (hop_counter x + 1)) 0)
      with (set_hop_counter x 0) by (destruct x; reflexivity).
    assert (Hc : engine_ok (set_hop_counter x 0))
      by (destruct x; unfold engine_ok in *; fields;
          repeat split; try tauto; lia).
    now apply generate_grain_silence; apply Hsame.
  - destruct x; unfold holds_silence in *; exact Hs.
Qed.

(** One sample of an engine that holds silence. *)
Lemma silent_sample_step x (i : Z) (outs : list R * list R) :
  engine_ok x -> holds_silence x ->
  let st := sample_step phase_dist amp_dist i (x, outs) in
  engine_ok (fst st) /\ holds_silence (fst st) /\
  snd st = silence_step i outs.
Proof.
  intros Hok Hs; cbv zeta; destruct outs as [out_l out_r].
  pose proof (hop_tick_ok phase_dist amp_dist x Hok) as Hok'.
  pose proof (hop_tick_silence x Hok Hs) as Hs'.
  unfold sample_step, emit_and_shift, silence_step.
  destruct Hs' as (Hz & Hl & Hr).
  assert (Hshift : shift_overlap (hop_tick phase_dist amp_dist x)
                   = hop_tick phase_dist amp_dist x).
  { destruct Hok' as ((p & Hp & Hn) & _ & (_ & _ & Hol & Hor & _) & _).
    pose proof (pow2_pos p).
    apply shift_overlap_zero; try assumption; lia. }
  rewrite Hshift; cbn [fst snd].
  rewrite !zero_vector_get, Rmult_0_l by assumption.
  split; [exact Hok'|split; [unfold holds_silence; auto | reflexivity]].
Qed.

(** X21. An engine that holds silence stays silent.  When the frozen spectrum
    and both accumulators are zero (as after capturing a silent segment),
    every audio block writes 0 to the [n] samples of both channels whatever
    the parameters and the random draws are, and leaves the engine holding
    silence, so that the same is true of every later block. *)
Theorem silence_is_kept x (out_l out_r : list R) (n : Z) :
  engine_ok x -> holds_silence x ->
  let res := chiller_perform64 phase_dist amp_dist x (out_l, out_r) n in
  engine_ok (fst res) /\ holds_silence (fst res) /\
  length (fst (snd res)) = length out_l /\
  length (snd (snd res)) = length out_r /\
  (forall i, (0 <= i < n)%Z ->
     vget 0 (fst (snd res)) i = 0 /\ vget 0 (snd (snd res)) i = 0) /\
  (forall i, (0 <= i)%Z -> (n <= i)%Z ->
     vget 0 (fst (snd res)) i = vget 0 out_l i /\
     vget 0 (snd (snd res)) i = vget 0 out_r i).
Proof.
  intros Hok Hs; cbv zeta.
  assert (Hrun :
    engine_ok (fst (chiller_perform64 phase_dist amp_dist x (out_l, out_r) n))
    /\ holds_silence
         (fst (chiller_perform64 phase_dist amp_dist x (out_l, out_r) n))
    /\ snd (chiller_perform64 phase_dist amp_dist x (out_l, out_r) n)
       = for_loop 0 n 1 silence_step (out_l, out_r)).
  { unfold chiller_perform64.
    destruct (negb (spectrum_captured x) || is_null (buffer_ref x));
      [cbn [fst snd]; auto|].
    unfold for_loop.
    apply (for_count_rel (sample_step phase_dist amp_dist) silence_step 1
             (Z.to_nat ((n - 0 + 1 - 1) / 1))
             (fun _ st o =>
                engine_ok (fst st) /\ holds_silence (fst st) /\ snd st = o)).
    - cbn [fst snd]; auto.
    - intros j [y o'] o _ (Hy & Hsy & Ho); cbn [fst snd] in Hy, Hsy, Ho.
      subst o'.
      destruct (silent_sample_step y (0 + Z.of_nat j * 1) o Hy Hsy)
        as (H1 & H2 & H4).
      auto. }
  destruct Hrun as (H1 & H2 & H3); rewrite H3.
  destruct (for_loop 0 n 1 silence_step (out_l, out_r)) as [l r] eqn:E.
  destruct (silence_loop _ _ _ _ _ E) as (Hl & Hrr & Hget).
  cbn [fst snd].
  split; [exact H1|]; split; [exact H2|].
  split; [exact Hl|]; split; [exact Hrr|].
  split.
  - intros i Hi; destruct (Hget i) as [-> ->]; [lia|].
    destruct (Z.ltb_spec i n); auto; lia.
  - intros i Hi Hge; destruct (Hget i) as [-> ->]; [lia|].
    destruct (Z.ltb_spec i n); auto; lia.
Qed.

End ZeroSpectrum.

(** ** A capture overwrites what it finds *)

Lemma to_complex_overwrites (ab : list R) (fb fb' : list C) :
  length fb = length ab -> length fb' = length ab ->
  to_complex ab fb = to_complex ab fb'.
Proof.
  intros H1 H2; unfold to_complex.
  destruct (map_loop C0 (fun i (_ : C) => (vget 0 ab i, 0))
              (fun i fb => vset fb i (vget 0 ab i, 0)) (vsize ab) fb)
    as [Hl Hg]; [reflexivity | unfold vsize; lia |].
  destruct (map_loop C0 (fun i (_ : C) => (vget 0 ab i, 0))
              (fun i fb => vset fb i (vget 0 ab i, 0)) (vsize ab) fb')
    as [Hl' Hg']; [reflexivity | unfold vsize; lia |].
  apply (vget_ext C0).
  - transitivity (length fb); [exact Hl|].
    symmetry; transitivity (length fb'); [exact Hl' | congruence].
  - intros i Hi.
    assert (Hi' : (0 <= i < vsize ab)%Z).
    { split; [lia|]; destruct Hi as [_ Hi].
      unfold vsize in Hi |- *.
      replace (length ab) with (length fb) by exact H1.
      rewrite <- Hl; exact Hi. }
    etransitivity; [apply Hg; lia|].
    symmetry; etransitivity; [apply Hg'; lia|].
    destruct (Z.ltb_spec i (vsize ab)); [reflexivity | lia].
Qed.

Section Overwrite.

Context {rng_state : Type}.
Implicit Types x y : t_chiller rng_state.

Lemma copy_segment_overwrites x y (samples : list R) (channels start : Z) :
  fft_size y = fft_size x ->
  vsize (analysis_buffer x) = fft_size x ->
  vsize (analysis_buffer y) = fft_size x ->
  copy_segment y samples channels start
  = copy_segment x samples channels start.
Proof.
  intros Hn Hx Hy; unfold copy_segment; rewrite Hn.
  pose (g := fun i (_ : R) =>
               if (channels =? 1)%Z then vget 0 samples (start + i)
               else (vget 0 samples ((start + i) * 2)
                     + vget 0 samples ((start + i) * 2 + 1)) * 0.5).
  assert (Hbody : forall i w, copy_sample samples channels start i w
                              = vset w i (g i (vget 0 w i)))
    by (intros i w; unfold copy_sample, g; destruct (channels =? 1)%Z;
        reflexivity).
  destruct (map_loop 0 g _ (fft_size x) (analysis_buffer x) Hbody)
    as [Hl Hg]; [lia|].
  destruct (map_loop 0 g _ (fft_size x) (analysis_buffer y) Hbody)
    as [Hl' Hg']; [lia|].
  apply (vget_ext 0); [unfold vsize in *; lia|].
  intros i Hi; rewrite Hg, Hg' by lia.
  destruct (Z.ltb_spec i (fft_size x)); [reflexivity|].
  unfold vsize in *; lia.
Qed.

(** The outcome of the capture pipeline is a function of the source and of
    [capture_view]. *)
Lemma capture_from_overwrites x y (samples : list R) (frames channels : Z) :
  engine_ok x -> engine_ok y -> capture_view y = capture_view x ->
  capture_from (set_capturing_spectrum y true) samples frames channels
  = capture_from (set_capturing_spectrum x true) samples frames channels.
Proof.
  intros Hx Hy Hv.
  destruct Hx as (_ & _ & (_ & _ & Hxl & Hxr & Hxf & Hxa) & _).
  destruct Hy as (_ & _ & (_ & _ & Hyl & Hyr & Hyf & Hya) & _).
  unfold capture_view in Hv.
  destruct x, y; fields.
  injection Hv as -> -> -> -> -> -> -> -> -> -> -> -> -> ->.
  unfold capture_from; fields.
  assert (Hseg : forall st,
    copy_segment
      (mk_chiller buffer_ref0 buffer_name0 frozen_spectrum1 window0
         overlap_buffer_l1 overlap_buffer_r1 fft_buffer1 analysis_buffer1
         fft_size0 hop_size0 position0 overlap_amount0 grain_rate0
         phase_randomness0 amplitude_variation0 spectrum_captured1 true
         grain_counter0 hop_counter1 sample_rate0 last_position_change_time0
         rng0) samples channels st
    = copy_segment
      (mk_chiller buffer_ref0 buffer_name0 frozen_spectrum0 window0
         overlap_buffer_l0 overlap_buffer_r0 fft_buffer0 analysis_buffer0
         fft_size0 hop_size0 position0 overlap_amount0 grain_rate0
         phase_randomness0 amplitude_variation0 spectrum_captured0 true
         grain_counter0 hop_counter0 sample_rate0 last_position_change_time0
         rng0) samples channels st)
    by (intros st; apply copy_segment_overwrites; fields; congruence).
  rewrite Hseg.
  unfold start_frame; fields.
  rewrite (to_complex_overwrites _ fft_buffer1 fft_buffer0).
  - rewrite !fill_zero_repeat.
    replace (length overlap_buffer_l1) with (length overlap_buffer_l0)
      by (unfold vsize in *; lia).
    replace (length overlap_buffer_r1) with (length overlap_buffer_r0)
      by (unfold vsize in *; lia).
    reflexivity.
  - apply Nat2Z.inj; fold (vsize fft_buffer1).
    match goal with
    | |- _ = Z.of_nat (length ?v) => fold (vsize v)
    end.
    rewrite apply_window_size, copy_segment_size; fields; lia.
  - apply Nat2Z.inj; fold (vsize fft_buffer0).
    match goal with
    | |- _ = Z.of_nat (length ?v) => fold (vsize v)
    end.
    rewrite apply_window_size, copy_segment_size; fields; lia.
Qed.

Lemma capture_source_view (h : host) x y :
  capture_view y = capture_view x -> capture_source h y = capture_source h x.
Proof.
  unfold capture_source, capture_view; intros Hv.
  destruct x, y; fields.
  injection Hv as -> -> -> -> -> -> -> -> -> -> -> -> -> ->; reflexivity.
Qed.

(** A successful capture from two engines with the same [capture_view]. *)
Lemma capture_same_view (h : host) x y :
  engine_ok x -> engine_ok y -> capture_view y = capture_view x ->
  capture_succeeds h x = true ->
  chiller_capture_spectrum h y = chiller_capture_spectrum h x.
Proof.
  intros Hx Hy Hv Hok.
  destruct (capture_succeeds_source h x Hok) as (s & f & c & Hsrc).
  pose proof (capture_source_view h x y Hv) as Hsrc'.
  rewrite Hsrc in Hsrc'.
  destruct (capture_source_some h x _ _ _ Hsrc) as [_ ->].
  destruct (capture_source_some h y _ _ _ Hsrc') as [_ ->].
  now apply capture_from_overwrites.
Qed.

(** X22. A capture overwrites what it finds.  Two engines in a state the
    operations can reach, which agree on [capture_view], that is on the
    binding (reference and name), the window, the FFT and hop sizes, the
    position, the four parameters, the grain counter, the sample rate, the
    timestamp and the generator, are taken to the same state with the same
    messages by a freeze whose source passes the checks: the frozen
    spectrum, the accumulators, the two work buffers, the hop counter and
    both flags they held before do not enter the result. *)
Theorem freeze_overwrites (h : host) x y :
  engine_ok x -> engine_ok y -> capture_view y = capture_view x ->
  capture_succeeds h x = true ->
  chiller_freeze h y = chiller_freeze h x.
Proof.
  intros Hx Hy Hv Hok; unfold chiller_freeze.
  now apply capture_same_view.
Qed.

(** X23. Freezing twice is freezing once.  In a state the operations can
    reach, with a source that passes the checks, a second freeze sent right
    after the first returns the state the first one left (and the same
    message): the capture recomputes the same spectrum from the same frames
    and clears accumulators that are already clear. *)
Theorem freeze_idempotent (h : host) x :
  engine_ok x -> capture_succeeds h x = true ->
  chiller_freeze h (fst (chiller_freeze h x)) = chiller_freeze h x.
Proof.
  intros Hx Hok.
  destruct (capture_succeeds_source h x Hok) as (s & f & c & Hsrc).
  pose proof (capture_ok h x Hx) as Hy.
  unfold chiller_freeze in *.
  destruct (capture_source_some h x _ _ _ Hsrc) as [_ E].
  assert (Hv : capture_view (fst (chiller_capture_spectrum h x))
               = capture_view x)
    by (rewrite E; destruct x; reflexivity).
  assert (Hsrc' : capture_source h (fst (chiller_capture_spectrum h x))
                  = Some (s, f, c)).
  { rewrite <- Hsrc; unfold capture_source.
    replace (buffer_ref (fst (chiller_capture_spectrum h x)))
      with (buffer_ref x) by (rewrite E; destruct x; reflexivity).
    replace (fft_size (fst (chiller_capture_spectrum h x)))
      with (fft_size x) by (rewrite E; destruct x; reflexivity).
    reflexivity. }
  destruct (capture_source_some h _ _ _ _ Hsrc') as [_ ->].
  rewrite E at 2.
  now apply capture_from_overwrites.
Qed.

End Overwrite.

(** ** Notifications and construction *)

Section Notify.

Context {rng_state : Type}.
Variable phase_dist : rng_state -> R * rng_state.
Variable amp_dist : rng_state -> R * rng_state.

Implicit Types x y : t_chiller rng_state.

(** X24. What a notification does.  Any message but [globalsymbol_binding]
    leaves the engine as it is.  [globalsymbol_binding] clears [captured] and
    nothing else, so the next audio block writes 0 to the first [n] entries
    of both outputs, which keep their size and their entries past the
    block, and returns the engine untouched; and a freeze that follows it,
    the source passing the checks, yields the state and messages the same
    freeze yields without the notification. *)
Theorem notify_mutes (h : host) x (msg : t_symbol) (out_l out_r : list R)
  (n : Z) :
  (msg <> "globalsymbol_binding"%string -> chiller_notify x msg = x) /\
  let y := chiller_notify x "globalsymbol_binding"%string in
  let res := chiller_perform64 phase_dist amp_dist y (out_l, out_r) n in
  y = set_spectrum_captured x false /\
  fst res = y /\
  length (fst (snd res)) = length out_l /\
  length (snd (snd res)) = length out_r /\
  (forall i, (0 <= i < n)%Z ->
     vget 0 (fst (snd res)) i = 0 /\ vget 0 (snd (snd res)) i = 0) /\
  (forall i, (0 <= i)%Z -> (n <= i)%Z ->
     vget 0 (fst (snd res)) i = vget 0 out_l i /\
     vget 0 (snd (snd res)) i = vget 0 out_r i) /\
  (engine_ok x -> capture_succeeds h x = true ->
   chiller_freeze h y = chiller_freeze h x).
Proof.
  split.
  - intros Hne; unfold chiller_notify.
    destruct (String.eqb_spec msg "globalsymbol_binding"%string);
      [contradiction | reflexivity].
  - cbv zeta.
    assert (Hy : chiller_notify x "globalsymbol_binding"%string
                 = set_spectrum_captured x false) by reflexivity.
    rewrite Hy; split; [reflexivity|].
    assert (Hunc : spectrum_captured (set_spectrum_captured x false) = false)
      by (destruct x; reflexivity).
    destruct (perform64_idle phase_dist amp_dist _ out_l out_r n
                (or_introl Hunc))
      as (l & r & -> & Hl & Hr & Hzero & Htail).
    cbn [fst snd].
    split; [reflexivity|]; split; [exact Hl|]; split; [exact Hr|].
    split; [exact Hzero|]; split; [exact Htail|].
    intros Hok Hcap; unfold chiller_freeze.
    apply capture_same_view; try assumption.
    + destruct x; exact Hok.
    + destruct x; reflexivity.
Qed.

End Notify.

Section Construction.

Context {rng_state : Type}.
Variable seed : rng_state.

(** X25. Which buffer a new engine is bound to.  If the second creation
    argument is a symbol the engine is bound to it, whatever the first one
    is; otherwise, if the first argument is a symbol, to that one; otherwise
    it is unbound, with the empty name.  In each case the reference is what
    the host returned for the name, no spectrum is captured, no capture is
    running, the hop counter is 0 and the position is 0.5. *)
Theorem new_binding (h : host) (argv : list t_atom) :
  let x := fst (chiller_new seed h argv) in
  (forall s, nth_error argv 1 = Some (A_SYM s) ->
     buffer_name x = s /\ buffer_ref x = buffer_ref_new h s) /\
  (forall s, (forall s', nth_error argv 1 <> Some (A_SYM s')) ->
     nth_error argv 0 = Some (A_SYM s) ->
     buffer_name x = s /\ buffer_ref x = buffer_ref_new h s) /\
  ((forall s', nth_error argv 1 <> Some (A_SYM s')) ->
   (forall s', nth_error argv 0 <> Some (A_SYM s')) ->
   buffer_name x = ""%string /\ buffer_ref x = None) /\
  spectrum_captured x = false /\ capturing_spectrum x = false /\
  hop_counter x = 0%Z /\ position x = 0.5.
Proof.
  cbv zeta; unfold chiller_new.
  destruct (parse_fft_size argv) as [n msgs].
  assert (Hsym : forall (t : t_symbol) (P : Prop),
            (forall s', Some (A_SYM t) <> Some (A_SYM s')) -> P)
    by (intros t P H; exfalso; exact (H t eq_refl)).
  destruct argv as [|a [|b rest]]; cbn [nth_error fst].
  - repeat split; intros; try discriminate; repeat split.
  - destruct a; cbn [chiller_set_buffer fst]; fields;
      repeat split; intros; try discriminate; repeat split;
      try congruence; eapply Hsym; eassumption.
  - destruct a, b; cbn [chiller_set_buffer fst]; fields;
      repeat split; intros; try discriminate; repeat split;
      try congruence; eapply Hsym; eassumption.
Qed.

End Construction.

(** ** Instances of the further properties *)

Lemma fft_is_dft_witness :
  (9 <= long_bits)%nat /\ length (repeat C1 512) = (2 ^ 9)%nat /\
  forall k, (0 <= k < vsize (repeat C1 512))%Z ->
    vget C0 (chiller_fft (repeat C1 512)) k = dft (repeat C1 512) k.
Proof.
  assert (H1 : (9 <= long_bits)%nat) by (unfold long_bits; lia).
  assert (H2 : length (repeat C1 512) = (2 ^ 9)%nat) by reflexivity.
  split; [exact H1|]; split; [exact H2|].
  exact (proj1 (proj2 (fft_is_dft 9 (repeat C1 512) H1 H2))).
Defined.

Lemma ifft_is_inverse_dft_witness :
  (9 <= long_bits)%nat /\ length (repeat C1 512) = (2 ^ 9)%nat /\
  forall k, (0 <= k < vsize (repeat C1 512))%Z ->
    vget C0 (chiller_ifft (repeat C1 512)) k
    = Cdivr (dft_conj (repeat C1 512) k) (INR (length (repeat C1 512))).
Proof.
  assert (H1 : (9 <= long_bits)%nat) by (unfold long_bits; lia).
  assert (H2 : length (repeat C1 512) = (2 ^ 9)%nat) by reflexivity.
  split; [exact H1|]; split; [exact H2|].
  exact (proj2 (ifft_is_inverse_dft 9 (repeat C1 512) H1 H2)).
Defined.

Lemma fft_inverts_ifft_witness :
  (9 <= long_bits)%nat /\ length (repeat C1 512) = (2 ^ 9)%nat /\
  chiller_fft (chiller_ifft (repeat C1 512)) = repeat C1 512.
Proof.
  assert (H1 : (9 <= long_bits)%nat) by (unfold long_bits; lia).
  assert (H2 : length (repeat C1 512) = (2 ^ 9)%nat) by reflexivity.
  split; [exact H1|]; split; [exact H2|].
  exact (fft_inverts_ifft 9 (repeat C1 512) H1 H2).
Defined.

Lemma fft_energy_witness :
  (9 <= long_bits)%nat /\ length (repeat C1 512) = (2 ^ 9)%nat /\
  spectrum_energy (chiller_fft (repeat C1 512))
  = INR (length (repeat C1 512)) * spectrum_energy (repeat C1 512).
Proof.
  assert (H1 : (9 <= long_bits)%nat) by (unfold long_bits; lia).
  assert (H2 : length (repeat C1 512) = (2 ^ 9)%nat) by reflexivity.
  split; [exact H1|]; split; [exact H2|].
  exact (fft_energy 9 (repeat C1 512) H1 H2).
Defined.

Lemma bit_reverse_involutive_witness :
  (9 <= long_bits)%nat /\ length (repeat C1 512) = (2 ^ 9)%nat /\
  bit_reverse 512 (bit_reverse 512 (repeat C1 512)) = repeat C1 512.
Proof.
  assert (H1 : (9 <= long_bits)%nat) by (unfold long_bits; lia).
  assert (H2 : length (repeat C1 512) = (2 ^ 9)%nat) by reflexivity.
  split; [exact H1|]; split; [exact H2|].
  exact (proj2 (bit_reverse_involutive 9 (repeat C1 512) H1 H2)).
Defined.

Lemma fft_real_input_symmetric_witness :
  (forall m, (0 <= m < vsize (repeat C1 512))%Z ->
             snd (vget C0 (repeat C1 512) m) = 0) /\
  (0 < 3 < vsize (repeat C1 512))%Z /\
  vget C0 (chiller_fft (repeat C1 512)) (vsize (repeat C1 512) - 3)
  = Cconj (vget C0 (chiller_fft (repeat C1 512)) 3).
Proof.
  assert (H1 : (9 <= long_bits)%nat) by (unfold long_bits; lia).
  assert (H2 : length (repeat C1 512) = (2 ^ 9)%nat) by reflexivity.
  assert (H3 : forall m, (0 <= m < vsize (repeat C1 512))%Z ->
                         snd (vget C0 (repeat C1 512) m) = 0).
  { intros m Hm; unfold vget, vsize in *; rewrite repeat_length in Hm.
    rewrite nth_repeat_lt by lia; reflexivity. }
  assert (H4 : (0 < 3 < vsize (repeat C1 512))%Z)
    by (unfold vsize; rewrite repeat_length; lia).
  split; [exact H3|]; split; [exact H4|].
  exact (fft_real_input_symmetric 9 (repeat C1 512) 3 H1 H2 H3 H4).
Defined.

Lemma hann_window_shape_witness :
  (2 <= 512)%Z /\ (512 <= vsize (vector 512 0))%Z /\
  (forall i, (0 <= i < 512)%Z ->
     0 <= vget 0 (window demo_engine) i <= 1 /\
     vget 0 (window demo_engine) (512 - 1 - i) = vget 0 (window demo_engine) i)
  /\ vget 0 (window demo_engine) 100 <= vget 0 (window demo_engine) 200.
Proof.
  assert (H1 : (2 <= 512)%Z) by lia.
  assert (H2 : (512 <= vsize (vector 512 0))%Z) by (lazy; discriminate).
  destruct (hann_window_shape (vector 512 0) 512 H1 H2) as (Ha & Hb & _).
  change (chiller_generate_window (vector 512 0) 512)
    with (window demo_engine) in *.
  split; [exact H1|]; split; [exact H2|]; split; [exact Ha|].
  apply Hb; lia.
Defined.

Lemma new_fft_size_witness :
  fft_size (fst (chiller_new tt demo_host [A_LONG 4096])) = 4096%Z /\
  fft_size (fst (chiller_new tt demo_host [A_LONG 1000])) = 2048%Z /\
  snd (chiller_new tt demo_host [A_LONG 1000])
  = [object_error
       "FFT size must be power of 2 between 512 and 8192, using default %ld";
     object_post "chiller~ initialized with FFT size %ld"] /\
  fft_size (fst (chiller_new tt demo_host [A_SYM "loop"%string])) = 2048%Z.
Proof.
  destruct (new_fft_size tt demo_host [A_LONG 4096]) as (Hlong1 & _).
  destruct (new_fft_size tt demo_host [A_LONG 1000]) as (Hlong2 & _).
  destruct (new_fft_size tt demo_host [A_SYM "loop"%string]) as (_ & Hsym & _).
  split; [apply (Hlong1 4096%Z [] eq_refl); lia|].
  assert (Hbad : ~ (1000 = 512 \/ 1000 = 1024 \/ 1000 = 2048 \/ 1000 = 4096
                    \/ 1000 = 8192)%Z) by lia.
  split; [apply (proj2 (Hlong2 1000%Z [] eq_refl) Hbad)|].
  split; [apply (proj2 (Hlong2 1000%Z [] eq_refl) Hbad)|].
  apply Hsym; intros n rest; discriminate.
Defined.

Lemma freeze_resets_witness :
  capture_source demo_host demo_bound = Some (repeat 0.5 1024, 1024%Z, 1%Z) /\
  spectrum_captured demo_frozen = true /\ hop_counter demo_frozen = 0%Z /\
  overlap_buffer_l demo_frozen
  = repeat 0 (length (overlap_buffer_l demo_bound)) /\
  last_position_change_time demo_frozen
  = last_position_change_time demo_bound.
Proof.
  assert (H1 : capture_source demo_host demo_bound
               = Some (repeat 0.5 1024, 1024%Z, 1%Z)) by reflexivity.
  destruct (freeze_resets demo_host demo_bound _ _ _ H1)
    as (Ha & _ & Hb & Hc & _ & _ & _ & Hd & _).
  split; [exact H1|]; repeat split; assumption.
Defined.

Lemma accepted_position_recaptures_witness :
  500 <= 1000 - last_position_change_time demo_unresolved /\
  capturing_spectrum demo_unresolved = false /\
  spectrum_captured
    (fst (chiller_set_position demo_host demo_unresolved 1000 0.25))
  = capture_succeeds demo_host demo_unresolved /\
  capture_succeeds demo_host demo_unresolved = false.
Proof.
  assert (H1 : 500 <= 1000 - last_position_change_time demo_unresolved)
    by (change (last_position_change_time demo_unresolved) with 0; lra).
  assert (H2 : capturing_spectrum demo_unresolved = false) by reflexivity.
  split; [exact H1|]; split; [exact H2|]; split; [|reflexivity].
  exact (proj1 (accepted_position_recaptures demo_host demo_unresolved
                  1000 0.25 H1 H2)).
Defined.

Lemma capture_reads_in_bounds_witness :
  capture_source demo_host demo_bound = Some (repeat 0.5 1024, 1024%Z, 1%Z) /\
  0 <= position demo_bound <= 1 /\
  vsize (repeat 0.5 1024) = (1024 * 1)%Z /\
  (0 <= start_frame demo_bound 1024 + 511 < vsize (repeat 0.5%R 1024))%Z.
Proof.
  assert (H1 : capture_source demo_host demo_bound
               = Some (repeat 0.5 1024, 1024%Z, 1%Z)) by reflexivity.
  assert (H2 : 0 <= position demo_bound <= 1)
    by (change (position demo_bound) with 0.5; lra).
  assert (H3 : (1 <= 1)%Z) by lia.
  assert (H4 : vsize (repeat 0.5 1024) = (1024 * 1)%Z) by reflexivity.
  assert (H5 : (0 <= 511 < fft_size demo_bound)%Z)
    by (change (fft_size demo_bound) with 512%Z; lia).
  split; [exact H1|]; split; [exact H2|]; split; [exact H4|].
  exact (capture_reads_in_bounds demo_host demo_bound (repeat 0.5 1024)
           1024 1 511 H1 H2 H3 H4 H5).
Defined.

Lemma silent_until_first_grain_witness :
  spectrum_captured demo_frozen = true /\ engine_ok demo_frozen /\
  fill_zero (overlap_buffer_l demo_frozen) = overlap_buffer_l demo_frozen /\
  IZR (hop_counter demo_frozen + 100) + 1
  <= IZR (hop_size demo_frozen) / grain_rate demo_frozen /\
  exists l r,
    chiller_perform64 demo_draw demo_draw demo_frozen
      (repeat 1 100, repeat 1 100) 100
    = (set_hop_counter demo_frozen (hop_counter demo_frozen + 100), (l, r)) /\
    length l = 100%nat /\
    forall i, (0 <= i < 100)%Z -> vget 0 l i = 0 /\ vget 0 r i = 0.
Proof.
  assert (H1 : spectrum_captured demo_frozen = true) by reflexivity.
  assert (H2 : buffer_ref demo_frozen = Some {| ref_name := "loop"%string |})
    by reflexivity.
  assert (H3 : engine_ok demo_frozen)
    by exact (reachable_engine_ok demo_draw demo_draw tt demo_host
                [A_LONG 512]
                [ev_message demo_host (cmd_set "loop"%string);
                 ev_message demo_host cmd_freeze]).
  assert (H5 : fill_zero (overlap_buffer_l demo_frozen)
               = overlap_buffer_l demo_frozen) by reflexivity.
  assert (H6 : fill_zero (overlap_buffer_r demo_frozen)
               = overlap_buffer_r demo_frozen) by reflexivity.
  assert (H7 : (0 <= 100)%Z) by lia.
  assert (H8 : IZR (hop_counter demo_frozen + 100) + 1
               <= IZR (hop_size demo_frozen) / grain_rate demo_frozen).
  { change (hop_counter demo_frozen) with 0%Z.
    change (hop_size demo_frozen) with 128%Z.
    change (grain_rate demo_frozen) with 1.
    change (0 + 100)%Z with 100%Z; lra. }
  destruct (silent_until_first_grain demo_draw demo_draw demo_frozen
              (repeat 1 100) (repeat 1 100) 100 _ H1 H2 H3 H5 H6 H7 H8)
    as (l & r & E & Hlen & _ & Hzero & _).
  split; [exact H1|]; split; [exact H3|]; split; [exact H5|].
  split; [exact H8|].
  exists l, r; split; [exact E|]; split; [exact Hlen | exact Hzero].
Defined.

Lemma silent_capture_witness :
  engine_ok quiet_bound /\
  capture_source quiet_host quiet_bound = Some (repeat 0 2048, 1024%Z, 2%Z) /\
  (forall j, vget 0 (repeat 0 2048) j = 0) /\
  frozen_spectrum (fst (chiller_freeze quiet_host quiet_bound))
  = repeat C0 (Z.to_nat (fft_size quiet_bound)).
Proof.
  assert (H1 : engine_ok quiet_bound)
    by exact (reachable_engine_ok demo_draw demo_draw tt quiet_host
                [A_LONG 512] [ev_message quiet_host (cmd_set "quiet"%string)]).
  assert (H2 : capture_source quiet_host quiet_bound
               = Some (repeat 0 2048, 1024%Z, 2%Z)) by reflexivity.
  assert (H3 : forall j, vget 0 (repeat 0 2048) j = 0).
  { intros j; apply zero_vector_get.
    rewrite fill_zero_repeat, repeat_length; reflexivity. }
  split; [exact H1|]; split; [exact H2|]; split; [exact H3|].
  exact (proj1 (proj2 (silent_capture quiet_host quiet_bound
                         (repeat 0 2048) 1024 2 H1 H2 H3))).
Defined.

Lemma start_frame_range_witness :
  (fft_size demo_bound <= 1024)%Z /\ 0 <= position demo_bound <= 1 /\
  (0 <= start_frame demo_bound 1024 <= 1024 - fft_size demo_bound)%Z.
Proof.
  assert (H1 : (fft_size demo_bound <= 1024)%Z)
    by (change (fft_size demo_bound) with 512%Z; lia).
  assert (H2 : 0 <= position demo_bound <= 1)
    by (change (position demo_bound) with 0.5; lra).
  split; [exact H1|]; split; [exact H2|].
  exact (proj1 (start_frame_range demo_bound 1024 H1 H2)).
Defined.

Lemma silence_is_kept_witness :
  engine_ok quiet_frozen /\ holds_silence quiet_frozen /\
  forall i, (0 <= i < 64)%Z ->
    vget 0 (fst (snd (chiller_perform64 demo_draw demo_draw quiet_frozen
                        (repeat 1 64, repeat 1 64) 64))) i = 0 /\
    vget 0 (snd (snd (chiller_perform64 demo_draw demo_draw quiet_frozen
                        (repeat 1 64, repeat 1 64) 64))) i = 0.
Proof.
  assert (H0 : engine_ok quiet_bound)
    by exact (reachable_engine_ok demo_draw demo_draw tt quiet_host
                [A_LONG 512] [ev_message quiet_host (cmd_set "quiet"%string)]).
  assert (H1 : engine_ok quiet_frozen)
    by exact (capture_ok quiet_host quiet_bound H0).
  assert (Hsrc : capture_source quiet_host quiet_bound
                 = Some (repeat 0 2048, 1024%Z, 2%Z)) by reflexivity.
  assert (Hzero : forall j, vget 0 (repeat 0 2048) j = 0).
  { intros j; apply zero_vector_get.
    rewrite fill_zero_repeat, repeat_length; reflexivity. }
  assert (H2 : holds_silence quiet_frozen).
  { split; [|split; reflexivity].
    exact (proj1 (proj2 (silent_capture_spectrum quiet_host quiet_bound
                           (repeat 0 2048) 1024 2 H0 Hsrc Hzero))). }
  split; [exact H1|]; split; [exact H2|].
  exact (proj1 (proj2 (proj2 (proj2 (proj2
           (silence_is_kept demo_draw demo_draw quiet_frozen
              (repeat 1 64) (repeat 1 64) 64 H1 H2)))))).
Defined.

Lemma freeze_overwrites_witness :
  engine_ok demo_bound /\ engine_ok demo_notified /\
  capture_view demo_notified = capture_view demo_bound /\
  capture_succeeds demo_host demo_bound = true /\
  chiller_freeze demo_host demo_notified = chiller_freeze demo_host demo_bound.
Proof.
  assert (H1 : engine_ok demo_bound)
    by exact (reachable_engine_ok demo_draw demo_draw tt demo_host
                [A_LONG 512] [ev_message demo_host (cmd_set "loop"%string)]).
  assert (H2 : engine_ok demo_notified)
    by exact (reachable_engine_ok demo_draw demo_draw tt demo_host
                [A_LONG 512]
                [ev_message demo_host (cmd_set "loop"%string);
                 ev_message demo_host cmd_freeze;
                 ev_message demo_host
                   (cmd_notify "globalsymbol_binding"%string)]).
  assert (H3 : capture_view demo_notified = capture_view demo_bound)
    by reflexivity.
  assert (H4 : capture_succeeds demo_host demo_bound = true) by reflexivity.
  split; [exact H1|]; split; [exact H2|]; split; [exact H3|].
  split; [exact H4|].
  exact (freeze_overwrites demo_host demo_bound demo_notified H1 H2 H3 H4).
Defined.

Lemma freeze_idempotent_witness :
  engine_ok demo_bound /\ capture_succeeds demo_host demo_bound = true /\
  chiller_freeze demo_host demo_frozen = chiller_freeze demo_host demo_bound.
Proof.
  assert (H1 : engine_ok demo_bound)
    by exact (reachable_engine_ok demo_draw demo_draw tt demo_host
                [A_LONG 512] [ev_message demo_host (cmd_set "loop"%string)]).
  assert (H2 : capture_succeeds demo_host demo_bound = true) by reflexivity.
  split; [exact H1|]; split; [exact H2|].
  exact (freeze_idempotent demo_host demo_bound H1 H2).
Defined.

Lemma notify_mutes_witness :
  "bang"%string <> "globalsymbol_binding"%string /\
  chiller_notify demo_frozen "bang"%string = demo_frozen /\
  engine_ok demo_frozen /\ capture_succeeds demo_host demo_frozen = true /\
  fst (chiller_perform64 demo_draw demo_draw demo_notified
         (repeat 1 64, repeat 1 64) 64) = demo_notified /\
  length (fst (snd (chiller_perform64 demo_draw demo_draw demo_notified
                      (repeat 1 64, repeat 1 64) 64)))
  = length (repeat 1 64) /\
  chiller_freeze demo_host demo_notified = chiller_freeze demo_host demo_frozen.
Proof.
  assert (H1 : "bang"%string <> "globalsymbol_binding"%string)
    by discriminate.
  assert (H2 : engine_ok demo_frozen)
    by exact (reachable_engine_ok demo_draw demo_draw tt demo_host
                [A_LONG 512]
                [ev_message demo_host (cmd_set "loop"%string);
                 ev_message demo_host cmd_freeze]).
  assert (H3 : capture_succeeds demo_host demo_frozen = true) by reflexivity.
  destruct (notify_mutes demo_draw demo_draw demo_host demo_frozen
              "bang"%string (repeat 1 64) (repeat 1 64) 64)
    as (Ha & _ & Hb & Hlen & _ & _ & _ & Hc).
  split; [exact H1|]; split; [exact (Ha H1)|]; split; [exact H2|].
  split; [exact H3|]; split; [exact Hb|]; split; [exact Hlen|].
  exact (Hc H2 H3).
Defined.

Lemma new_binding_witness :
  nth_error [A_LONG 512; A_SYM "loop"%string] 1 = Some (A_SYM "loop"%string) /\
  buffer_name (fst (chiller_new tt demo_host
                      [A_LONG 512; A_SYM "loop"%string])) = "loop"%string /\
  nth_error [A_SYM "a"%string; A_SYM "b"%string] 1 = Some (A_SYM "b"%string) /\
  buffer_name (fst (chiller_new tt demo_host
                      [A_SYM "a"%string; A_SYM "b"%string])) = "b"%string.
Proof.
  assert (H1 : nth_error [A_LONG 512; A_SYM "loop"%string] 1
               = Some (A_SYM "loop"%string)) by reflexivity.
  assert (H2 : nth_error [A_SYM "a"%string; A_SYM "b"%string] 1
               = Some (A_SYM "b"%string)) by reflexivity.
  split; [exact H1|].
  split; [exact (proj1 (proj1 (new_binding tt demo_host _) _ H1))|].
  split; [exact H2|].
  exact (proj1 (proj1 (new_binding tt demo_host _) _ H2)).
Defined.
